(** * ocicni: the CNI plugin manager of [pkg/ocicni/ocicni.go]

    A shallow embedding of the plugin manager: the configuration loader
    ([loadNetworks], [syncNetworkConfig], [InitCNI], the directory watcher),
    the reference-counted pod lock table ([podLock], [podUnlock]) and the
    orchestration entry points ([SetUpPod], [TearDownPod],
    [GetPodNetworkStatus], [Status]), and of the command-line tool of
    [tools/ocicnitool/ocicnitool.go] that drives them ([main],
    [printSandboxResults]).

    Everything outside the package is a boundary of the model:
    - the libcni file readers and the file system are an oracle record
      ([libcni.FS]) passed to every load, so that the directory may differ
      from one load to the next;
    - the plugin-execution engine and the namespace inspector are an oracle
      record ([Engine]) whose answers may depend on the calls made so far;
    - logrus output is collected as a list of structured entries. *)

From Stdlib Require Import String Ascii DecimalString ZArith Lia.
From stdpp Require Import gmap strings list sorting.

Local Open Scope string_scope.

(** ** Go standard-library functions used by the package *)

Module Go.

(** [strings.HasSuffix]:
    [len(s) >= len(suffix) && s[len(s)-len(suffix):] == suffix]. *)
Definition HasSuffix (s suffix : string) : bool :=
  (String.length suffix <=? String.length s)%nat
  && String.eqb
       (substring (String.length s - String.length suffix)
                  (String.length suffix) s)
       suffix.

Definition is_slash (c : ascii) : bool := Ascii.eqb c "/"%char.

Fixpoint drop_slashes (l : list ascii) : list ascii :=
  match l with
  | c :: l' => if is_slash c then drop_slashes l' else l
  | [] => []
  end.

Fixpoint take_element (l : list ascii) : list ascii :=
  match l with
  | c :: l' => if is_slash c then [] else c :: take_element l'
  | [] => []
  end.

(** [path.Base]: the empty path gives ".", trailing slashes are stripped,
    the text after the last remaining slash is kept, and a path made of
    slashes only gives "/".  The path is scanned from its end, hence the
    two reversals. *)
Definition Base (path : string) : string :=
  if String.eqb path "" then "."
  else
    let stripped := drop_slashes (rev (list_ascii_of_string path)) in
    match take_element stripped with
    | [] => "/"
    | elem => string_of_list_ascii (rev elem)
    end.

(** [sort.Strings]: ascending byte-wise order.  The order is total and
    antisymmetric, so the sorted slice does not depend on the sorting
    algorithm. *)
Definition sort_Strings (l : list string) : list string :=
  merge_sort String.le l.

(** [fmt.Sprintf("%d", i)] for a slice index. *)
Definition itoa (i : nat) : string :=
  NilZero.string_of_uint (Nat.to_uint i).

(** Go's [uint] on a 64-bit platform. *)
Definition uint_modulus : Z := 2 ^ 64.
Definition uint_wrap (z : Z) : Z := z mod uint_modulus.

(** [strings.Split(s, sep)] for a separator [sep] of one byte: the
    pieces of [s] between the occurrences of [sep], one piece more than
    there are occurrences; a string without the separator, the empty one
    included, is a single piece. *)
Fixpoint Split (s : string) (sep : ascii) : list string :=
  match s with
  | EmptyString => [EmptyString]
  | String c s' =>
      if Ascii.eqb c sep then EmptyString :: Split s' sep
      else
        match Split s' sep with
        | piece :: pieces => String c piece :: pieces
        | [] => [String c EmptyString]
        end
  end.


End Go.

(** ** Errors and log entries *)

(** The error values the package creates, and the ones it receives from
    its collaborators and passes on unchanged. *)
Inductive error : Type :=
  | errMissingDefaultNetwork
      (* errors.New("Missing CNI default network") *)
  | errNoValidNetworks (pluginDir : string)
      (* fmt.Errorf("No valid networks found in %s", plugin.pluginDir) *)
  | errNetworkNotFound (name : string)
      (* fmt.Errorf("CNI network %q not found", name) *)
  | errUninitialized
      (* errors.New("cni config uninitialized") *)
  | errExternal (msg : string).
      (* any error produced by libcni, the engine, the inspector, the OS *)

Global Instance error_eq_dec : EqDecision error.
Proof. solve_decision. Defined.

(** A Go [(T, error)] pair in which exactly one side is meaningful. *)
Inductive result (A : Type) : Type :=
  | Ok (a : A)
  | Err (e : error).
Global Arguments Ok {A} a.
Global Arguments Err {A} e.

Definition is_Err {A} (r : result A) : bool :=
  match r with Ok _ => false | Err _ => true end.

(** ** libcni data *)

Module libcni.

(* types.NetConf: only the fields the package reads. *)
Record NetConf : Type := mkNetConf {
  NetConf_Name : string;
  Type_ : string
}.

Record NetworkConfig : Type := mkNetworkConfig {
  Network : NetConf;
  Bytes : string
}.

Record NetworkConfigList : Type := mkNetworkConfigList {
  Name : string;
  CNIVersion : string;
  Plugins : list NetworkConfig;
  ListBytes : string
}.

(* confList.Name = ... *)
Definition set_Name (n : string) (l : NetworkConfigList) : NetworkConfigList :=
  {| Name := n; CNIVersion := CNIVersion l;
     Plugins := Plugins l; ListBytes := ListBytes l |}.

Record CNIConfig : Type := mkCNIConfig { Path : list string }.

Record RuntimeConf (Cap : Type) : Type := mkRuntimeConf {
  ContainerID : string;
  NetNS : string;
  IfName : string;
  Args : list (string * string);
  CapabilityArgs : list (string * Cap)
}.
Global Arguments mkRuntimeConf {Cap}.
Global Arguments ContainerID {Cap}.
Global Arguments NetNS {Cap}.
Global Arguments IfName {Cap}.
Global Arguments Args {Cap}.
Global Arguments CapabilityArgs {Cap}.

(** The file readers of libcni, as seen by one load of the directory. *)
Record FS : Type := mkFS {
  ConfFiles : string -> list string -> result (list string);
  ConfListFromFile : string -> result NetworkConfigList;
  ConfFromFile : string -> result NetworkConfig;
  ConfListFromConf : NetworkConfig -> result NetworkConfigList
}.

End libcni.

(** ** The result records of [cni/pkg/types/current] *)

Module cnicurrent.

Record Interface : Type := mkInterface {
  Name : string;
  Mac : string;
  Sandbox : string
}.

Record IPConfig : Type := mkIPConfig {
  Version : string;
  Interface_ : option nat;   (* *int: index into Interfaces *)
  Address : string
}.

Record Result : Type := mkResult {
  CNIVersion : string;
  Interfaces : list Interface;
  IPs : list IPConfig
}.

End cnicurrent.

(** ** Data of the package *)

(** A port mapping is an opaque payload here: the package only tests
    whether the list is empty and hands the list to the engine. *)
Inductive PortMapping : Type := mkPortMapping (payload : string).

(** The pod descriptor, with the fields [ocicni.go] reads from it. *)
Record PodNetwork : Type := mkPodNetwork {
  Name : string;
  Namespace : string;
  ID : string;
  NetNS : string;
  PortMappings : list PortMapping;
  Networks : list string
}.

(** [PodNetwork{}] *)
Definition PodNetwork_zero : PodNetwork :=
  {| Name := ""; Namespace := ""; ID := ""; NetNS := "";
     PortMappings := []; Networks := [] |}.

Record cniNetwork : Type := mkCniNetwork {
  name : string;
  NetworkConfig : libcni.NetworkConfigList;
  CNIConfig : libcni.CNIConfig
}.

Definition RuntimeConf : Type := libcni.RuntimeConf (list PortMapping).

(** [type podLock struct]: the in-flight count and the state of the
    mutex [mu] ([true] when held). *)
Record podLockT : Type := mkPodLockT {
  refcount : Z;
  mu : bool
}.

(** [&podLock{}] *)
Definition podLock_zero : podLockT := {| refcount := 0; mu := false |}.

(** Addresses of [podLock] objects: the map [pods] holds pointers, and
    [podLock] hands out a pointer into the same object. *)
Definition loc : Type := nat.

Record cniNetworkPlugin : Type := mkPlugin {
  loNetwork : cniNetwork;
  defaultNetName : string;
  networks : gmap string cniNetwork;
  nsenterPath : string;
  pluginDir : string;
  cniDirs : list string;
  vendorCNIDirPrefix : string;
  monitorNetDirChan_closed : bool;
  pods : gmap string loc;
  (* the [podLock] objects allocated so far, by address *)
  podLocks : loc -> podLockT;
  nextLoc : loc
}.

(** Field updates of the plugin object. *)
Definition set_registry (d : string) (n : gmap string cniNetwork)
    (p : cniNetworkPlugin) : cniNetworkPlugin :=
  {| loNetwork := loNetwork p; defaultNetName := d; networks := n;
     nsenterPath := nsenterPath p; pluginDir := pluginDir p;
     cniDirs := cniDirs p; vendorCNIDirPrefix := vendorCNIDirPrefix p;
     monitorNetDirChan_closed := monitorNetDirChan_closed p;
     pods := pods p; podLocks := podLocks p; nextLoc := nextLoc p |}.

Definition set_pods (m : gmap string loc) (h : loc -> podLockT) (n : loc)
    (p : cniNetworkPlugin) : cniNetworkPlugin :=
  {| loNetwork := loNetwork p; defaultNetName := defaultNetName p;
     networks := networks p;
     nsenterPath := nsenterPath p; pluginDir := pluginDir p;
     cniDirs := cniDirs p; vendorCNIDirPrefix := vendorCNIDirPrefix p;
     monitorNetDirChan_closed := monitorNetDirChan_closed p;
     pods := m; podLocks := h; nextLoc := n |}.

Definition close_monitorNetDirChan (p : cniNetworkPlugin) : cniNetworkPlugin :=
  {| loNetwork := loNetwork p; defaultNetName := defaultNetName p;
     networks := networks p;
     nsenterPath := nsenterPath p; pluginDir := pluginDir p;
     cniDirs := cniDirs p; vendorCNIDirPrefix := vendorCNIDirPrefix p;
     monitorNetDirChan_closed := true;
     pods := pods p; podLocks := podLocks p; nextLoc := nextLoc p |}.

(** Writing one object of the heap of [podLock]s. *)
Definition heap_set (h : loc -> podLockT) (l : loc) (v : podLockT)
    : loc -> podLockT :=
  fun l' => if Nat.eqb l' l then v else h l'.

(** ** Log entries *)

Inductive log_level : Type := Debug | Info | Warning | Error.

(** One constructor per logrus call site of the package. *)
Inductive log_msg : Type :=
  | MsgUnbalancedUnref (fullPodName : string)
  | MsgZeroRefcount (fullPodName : string)
  | MsgMonitorEvent
  | MsgLoadingFailed (err : error)
  | MsgFoundDefault
  | MsgMonitorError (err : error)
  | MsgLoadConfList (confFile : string) (err : error)
  | MsgLoadConf (confFile : string) (err : error)
  | MsgNoType (confFile : string)
  | MsgConvert (confFile : string) (err : error)
  | MsgNoNetworks (confFile : string)
  | MsgFound (netName pluginType confFile : string)
  | MsgLoadNetworks (err : error)
  | MsgErr (err : error)
  | MsgAddLo (err : error)
  | MsgAddPod (netName : string) (err : error)
  | MsgDelPod (netName : string) (err : error)
  | MsgAboutToAdd (netName pluginType : string)
  | MsgAboutToDel (netName pluginType : string)
  | MsgAdding (err : error)
  | MsgDeleting (err : error)
  | MsgGotPodNetwork (podNetwork : PodNetwork).

Definition log_entry : Type := (log_level * log_msg)%type.

(** ** The external engine *)

(** A call that left the package: an attach, a detach, or an interface
    query inside the pod's namespace. *)
Inductive call : Type :=
  | CallAdd (network : cniNetwork) (rt : RuntimeConf)
  | CallDel (network : cniNetwork) (rt : RuntimeConf)
  | CallDetails (nsenter netns ifName addrType : string).

(** The answers of the engine and of the inspector.  Each answer may
    depend on the calls made before it. *)
Record Engine : Type := mkEngine {
  AddNetworkList :
    list call -> libcni.CNIConfig -> libcni.NetworkConfigList ->
    RuntimeConf -> result cnicurrent.Result;
  DelNetworkList :
    list call -> libcni.CNIConfig -> libcni.NetworkConfigList ->
    RuntimeConf -> option error;
  (* ip, mac, err *)
  getContainerDetails :
    list call -> string -> string -> string -> string ->
    result (string * string)
}.

(** What a call into the package sees and changes: the plugin object, the
    calls made to the engine so far (oldest first) and the log. *)
Record world : Type := mkWorld {
  plugin : cniNetworkPlugin;
  history : list call;
  logs : list log_entry
}.

(** How a call into the package ends when it runs alone: it returns, it
    waits for ever on a pod mutex held by someone else, or the Go runtime
    stops the process (unlock of an unlocked mutex, nil dereference). *)
Inductive outcome (A : Type) : Type :=
  | Returned (a : A)
  | Blocked
  | Fatal.
Global Arguments Returned {A} a.
Global Arguments Blocked {A}.
Global Arguments Fatal {A}.

Definition M (A : Type) : Type := world -> world * outcome A.

Definition ret {A} (a : A) : M A := fun w => (w, Returned a).

Definition bind {A B} (m : M A) (k : A -> M B) : M B :=
  fun w =>
    match m w with
    | (w', Returned a) => k a w'
    | (w', Blocked) => (w', Blocked)
    | (w', Fatal) => (w', Fatal)
    end.

Notation "'let*' x := m 'in' k" := (bind m (fun x => k))
  (at level 10, x name, m at level 100, k at level 200).
Notation "m ;; k" := (bind m (fun _ => k))
  (at level 100, k at level 200, right associativity).

Definition get_plugin : M cniNetworkPlugin := fun w => (w, Returned (plugin w)).

Definition put_plugin (p : cniNetworkPlugin) : M unit :=
  fun w => ({| plugin := p; history := history w; logs := logs w |},
            Returned tt).

Definition logf (lvl : log_level) (m : log_msg) : M unit :=
  fun w => ({| plugin := plugin w; history := history w;
               logs := logs w ++ [(lvl, m)] |}, Returned tt).

Definition blocked {A} : M A := fun w => (w, Blocked).
Definition fatal {A} : M A := fun w => (w, Fatal).

Definition get_history : M (list call) := fun w => (w, Returned (history w)).

Definition record_call (c : call) : M unit :=
  fun w => ({| plugin := plugin w; history := history w ++ [c];
               logs := logs w |}, Returned tt).

(** [defer d] around [body]: [d] runs when [body] has returned. *)
Definition defer {A} (d : M unit) (body : M A) : M A :=
  let* r := body in d ;; ret r.

(** The operating-system queries of [InitCNI]. *)
Record OS : Type := mkOS {
  LookPath : string -> result string;   (* exec.LookPath *)
  Stat : string -> option error         (* os.Stat, error part *)
}.

(** [fsnotify.Op] bits. *)
Module fsnotify.
Definition Create : N := 1.
Definition Write : N := 2.
Definition Remove : N := 4.
Definition Rename : N := 8.
Definition Chmod : N := 16.
End fsnotify.

(** What the watcher goroutine receives: an event, together with the
    directory as a load started at that moment reads it, or an error. *)
Inductive watcher_input : Type :=
  | WatcherEvent (op : N) (fs : libcni.FS)
  | WatcherError (err : error).

(** The document hard-coded in [getLoNetwork], as [libcni.ConfListFromBytes]
    reads it: one plugin of type "loopback".  [dq] is the double quote of
    the JSON text kept in the [Bytes] fields. *)
Definition dq : string := String (ascii_of_nat 34) "".

Definition loConfig_bytes : string :=
  "{" ++ String (ascii_of_nat 10)
    ("  " ++ dq ++ "cniVersion" ++ dq ++ ": " ++ dq ++ "0.2.0" ++ dq ++ ","
     ++ String (ascii_of_nat 10)
    ("  " ++ dq ++ "name" ++ dq ++ ": " ++ dq ++ "cni-loopback" ++ dq ++ ","
     ++ String (ascii_of_nat 10)
    ("  " ++ dq ++ "plugins" ++ dq ++ ": [{"
     ++ String (ascii_of_nat 10)
    ("    " ++ dq ++ "type" ++ dq ++ ": " ++ dq ++ "loopback" ++ dq
     ++ String (ascii_of_nat 10)
    ("  }]" ++ String (ascii_of_nat 10) "}"))))).

Definition loConfig : libcni.NetworkConfigList :=
  {| libcni.Name := "cni-loopback";
     libcni.CNIVersion := "0.2.0";
     libcni.Plugins :=
       [ {| libcni.Network :=
              {| libcni.NetConf_Name := ""; libcni.Type_ := "loopback" |};
            libcni.Bytes :=
              "{" ++ dq ++ "type" ++ dq ++ ":" ++ dq ++ "loopback" ++ dq ++ "}" |} ];
     libcni.ListBytes := loConfig_bytes |}.

(** ** Data of the command-line tool [tools/ocicnitool] *)






(** ** A configuration directory, an engine and a plugin, as examples *)

(** The rendering of the vendor directory template "%s/opt/%s/bin". *)
Definition ex_vendor (prefix pluginType : string) : string :=
  prefix ++ "/opt/" ++ pluginType ++ "/bin".

Definition ex_bridge : libcni.NetworkConfig :=
  {| libcni.Network :=
       {| libcni.NetConf_Name := ""; libcni.Type_ := "bridge" |};
     libcni.Bytes := "bridge document" |}.

Definition ex_confListA : libcni.NetworkConfigList :=
  {| libcni.Name := "net-a"; libcni.CNIVersion := "0.3.1";
     libcni.Plugins := [ex_bridge]; libcni.ListBytes := "net-a document" |}.

Definition ex_confListB : libcni.NetworkConfigList :=
  {| libcni.Name := ""; libcni.CNIVersion := "";
     libcni.Plugins := [ex_bridge]; libcni.ListBytes := "bridge list" |}.

(** The directory "/etc/cni/net.d" with [a.conflist] (valid, "net-a"),
    [b.conf] (valid, type "bridge", no name) and [c.conflist]
    (malformed), listed in the order c, b, a. *)
Definition ex_fs : libcni.FS :=
  {| libcni.ConfFiles := fun dir _ =>
       if String.eqb dir "/etc/cni/net.d"
       then Ok [ "/etc/cni/net.d/c.conflist"; "/etc/cni/net.d/b.conf";
                 "/etc/cni/net.d/a.conflist" ]
       else Ok [];
     libcni.ConfListFromFile := fun f =>
       if String.eqb f "/etc/cni/net.d/a.conflist" then Ok ex_confListA
       else Err (errExternal "error parsing configuration list");
     libcni.ConfFromFile := fun f =>
       if String.eqb f "/etc/cni/net.d/b.conf" then Ok ex_bridge
       else Err (errExternal "error parsing configuration");
     libcni.ConfListFromConf := fun _ => Ok ex_confListB |}.

(** The same directory after [a.conflist] has been replaced by a list
    named "net-z". *)
Definition ex_fs_later : libcni.FS :=
  {| libcni.ConfFiles := libcni.ConfFiles ex_fs;
     libcni.ConfListFromFile := fun f =>
       if String.eqb f "/etc/cni/net.d/a.conflist"
       then Ok (libcni.set_Name "net-z" ex_confListA)
       else Err (errExternal "error parsing configuration list");
     libcni.ConfFromFile := libcni.ConfFromFile ex_fs;
     libcni.ConfListFromConf := libcni.ConfListFromConf ex_fs |}.

Definition ex_result (ifName : string) : cnicurrent.Result :=
  {| cnicurrent.CNIVersion := "0.3.1";
     cnicurrent.Interfaces :=
       [ {| cnicurrent.Name := ifName; cnicurrent.Mac := "0a:58:0a:00:00:02";
            cnicurrent.Sandbox := "/proc/42/ns/net" |} ];
     cnicurrent.IPs := [] |}.

(** An engine that answers every call without error. *)
Definition ex_engine : Engine :=
  {| AddNetworkList := fun _ _ _ rt => Ok (ex_result (libcni.IfName rt));
     DelNetworkList := fun _ _ _ _ => None;
     getContainerDetails := fun _ _ _ _ _ =>
       Ok ("10.0.0.2/24", "0a:58:0a:00:00:02") |}.

(** An engine that fails every operation on "eth1". *)
Definition ex_engine_eth1 : Engine :=
  {| AddNetworkList := fun _ _ _ rt =>
       if String.eqb (libcni.IfName rt) "eth1"
       then Err (errExternal "attach failed")
       else Ok (ex_result (libcni.IfName rt));
     DelNetworkList := fun _ _ _ rt =>
       if String.eqb (libcni.IfName rt) "eth1"
       then Some (errExternal "detach failed") else None;
     getContainerDetails := fun _ _ _ ifName _ =>
       if String.eqb ifName "eth1"
       then Err (errExternal "no such interface")
       else Ok ("10.0.0.2/24", "0a:58:0a:00:00:02") |}.

Definition ex_lo : cniNetwork :=
  {| name := "lo"; NetworkConfig := loConfig;
     CNIConfig := {| libcni.Path := ["/opt/cni/bin"; "/opt/loopback/bin"] |} |}.

Definition ex_netA : cniNetwork :=
  {| name := "net-a"; NetworkConfig := ex_confListA;
     CNIConfig := {| libcni.Path := ["/opt/cni/bin"; "/opt/bridge/bin"] |} |}.

Definition ex_netB : cniNetwork :=
  {| name := "b.conf";
     NetworkConfig := libcni.set_Name "b.conf" ex_confListB;
     CNIConfig := {| libcni.Path := ["/opt/cni/bin"; "/opt/bridge/bin"] |} |}.

(** A plugin whose registry holds "net-a" and "b.conf", with default
    network "net-a" and an empty lock table. *)
Definition ex_plugin : cniNetworkPlugin :=
  {| loNetwork := ex_lo;
     defaultNetName := "net-a";
     networks := <["b.conf" := ex_netB]> (<["net-a" := ex_netA]> ∅);
     nsenterPath := "/usr/bin/nsenter";
     pluginDir := "/etc/cni/net.d";
     cniDirs := ["/opt/cni/bin"];
     vendorCNIDirPrefix := "";
     monitorNetDirChan_closed := false;
     pods := ∅;
     podLocks := fun _ => podLock_zero;
     nextLoc := 0%nat |}.

Definition ex_world : world :=
  {| plugin := ex_plugin; history := []; logs := [] |}.

(** The same plugin before any network has been loaded: the default
    name "net-a" was given at construction, the registry is empty. *)
Definition ex_world_unloaded : world :=
  {| plugin := set_registry "net-a" ∅ ex_plugin; history := []; logs := [] |}.

Definition ex_pod : PodNetwork :=
  {| Name := "web"; Namespace := "default"; ID := "c1";
     NetNS := "/proc/42/ns/net"; PortMappings := []; Networks := [] |}.

Definition ex_pod_two : PodNetwork :=
  {| Name := "web"; Namespace := "default"; ID := "c1";
     NetNS := "/proc/42/ns/net"; PortMappings := [];
     Networks := ["net-a"; "b.conf"] |}.


(** The directory "/etc/cni/net.d" of [ex_fs], listed in the order
    a, b, c. *)
Definition ex_fs_sorted : libcni.FS :=
  {| libcni.ConfFiles := fun dir _ =>
       if String.eqb dir "/etc/cni/net.d"
       then Ok [ "/etc/cni/net.d/a.conflist"; "/etc/cni/net.d/b.conf";
                 "/etc/cni/net.d/c.conflist" ]
       else Ok [];
     libcni.ConfListFromFile := libcni.ConfListFromFile ex_fs;
     libcni.ConfFromFile := libcni.ConfFromFile ex_fs;
     libcni.ConfListFromConf := libcni.ConfListFromConf ex_fs |}.

(** Another pod of the same namespace. *)
Definition ex_pod_other : PodNetwork :=
  {| Name := "db"; Namespace := "default"; ID := "c2";
     NetNS := "/proc/43/ns/net"; PortMappings := []; Networks := [] |}.

(** An operating system with [nsenter] and every directory. *)
Definition ex_os : OS :=
  {| LookPath := fun _ => Ok "/usr/bin/nsenter"; Stat := fun _ => None |}.





(** ** The package *)

Section Package.

(** Constants declared in the package's [types.go]: the default
    directories, and the rendering of [VendorCNIDirTemplate] for a prefix
    and a plugin type. *)
Variable DefaultNetDir : string.
Variable DefaultCNIDir : string.
Variable Sprintf_VendorCNIDirTemplate : string -> string -> string.

(** The engine and the inspector the package talks to. *)
Variable engine : Engine.

Definition buildFullPodName (podNetwork : PodNetwork) : string :=
  Namespace podNetwork ++ "_" ++ Name podNetwork.

(** *** The pod lock table *)

(** [sync.Mutex.Lock] on the mutex of the object at [l]. *)
Definition Mutex_Lock (l : loc) : M unit :=
  let* p := get_plugin in
  let lock := podLocks p l in
  if mu lock then blocked
  else put_plugin
         (set_pods (pods p)
            (heap_set (podLocks p) l
               {| refcount := refcount lock; mu := true |})
            (nextLoc p) p).

(** [sync.Mutex.Unlock]: a fatal runtime error when the mutex is not
    held. *)
Definition Mutex_Unlock (l : loc) : M unit :=
  let* p := get_plugin in
  let lock := podLocks p l in
  if mu lock then
    put_plugin
      (set_pods (pods p)
         (heap_set (podLocks p) l
            {| refcount := refcount lock; mu := false |})
         (nextLoc p) p)
  else fatal.

(** [podLock] runs under [podsLock], hence atomically.  It returns the
    address of the mutex of the pod's entry. *)
Definition podLock (podNetwork : PodNetwork) : M loc :=
  let* p := get_plugin in
  let fullPodName := buildFullPodName podNetwork in
  let* l :=
    match pods p !! fullPodName with
    | Some l => ret l
    | None =>
        let l := nextLoc p in
        put_plugin
          (set_pods (<[fullPodName := l]> (pods p))
             (heap_set (podLocks p) l podLock_zero) (S l) p) ;;
        ret l
    end in
  let* p := get_plugin in
  let lock := podLocks p l in
  put_plugin
    (set_pods (pods p)
       (heap_set (podLocks p) l
          {| refcount := Go.uint_wrap (refcount lock + 1); mu := mu lock |})
       (nextLoc p) p) ;;
  ret l.

(** [podUnlock], atomic as well. *)
Definition podUnlock (podNetwork : PodNetwork) : M unit :=
  let* p := get_plugin in
  let fullPodName := buildFullPodName podNetwork in
  match pods p !! fullPodName with
  | None => logf Warning (MsgUnbalancedUnref fullPodName)
  | Some l =>
      let lock := podLocks p l in
      if (refcount lock =? 0)%Z then
        put_plugin
          (set_pods (delete fullPodName (pods p)) (podLocks p)
             (nextLoc p) p) ;;
        logf Error (MsgZeroRefcount fullPodName)
      else
        let rc := Go.uint_wrap (refcount lock - 1) in
        put_plugin
          (set_pods (pods p)
             (heap_set (podLocks p) l {| refcount := rc; mu := mu lock |})
             (nextLoc p) p) ;;
        Mutex_Unlock l ;;
        if (rc =? 0)%Z then
          let* p := get_plugin in
          put_plugin
            (set_pods (delete fullPodName (pods p)) (podLocks p)
               (nextLoc p) p)
        else ret tt
  end.

(** *** Loading the configuration directory *)

Definition vendorCNIDir (prefix pluginType : string) : string :=
  Sprintf_VendorCNIDirTemplate prefix pluginType.

(** The part of the loop body of [loadNetworks] that reads one file;
    [None] stands for [continue]. *)
Definition loadNetworks_read (fs : libcni.FS) (confFile : string)
    : M (option libcni.NetworkConfigList) :=
  if Go.HasSuffix confFile ".conflist" then
    match libcni.ConfListFromFile fs confFile with
    | Err err => logf Warning (MsgLoadConfList confFile err) ;; ret None
    | Ok confList => ret (Some confList)
    end
  else
    match libcni.ConfFromFile fs confFile with
    | Err err => logf Warning (MsgLoadConf confFile err) ;; ret None
    | Ok conf =>
        if String.eqb (libcni.Type_ (libcni.Network conf)) "" then
          logf Warning (MsgNoType confFile) ;; ret None
        else
          match libcni.ConfListFromConf fs conf with
          | Err err => logf Warning (MsgConvert confFile err) ;; ret None
          | Ok confList => ret (Some confList)
          end
    end.

(** One iteration of the loop over the sorted file names.  The local
    variables [networks] and [defaultNetName] are threaded through. *)
Definition loadNetworks_body (fs : libcni.FS) (confFile : string)
    (acc : gmap string cniNetwork * string)
    : M (gmap string cniNetwork * string) :=
  let '(networks, defaultNetName) := acc in
  let* r := loadNetworks_read fs confFile in
  match r with
  | None => ret acc
  | Some confList =>
      match libcni.Plugins confList with
      | [] => logf Warning (MsgNoNetworks confFile) ;; ret acc
      | plugin0 :: _ =>
          let confList :=
            if String.eqb (libcni.Name confList) ""
            then libcni.set_Name (Go.Base confFile) confList
            else confList in
          logf Info
            (MsgFound (libcni.Name confList)
               (libcni.Type_ (libcni.Network plugin0)) confFile) ;;
          let* p := get_plugin in
          let cninet :=
            {| libcni.Path :=
                 foldl
                   (fun path pl =>
                      (path ++
                       [vendorCNIDir (vendorCNIDirPrefix p)
                          (libcni.Type_ (libcni.Network pl))])%list)
                   (cniDirs p) (libcni.Plugins confList) |} in
          let networks :=
            <[libcni.Name confList :=
                {| name := libcni.Name confList;
                   NetworkConfig := confList;
                   CNIConfig := cninet |}]> networks in
          let defaultNetName :=
            if String.eqb defaultNetName "" then libcni.Name confList
            else defaultNetName in
          ret (networks, defaultNetName)
      end
  end.

Fixpoint loadNetworks_loop (fs : libcni.FS) (files : list string)
    (acc : gmap string cniNetwork * string)
    : M (gmap string cniNetwork * string) :=
  match files with
  | [] => ret acc
  | confFile :: rest =>
      let* acc' := loadNetworks_body fs confFile acc in
      loadNetworks_loop fs rest acc'
  end.

Definition loadNetworks (fs : libcni.FS)
    : M (result (gmap string cniNetwork * string)) :=
  let* p := get_plugin in
  match libcni.ConfFiles fs (pluginDir p) [".conf"; ".conflist"; ".json"] with
  | Err err => ret (Err err)
  | Ok files =>
      if (length files =? 0)%nat then ret (Err errMissingDefaultNetwork)
      else
        let* acc := loadNetworks_loop fs (Go.sort_Strings files) (∅, "") in
        let '(networks, defaultNetName) := acc in
        if (size networks =? 0)%nat
        then ret (Err (errNoValidNetworks (pluginDir p)))
        else ret (Ok (networks, defaultNetName))
  end.

Definition getLoNetwork (cniDirs : list string) (vendorDirPrefix : string)
    : cniNetwork :=
  let vendorDir := vendorCNIDir vendorDirPrefix "loopback" in
  {| name := "lo";
     NetworkConfig := loConfig;
     CNIConfig := {| libcni.Path := (cniDirs ++ [vendorDir])%list |} |}.

Definition syncNetworkConfig (fs : libcni.FS) : M (option error) :=
  let* r := loadNetworks fs in
  match r with
  | Err err => logf Error (MsgLoadNetworks err) ;; ret (Some err)
  | Ok (networks', defaultNetName') =>
      (* plugin.Lock() ... defer plugin.Unlock(): the two writes are
         one atomic step *)
      let* p := get_plugin in
      put_plugin
        (set_registry
           (if String.eqb (defaultNetName p) ""
            then defaultNetName' else defaultNetName p)
           networks' p) ;;
      ret None
  end.

(** *** Reading the registry *)

Definition getNetwork (name : string) : M (result cniNetwork) :=
  let* p := get_plugin in
  match networks p !! name with
  | None => ret (Err (errNetworkNotFound name))
  | Some net => ret (Ok net)
  end.

Definition getDefaultNetworkName : M string :=
  let* p := get_plugin in ret (defaultNetName p).

(** A nil [*cniNetwork] is [None]. *)
Definition getDefaultNetwork : M (option cniNetwork) :=
  let* defaultNetName := getDefaultNetworkName in
  if String.eqb defaultNetName "" then ret None
  else
    let* r := getNetwork defaultNetName in
    match r with
    | Ok network => ret (Some network)
    | Err _ => ret None
    end.

Definition checkInitialized (podNetwork : PodNetwork) : M (option error) :=
  if (length (Networks podNetwork) =? 0)%nat then
    let* d := getDefaultNetwork in
    match d with
    | None => ret (Some errUninitialized)
    | Some _ => ret None
    end
  else ret None.

(** *** Iterating over the networks of a pod *)

(** The loop of [forEachNetwork] from index [i] on.  [forEachFunc] is a
    closure; [A] is the type of the variables it captures and updates
    (the [results] slice of its callers), threaded through as [a]. *)
Fixpoint forEachNetwork_loop {A : Type}
    (forEachFunc : cniNetwork -> string -> PodNetwork -> A ->
                   M (A * option error))
    (podNetwork : PodNetwork) (i : nat) (networks : list string) (a : A)
    : M (A * option error) :=
  match networks with
  | [] => ret (a, None)
  | netName :: rest =>
      (* Interface names start at "eth0" and count up for each network *)
      let ifName := "eth" ++ Go.itoa i in
      let* r := getNetwork netName in
      match r with
      | Err err => logf Error (MsgErr err) ;; ret (a, Some err)
      | Ok network =>
          let* r := forEachFunc network ifName podNetwork a in
          match r with
          | (a', Some err) => ret (a', Some err)
          | (a', None) =>
              forEachNetwork_loop forEachFunc podNetwork (S i) rest a'
          end
      end
  end.

Definition forEachNetwork {A : Type} (podNetwork : PodNetwork)
    (forEachFunc : cniNetwork -> string -> PodNetwork -> A ->
                   M (A * option error))
    (a : A) : M (A * option error) :=
  let networks := Networks podNetwork in
  let* networks :=
    if (length networks =? 0)%nat then
      let* d := getDefaultNetworkName in ret (networks ++ [d])%list
    else ret networks in
  forEachNetwork_loop forEachFunc podNetwork 0 networks a.

(** *** Calls to the engine *)

Definition buildCNIRuntimeConf (podNetwork : PodNetwork) (ifName : string)
    : M (result RuntimeConf) :=
  logf Info (MsgGotPodNetwork podNetwork) ;;
  let rt : RuntimeConf :=
    {| libcni.ContainerID := ID podNetwork;
       libcni.NetNS := NetNS podNetwork;
       libcni.IfName := ifName;
       libcni.Args :=
         [ ("IgnoreUnknown", "1");
           ("K8S_POD_NAMESPACE", Namespace podNetwork);
           ("K8S_POD_NAME", Name podNetwork);
           ("K8S_POD_INFRA_CONTAINER_ID", ID podNetwork) ];
       libcni.CapabilityArgs := [] |} in
  if (length (PortMappings podNetwork) =? 0)%nat then ret (Ok rt)
  else
    ret (Ok {| libcni.ContainerID := libcni.ContainerID rt;
               libcni.NetNS := libcni.NetNS rt;
               libcni.IfName := libcni.IfName rt;
               libcni.Args := libcni.Args rt;
               libcni.CapabilityArgs :=
                 [ ("portMappings", PortMappings podNetwork) ] |}).

(** [netconf.Plugins[0]] panics on an empty plugin list. *)
Definition first_plugin_type (netconf : libcni.NetworkConfigList) : M string :=
  match libcni.Plugins netconf with
  | [] => fatal
  | plugin0 :: _ => ret (libcni.Type_ (libcni.Network plugin0))
  end.

Definition addToNetwork (network : cniNetwork) (podNetwork : PodNetwork)
    (ifName : string) : M (result cnicurrent.Result) :=
  let* r := buildCNIRuntimeConf podNetwork ifName in
  match r with
  | Err err => logf Error (MsgAdding err) ;; ret (Err err)
  | Ok rt =>
      let netconf := NetworkConfig network in
      let cninet := CNIConfig network in
      let* ty := first_plugin_type netconf in
      logf Info (MsgAboutToAdd (libcni.Name netconf) ty) ;;
      let* h := get_history in
      record_call (CallAdd network rt) ;;
      match AddNetworkList engine h cninet netconf rt with
      | Err err => logf Error (MsgAdding err) ;; ret (Err err)
      | Ok res => ret (Ok res)
      end
  end.

Definition deleteFromNetwork (network : cniNetwork) (podNetwork : PodNetwork)
    (ifName : string) : M (option error) :=
  let* r := buildCNIRuntimeConf podNetwork ifName in
  match r with
  | Err err => logf Error (MsgDeleting err) ;; ret (Some err)
  | Ok rt =>
      let netconf := NetworkConfig network in
      let cninet := CNIConfig network in
      let* ty := first_plugin_type netconf in
      logf Info (MsgAboutToDel (libcni.Name netconf) ty) ;;
      let* h := get_history in
      record_call (CallDel network rt) ;;
      match DelNetworkList engine h cninet netconf rt with
      | Some err => logf Error (MsgDeleting err) ;; ret (Some err)
      | None => ret None
      end
  end.

(** *** The entry points *)

(** The closures [SetUpPod], [TearDownPod] and [GetPodNetworkStatus] pass
    to [forEachNetwork].  The slice [results] they capture is the last
    argument. *)
Definition setup_closure (network : cniNetwork) (ifName : string)
    (podNetwork : PodNetwork) (results : list cnicurrent.Result)
    : M (list cnicurrent.Result * option error) :=
  let* r := addToNetwork network podNetwork ifName in
  match r with
  | Err err =>
      logf Error (MsgAddPod (name network) err) ;;
      ret (results, Some err)
  | Ok result => ret ((results ++ [result])%list, None)
  end.

Definition teardown_closure (network : cniNetwork) (ifName : string)
    (podNetwork : PodNetwork) (_ : unit) : M (unit * option error) :=
  let* e := deleteFromNetwork network podNetwork ifName in
  match e with
  | Some err =>
      logf Error (MsgDelPod (name network) err) ;;
      ret (tt, Some err)
  | None => ret (tt, None)
  end.

Definition status_closure (network : cniNetwork) (ifName : string)
    (podNetwork : PodNetwork) (results : list cnicurrent.Result)
    : M (list cnicurrent.Result * option error) :=
  let* p := get_plugin in
  let* h := get_history in
  record_call
    (CallDetails (nsenterPath p) (NetNS podNetwork) ifName "-4") ;;
  match getContainerDetails engine h (nsenterPath p)
          (NetNS podNetwork) ifName "-4" with
  | Err err => ret (results, Some err)
  | Ok (ip, mac) =>
      ret ((results ++
            [ {| cnicurrent.CNIVersion := "0.3.1";
                 cnicurrent.Interfaces :=
                   [ {| cnicurrent.Name := ifName;
                        cnicurrent.Mac := mac;
                        cnicurrent.Sandbox := NetNS podNetwork |} ];
                 cnicurrent.IPs :=
                   [ {| cnicurrent.Version := "4";
                        cnicurrent.Interface_ := Some 0%nat;
                        cnicurrent.Address := ip |} ] |} ])%list,
           None)
  end.

(** The part of [SetUpPod] that runs under the pod lock.  A nil slice is
    the empty list: [return nil, err] is [([], Some err)] and
    [return results, nil] is [(results, None)]. *)
Definition SetUpPod_locked (podNetwork : PodNetwork)
    : M (list cnicurrent.Result * option error) :=
  let* p := get_plugin in
  let* r := addToNetwork (loNetwork p) podNetwork "lo" in
  match r with
  | Err err => logf Error (MsgAddLo err) ;; ret ([], Some err)
  | Ok _ =>
      let results : list cnicurrent.Result := [] in
      let* r := forEachNetwork podNetwork setup_closure results in
      match r with
      | (_, Some err) => ret ([], Some err)
      | (results, None) => ret (results, None)
      end
  end.

Definition SetUpPod (podNetwork : PodNetwork)
    : M (list cnicurrent.Result * option error) :=
  let* e := checkInitialized podNetwork in
  match e with
  | Some err => ret ([], Some err)
  | None =>
      let* l := podLock podNetwork in
      Mutex_Lock l ;;
      defer (podUnlock podNetwork) (SetUpPod_locked podNetwork)
  end.

(** The part of [TearDownPod] that runs under the pod lock. *)
Definition TearDownPod_locked (podNetwork : PodNetwork) : M (option error) :=
  let* r := forEachNetwork podNetwork teardown_closure tt in
  ret (snd r).

Definition TearDownPod (podNetwork : PodNetwork) : M (option error) :=
  let* e := checkInitialized podNetwork in
  match e with
  | Some err => ret (Some err)
  | None =>
      let* l := podLock podNetwork in
      Mutex_Lock l ;;
      defer (podUnlock podNetwork) (TearDownPod_locked podNetwork)
  end.

(** The part of [GetPodNetworkStatus] that runs under the pod lock. *)
Definition GetPodNetworkStatus_locked (podNetwork : PodNetwork)
    : M (list cnicurrent.Result * option error) :=
  let results : list cnicurrent.Result := [] in
  let* r := forEachNetwork podNetwork status_closure results in
  match r with
  | (_, Some err) => ret ([], Some err)
  | (results, None) => ret (results, None)
  end.

(** [GetPodNetworkStatus] returns IP addressing and interface details for
    all networks attached to the pod. *)
Definition GetPodNetworkStatus (podNetwork : PodNetwork)
    : M (list cnicurrent.Result * option error) :=
  let* l := podLock podNetwork in
  Mutex_Lock l ;;
  defer (podUnlock podNetwork) (GetPodNetworkStatus_locked podNetwork).

Definition Status : M (option error) := checkInitialized PodNetwork_zero.

(** *** The directory watcher and the constructor *)

(** The goroutine started by [monitorNetDir], fed with what the watcher
    delivers.  When the inputs run out the goroutine is still waiting. *)
Fixpoint monitorNetDir_loop (inputs : list watcher_input) : M unit :=
  match inputs with
  | [] => ret tt
  | WatcherEvent op fs :: rest =>
      logf Debug MsgMonitorEvent ;;
      if negb (N.land op fsnotify.Create =? fsnotify.Create)%N
         && negb (N.land op fsnotify.Write =? fsnotify.Write)%N
      then monitorNetDir_loop rest
      else
        let* e := syncNetworkConfig fs in
        match e with
        | Some err => logf Error (MsgLoadingFailed err) ;;
                      monitorNetDir_loop rest
        | None =>
            (* Stop watching when we have a default network *)
            let* d := getDefaultNetwork in
            match d with
            | Some _ =>
                logf Info MsgFoundDefault ;;
                let* p := get_plugin in
                put_plugin (close_monitorNetDirChan p)
            | None => monitorNetDir_loop rest
            end
        end
  | WatcherError err :: _ =>
      logf Error (MsgMonitorError err) ;;
      let* p := get_plugin in
      put_plugin (close_monitorNetDirChan p)
  end.

(** [InitCNI]: the new plugin with the log of its first load, and whether
    the watcher goroutine was started. *)
Definition InitCNI (os : OS) (fs : libcni.FS) (defaultNetName : string)
    (pluginDir : string) (cniDirs : list string)
    : result (world * bool) :=
  let vendorCNIDirPrefix := "" in
  let pluginDir := if String.eqb pluginDir "" then DefaultNetDir else pluginDir in
  let cniDirs :=
    if (length cniDirs =? 0)%nat then [DefaultCNIDir] else cniDirs in
  match LookPath os "nsenter" with
  | Err err => Err err
  | Ok path =>
      let plugin :=
        {| defaultNetName := defaultNetName;
           networks := ∅;
           loNetwork := getLoNetwork cniDirs vendorCNIDirPrefix;
           pluginDir := pluginDir;
           cniDirs := cniDirs;
           vendorCNIDirPrefix := vendorCNIDirPrefix;
           monitorNetDirChan_closed := false;
           pods := ∅;
           podLocks := fun _ => podLock_zero;
           nextLoc := 0%nat;
           nsenterPath := path |} in
      (* Fail loudly if plugin directory doesn't exist, because fsnotify
         watcher won't be able to watch it. *)
      match Stat os pluginDir with
      | Some err => Err err
      | None =>
          match syncNetworkConfig fs
                  {| plugin := plugin; history := []; logs := [] |} with
          | (w, Returned (Some _)) =>
              (* We do not have a valid default network, so start the
                 monitoring thread. *)
              Ok (w, true)
          | (w, _) => Ok (w, false)
          end
      end
  end.

(** *** The command-line tool *)





(** The loop of [main] over the pieces of the [-networks] flag. *)
Definition parse_networks (networksStr : string) : list string :=
  foldl
    (fun networks name =>
       if (0 <? String.length name)%nat then (networks ++ [name])%list
       else networks)
    [] (Go.Split networksStr ","%char).




(** The names of [names] joined by commas. *)
Fixpoint comma_joined (names : list string) : string :=
  match names with
  | [] => ""
  | [name] => name
  | name :: rest => name ++ "," ++ comma_joined rest
  end.


(** *** Notions used to state the properties *)

(** The interface name of the requested network at position [i]. *)
Definition ifName_at (i : nat) : string := "eth" ++ Go.itoa i.

(** The runtime configuration [buildCNIRuntimeConf] returns. *)
Definition runtimeConf (podNetwork : PodNetwork) (ifName : string)
    : RuntimeConf :=
  {| libcni.ContainerID := ID podNetwork;
     libcni.NetNS := NetNS podNetwork;
     libcni.IfName := ifName;
     libcni.Args :=
       [ ("IgnoreUnknown", "1");
         ("K8S_POD_NAMESPACE", Namespace podNetwork);
         ("K8S_POD_NAME", Name podNetwork);
         ("K8S_POD_INFRA_CONTAINER_ID", ID podNetwork) ];
     libcni.CapabilityArgs :=
       match PortMappings podNetwork with
       | [] => []
       | pm => [ ("portMappings", pm) ]
       end |}.

(** The resolution rule in the words of the specification: a non-empty
    explicit list is used as it is, otherwise the list holds the current
    default network name only. *)
Definition resolved_networks (p : cniNetworkPlugin) (podNetwork : PodNetwork)
    : list string :=
  match Networks podNetwork with
  | [] => [defaultNetName p]
  | explicit => explicit
  end.

(** The default network is resolvable: its name is set and the registry
    has a network of that name. *)
Definition default_resolvable (p : cniNetworkPlugin) : bool :=
  negb (String.eqb (defaultNetName p) "")
  && bool_decide (is_Some (networks p !! defaultNetName p)).

(** What the engine or the inspector answers to a call made after the
    calls [h]. *)
Inductive answer : Type :=
  | AnsAdd (r : result cnicurrent.Result)
  | AnsDel (e : option error)
  | AnsDetails (r : result (string * string)).

Definition answer_to (h : list call) (c : call) : answer :=
  match c with
  | CallAdd network rt =>
      AnsAdd (AddNetworkList engine h (CNIConfig network)
                (NetworkConfig network) rt)
  | CallDel network rt =>
      AnsDel (DelNetworkList engine h (CNIConfig network)
                (NetworkConfig network) rt)
  | CallDetails nsenter netns ifName addrType =>
      AnsDetails (getContainerDetails engine h nsenter netns ifName addrType)
  end.

Definition answer_error (a : answer) : option error :=
  match a with
  | AnsAdd (Err e) | AnsDel (Some e) | AnsDetails (Err e) => Some e
  | _ => None
  end.

(** The answers to the calls [cs] made one after the other, after [h]. *)
Fixpoint answers (h : list call) (cs : list call) : list answer :=
  match cs with
  | [] => []
  | c :: cs' => answer_to h c :: answers (h ++ [c]) cs'
  end.

(** The result record [GetPodNetworkStatus] builds from an address and a
    hardware address. *)
Definition status_result (podNetwork : PodNetwork) (ifName ip mac : string)
    : cnicurrent.Result :=
  {| cnicurrent.CNIVersion := "0.3.1";
     cnicurrent.Interfaces :=
       [ {| cnicurrent.Name := ifName;
            cnicurrent.Mac := mac;
            cnicurrent.Sandbox := NetNS podNetwork |} ];
     cnicurrent.IPs :=
       [ {| cnicurrent.Version := "4";
            cnicurrent.Interface_ := Some 0%nat;
            cnicurrent.Address := ip |} ] |}.

(** The mutex of the pod's entry in the lock table is free, or the pod
    has no entry. *)
Definition pod_mutex_free (p : cniNetworkPlugin) (podNetwork : PodNetwork)
    : Prop :=
  match pods p !! buildFullPodName podNetwork with
  | Some l => mu (podLocks p l) = false
  | None => True
  end.

(** Every network the plugin holds has at least one plugin and carries
    the name of its configuration as its registry key; the loopback
    network is the one [getLoNetwork] builds. *)
Definition registry_ok (p : cniNetworkPlugin) : Prop :=
  (forall k net, networks p !! k = Some net ->
     libcni.Plugins (NetworkConfig net) <> []
     /\ name net = k
     /\ libcni.Name (NetworkConfig net) = k)
  /\ loNetwork p = getLoNetwork (cniDirs p) (vendorCNIDirPrefix p).


(** The addresses held by the lock table are allocated and pairwise
    distinct. *)
Definition pods_wf (p : cniNetworkPlugin) : Prop :=
  (forall k l, pods p !! k = Some l -> (l < nextLoc p)%nat)
  /\ (forall k1 k2 l,
        pods p !! k1 = Some l -> pods p !! k2 = Some l -> k1 = k2).

(** The in-flight count the lock table holds for a key, if any. *)
Definition pod_refcount (p : cniNetworkPlugin) (k : string) : option Z :=
  match pods p !! k with
  | Some l => Some (refcount (podLocks p l))
  | None => None
  end.

(** The atomic steps of the callers of the lock table: [podLock], the
    [Lock] of a mutex handed out earlier, and [podUnlock]. *)
Inductive lock_op : Type :=
  | OpPodLock (podNetwork : PodNetwork)
  | OpMutexLock (l : loc)
  | OpPodUnlock (podNetwork : PodNetwork).

Fixpoint run_lock_ops (ops : list lock_op) : M unit :=
  match ops with
  | [] => ret tt
  | OpPodLock podNetwork :: rest =>
      let* _ := podLock podNetwork in run_lock_ops rest
  | OpMutexLock l :: rest => Mutex_Lock l ;; run_lock_ops rest
  | OpPodUnlock podNetwork :: rest =>
      podUnlock podNetwork ;; run_lock_ops rest
  end.

(** A sequence is balanced for the key [k] when its [podLock] and
    [podUnlock] steps on [k] pair up like brackets: every [podUnlock]
    answers an earlier [podLock] not yet answered, and none is left
    open.  [depth] counts the open ones. *)
Fixpoint balanced_from (k : string) (depth : nat) (ops : list lock_op)
    : bool :=
  match ops with
  | [] => (depth =? 0)%nat
  | OpPodLock podNetwork :: rest =>
      if String.eqb (buildFullPodName podNetwork) k
      then balanced_from k (S depth) rest
      else balanced_from k depth rest
  | OpMutexLock _ :: rest => balanced_from k depth rest
  | OpPodUnlock podNetwork :: rest =>
      if String.eqb (buildFullPodName podNetwork) k
      then match depth with
           | O => false
           | S d => balanced_from k d rest
           end
      else balanced_from k depth rest
  end.

Definition balanced (k : string) (ops : list lock_op) : bool :=
  balanced_from k 0 ops.


(** The invariant of the lock table along a sequence of steps, for the
    key [k] with [d] [podLock] steps still open: the count of [k] never
    exceeds [d], and [k] has an entry only while some step is open or
    right after the count wrapped around. *)
Definition lock_inv (k : string) (d : nat) (p : cniNetworkPlugin) : Prop :=
  pods_wf p
  /\ match pod_refcount p k with
     | None => True
     | Some c =>
         (0 <= c <= Z.of_nat d)%Z /\ (c < Go.uint_modulus)%Z /\ (1 <= d)%nat
     end.


(** The configuration list a file yields, in the words of the
    specification: a file named [*.conflist] is read in the list format,
    any other file in the single-plugin format, which must declare a
    plugin type and is then wrapped into a list. *)
Definition file_confList (fs : libcni.FS) (confFile : string)
    : option libcni.NetworkConfigList :=
  if Go.HasSuffix confFile ".conflist" then
    match libcni.ConfListFromFile fs confFile with
    | Ok confList => Some confList
    | Err _ => None
    end
  else
    match libcni.ConfFromFile fs confFile with
    | Ok conf =>
        if String.eqb (libcni.Type_ (libcni.Network conf)) "" then None
        else
          match libcni.ConfListFromConf fs conf with
          | Ok confList => Some confList
          | Err _ => None
          end
    | Err _ => None
    end.

(** The network a file yields: its list must have a plugin, and a list
    without a name takes the base name of the file. *)
Definition network_of_file (p : cniNetworkPlugin) (fs : libcni.FS)
    (confFile : string) : option cniNetwork :=
  match file_confList fs confFile with
  | None => None
  | Some confList =>
      match libcni.Plugins confList with
      | [] => None
      | _ :: _ =>
          let confList :=
            if String.eqb (libcni.Name confList) ""
            then libcni.set_Name (Go.Base confFile) confList
            else confList in
          Some {| name := libcni.Name confList;
                  NetworkConfig := confList;
                  CNIConfig :=
                    {| libcni.Path :=
                         (cniDirs p ++
                          map (fun pl =>
                                 vendorCNIDir (vendorCNIDirPrefix p)
                                   (libcni.Type_ (libcni.Network pl)))
                              (libcni.Plugins confList))%list |} |}
      end
  end.

(** A file is usable when it yields a network. *)
Definition usable_file (fs : libcni.FS) (confFile : string) : bool :=
  match file_confList fs confFile with
  | Some confList =>
      match libcni.Plugins confList with [] => false | _ :: _ => true end
  | None => false
  end.

(** The usable files of the directory; none when it cannot be listed. *)
Definition usable_files (fs : libcni.FS) (dir : string) : list string :=
  match libcni.ConfFiles fs dir [".conf"; ".conflist"; ".json"] with
  | Ok files => filter (fun f => usable_file fs f = true) files
  | Err _ => []
  end.

(** A log message that reports the file [confFile] as skipped. *)
Definition warns_about (confFile : string) (m : log_msg) : Prop :=
  match m with
  | MsgLoadConfList f _ | MsgLoadConf f _ | MsgNoType f
  | MsgConvert f _ | MsgNoNetworks f => f = confFile
  | _ => False
  end.

(** The registry and the default name after the files [files] have been
    taken in that order, starting from [acc]. *)
Definition take_files (p : cniNetworkPlugin) (fs : libcni.FS)
    (files : list string) (acc : gmap string cniNetwork * string)
    : gmap string cniNetwork * string :=
  foldl
    (fun acc confFile =>
       match network_of_file p fs confFile with
       | Some net =>
           (<[name net := net]> (fst acc),
            if String.eqb (snd acc) "" then name net else snd acc)
       | None => acc
       end)
    acc files.

(** Reloading once for each state of the directory in [fss], whatever
    each reload returns. *)
Fixpoint resync_all (fss : list libcni.FS) : M unit :=
  match fss with
  | [] => ret tt
  | fs :: rest => let* _ := syncNetworkConfig fs in resync_all rest
  end.


(** The world [w] with the entries [lg] added to its log. *)
Definition add_logs (w : world) (lg : list log_entry) : world :=
  {| plugin := plugin w; history := history w; logs := logs w ++ lg |}.

(** The value [loadNetworks] returns for a directory listing. *)
Definition loaded (p : cniNetworkPlugin) (fs : libcni.FS)
    : result (gmap string cniNetwork * string) :=
  match libcni.ConfFiles fs (pluginDir p) [".conf"; ".conflist"; ".json"] with
  | Err err => Err err
  | Ok files =>
      if (length files =? 0)%nat then Err errMissingDefaultNetwork
      else
        let acc := take_files p fs (Go.sort_Strings files) (∅, "") in
        if (size (fst acc) =? 0)%nat
        then Err (errNoValidNetworks (pluginDir p))
        else Ok acc
  end.


(** The call each of the three closures passed to [forEachNetwork] makes
    for a network and an interface name. *)
Definition attach_call (podNetwork : PodNetwork) (network : cniNetwork)
    (ifName : string) : call :=
  CallAdd network (runtimeConf podNetwork ifName).

Definition detach_call (podNetwork : PodNetwork) (network : cniNetwork)
    (ifName : string) : call :=
  CallDel network (runtimeConf podNetwork ifName).

Definition details_call (p : cniNetworkPlugin) (podNetwork : PodNetwork)
    (_ : cniNetwork) (ifName : string) : call :=
  CallDetails (nsenterPath p) (NetNS podNetwork) ifName "-4".

(** The calls made for the networks [nets] taken in order, the first of
    them at position [i]. *)
Definition calls_for (mk : cniNetwork -> string -> call) (i : nat)
    (nets : list cniNetwork) : list call :=
  imap (fun j net => mk net (ifName_at (i + j))) nets.

(** What a closure adds to the variables it captured, for a call and the
    answer to it. *)
Definition collect_attach (results : list cnicurrent.Result) (_ : call)
    (a : answer) : list cnicurrent.Result :=
  match a with
  | AnsAdd (Ok result) => (results ++ [result])%list
  | _ => results
  end.

Definition collect_nothing (u : unit) (_ : call) (_ : answer) : unit := u.

Definition collect_status (podNetwork : PodNetwork)
    (results : list cnicurrent.Result) (c : call) (a : answer)
    : list cnicurrent.Result :=
  match c, a with
  | CallDetails _ _ ifName _, AnsDetails (Ok (ip, mac)) =>
      (results ++ [status_result podNetwork ifName ip mac])%list
  | _, _ => results
  end.

(** The captured variables after the calls [cs], made after [h]. *)
Fixpoint collected {A : Type} (upd : A -> call -> answer -> A)
    (h : list call) (cs : list call) (a : A) : A :=
  match cs with
  | [] => a
  | c :: cs' => collected upd (h ++ [c]) cs' (upd a c (answer_to h c))
  end.

(** A closure passed to [forEachNetwork] behaves like a call to the
    engine, as long as the plugin object is [p0]: on a network it can
    handle ([live]) it makes the call [mk] and returns the error of the
    answer, or updates its variables by [upd]; on any other network the
    process stops before the call. *)
Definition callback_spec {A : Type}
    (f : cniNetwork -> string -> PodNetwork -> A -> M (A * option error))
    (podNetwork : PodNetwork) (p0 : cniNetworkPlugin)
    (mk : cniNetwork -> string -> call)
    (upd : A -> call -> answer -> A)
    (live : cniNetwork -> Prop) : Prop :=
  forall net ifName a w,
    plugin w = p0 ->
    exists lg,
      (live net
       /\ f net ifName podNetwork a w
          = ({| plugin := plugin w;
                history := history w ++ [mk net ifName];
                logs := logs w ++ lg |},
             Returned
               (match answer_error (answer_to (history w) (mk net ifName)) with
                | Some e => (a, Some e)
                | None =>
                    (upd a (mk net ifName)
                       (answer_to (history w) (mk net ifName)), None)
                end)))
      \/ (~ live net
          /\ f net ifName podNetwork a w = (add_logs w lg, Fatal)).

(** The network has a plugin, so that [Plugins[0]] is defined. *)
Definition has_plugin (net : cniNetwork) : Prop :=
  libcni.Plugins (NetworkConfig net) <> [].

(** The plugin object [p'] differs from [p] in the lock table only. *)
Definition lock_only (p p' : cniNetworkPlugin) : Prop :=
  exists m h n, p' = set_pods m h n p.

(** The byte [c] occurs in [s]. *)
Definition contains_byte (c : ascii) (s : string) : bool :=
  existsb (Ascii.eqb c) (list_ascii_of_string s).


(** The files among [files] that yield a network named [k]. *)
Definition files_named (p : cniNetworkPlugin) (fs : libcni.FS) (k : string)
    (files : list string) : list string :=
  filter (fun f => name <$> network_of_file p fs f = Some k) files.





(** The invariant of the registry: every network it holds has a name
    that is not empty, is kept under that name, has that name as the name
    of its configuration, and has at least one plugin. *)
Definition registry_named (p : cniNetworkPlugin) : Prop :=
  forall k net,
    networks p !! k = Some net ->
    k <> "" /\ name net = k
    /\ libcni.Name (NetworkConfig net) = k
    /\ libcni.Plugins (NetworkConfig net) <> [].



(** ** Properties *)

(** *** Running the monad *)

Ltac run :=
  unfold bind, ret, get_plugin, put_plugin, logf, blocked, fatal,
    get_history, record_call, defer; simpl.

Ltac run_in H :=
  unfold bind, ret, get_plugin, put_plugin, logf, blocked, fatal,
    get_history, record_call, defer in H; simpl in H.

Lemma world_eta w :
  {| plugin := plugin w; history := history w; logs := logs w |} = w.
Proof. destruct w; reflexivity. Qed.

Lemma checkInitialized_run podNetwork w :
  checkInitialized podNetwork w =
    (w, Returned
          (if (length (Networks podNetwork) =? 0)%nat
              && negb (default_resolvable (plugin w))
           then Some errUninitialized else None)).
Proof.
  unfold checkInitialized, default_resolvable, getDefaultNetwork,
    getDefaultNetworkName, getNetwork.
  destruct (length (Networks podNetwork) =? 0)%nat; [|reflexivity].
  run. destruct (String.eqb (defaultNetName (plugin w)) ""); simpl;
    [reflexivity|].
  destruct (networks (plugin w) !! defaultNetName (plugin w)); reflexivity.
Qed.


(** *** The pod lock table *)

Lemma heap_set_eq h l v : heap_set h l v l = v.
Proof. unfold heap_set. by rewrite Nat.eqb_refl. Qed.

Lemma heap_set_ne h l l' v : l' <> l -> heap_set h l v l' = h l'.
Proof.
  unfold heap_set. intros Hne.
  destruct (Nat.eqb_spec l' l); [contradiction | reflexivity].
Qed.

Lemma uint_wrap_range z :
  (0 <= Go.uint_wrap z < Go.uint_modulus)%Z.
Proof. unfold Go.uint_wrap. apply Z.mod_pos_bound. reflexivity. Qed.

Lemma uint_wrap_small z :
  (0 <= z < Go.uint_modulus)%Z -> Go.uint_wrap z = z.
Proof. unfold Go.uint_wrap. apply Z.mod_small. Qed.

Lemma podLock_absent podNetwork w :
  pods (plugin w) !! buildFullPodName podNetwork = None ->
  podLock podNetwork w =
    ({| plugin :=
          set_pods
            (<[buildFullPodName podNetwork := nextLoc (plugin w)]>
               (pods (plugin w)))
            (heap_set
               (heap_set (podLocks (plugin w)) (nextLoc (plugin w))
                  podLock_zero)
               (nextLoc (plugin w)) {| refcount := 1; mu := false |})
            (S (nextLoc (plugin w))) (plugin w);
        history := history w; logs := logs w |},
     Returned (nextLoc (plugin w))).
Proof.
  intros Habs. unfold podLock. run. rewrite Habs. run.
  rewrite heap_set_eq. reflexivity.
Qed.

Lemma podLock_present podNetwork w l :
  pods (plugin w) !! buildFullPodName podNetwork = Some l ->
  podLock podNetwork w =
    ({| plugin :=
          set_pods (pods (plugin w))
            (heap_set (podLocks (plugin w)) l
               {| refcount :=
                    Go.uint_wrap (refcount (podLocks (plugin w) l) + 1);
                  mu := mu (podLocks (plugin w) l) |})
            (nextLoc (plugin w)) (plugin w);
        history := history w; logs := logs w |},
     Returned l).
Proof.
  intros Hin. unfold podLock. run. rewrite Hin. run. reflexivity.
Qed.

Lemma podUnlock_unknown podNetwork w :
  pods (plugin w) !! buildFullPodName podNetwork = None ->
  podUnlock podNetwork w =
    ({| plugin := plugin w; history := history w;
        logs := logs w ++
                [(Warning, MsgUnbalancedUnref (buildFullPodName podNetwork))] |},
     Returned tt).
Proof.
  intros Habs. unfold podUnlock. run. rewrite Habs. reflexivity.
Qed.

Lemma podUnlock_zero podNetwork w l :
  pods (plugin w) !! buildFullPodName podNetwork = Some l ->
  refcount (podLocks (plugin w) l) = 0%Z ->
  podUnlock podNetwork w =
    ({| plugin :=
          set_pods (delete (buildFullPodName podNetwork) (pods (plugin w)))
            (podLocks (plugin w)) (nextLoc (plugin w)) (plugin w);
        history := history w;
        logs := logs w ++
                [(Error, MsgZeroRefcount (buildFullPodName podNetwork))] |},
     Returned tt).
Proof.
  intros Hin Hz. unfold podUnlock. run. rewrite Hin, Hz. reflexivity.
Qed.

(** The ordinary path of [podUnlock]: the count is not zero.  The mutex
    must be held, or the runtime stops the process. *)
Lemma podUnlock_held podNetwork w l :
  pods (plugin w) !! buildFullPodName podNetwork = Some l ->
  refcount (podLocks (plugin w) l) <> 0%Z ->
  mu (podLocks (plugin w) l) = true ->
  podUnlock podNetwork w =
    (let rc := Go.uint_wrap (refcount (podLocks (plugin w) l) - 1) in
     let h := heap_set
                (heap_set (podLocks (plugin w)) l {| refcount := rc; mu := true |})
                l {| refcount := rc; mu := false |} in
     {| plugin :=
          set_pods
            (if (rc =? 0)%Z
             then delete (buildFullPodName podNetwork) (pods (plugin w))
             else pods (plugin w))
            h (nextLoc (plugin w)) (plugin w);
        history := history w; logs := logs w |},
     Returned tt).
Proof.
  intros Hin Hnz Hmu. unfold podUnlock, Mutex_Unlock. run. rewrite Hin.
  destruct (Z.eqb_spec (refcount (podLocks (plugin w) l)) 0);
    [contradiction|].
  run. rewrite heap_set_eq. simpl. rewrite Hmu. simpl.
  destruct (Go.uint_wrap (refcount (podLocks (plugin w) l) - 1) =? 0)%Z;
    reflexivity.
Qed.

Lemma podUnlock_not_held podNetwork w l :
  pods (plugin w) !! buildFullPodName podNetwork = Some l ->
  refcount (podLocks (plugin w) l) <> 0%Z ->
  mu (podLocks (plugin w) l) = false ->
  snd (podUnlock podNetwork w) = Fatal.
Proof.
  intros Hin Hnz Hmu. unfold podUnlock, Mutex_Unlock. run. rewrite Hin.
  destruct (Z.eqb_spec (refcount (podLocks (plugin w) l)) 0);
    [contradiction|].
  run. rewrite heap_set_eq. simpl. rewrite Hmu. reflexivity.
Qed.

Lemma Mutex_Lock_free l w :
  mu (podLocks (plugin w) l) = false ->
  Mutex_Lock l w =
    ({| plugin :=
          set_pods (pods (plugin w))
            (heap_set (podLocks (plugin w)) l
               {| refcount := refcount (podLocks (plugin w) l); mu := true |})
            (nextLoc (plugin w)) (plugin w);
        history := history w; logs := logs w |},
     Returned tt).
Proof. intros Hmu. unfold Mutex_Lock. run. rewrite Hmu. reflexivity. Qed.

Lemma Mutex_Lock_held l w :
  mu (podLocks (plugin w) l) = true -> Mutex_Lock l w = (w, Blocked).
Proof. intros Hmu. unfold Mutex_Lock. run. rewrite Hmu. reflexivity. Qed.


Lemma pod_refcount_set_pods m h n p k :
  pod_refcount (set_pods m h n p) k =
    match m !! k with
    | Some l => Some (refcount (h l))
    | None => None
    end.
Proof. reflexivity. Qed.

Lemma podUnlock_cases podNetwork w w' :
  podUnlock podNetwork w = (w', Returned tt) ->
  let k := buildFullPodName podNetwork in
  let p := plugin w in
  (pods p !! k = None
   /\ w' = {| plugin := p; history := history w;
              logs := logs w ++ [(Warning, MsgUnbalancedUnref k)] |})
  \/ (exists l, pods p !! k = Some l /\ refcount (podLocks p l) = 0%Z
      /\ w' = {| plugin :=
                   set_pods (delete k (pods p)) (podLocks p) (nextLoc p) p;
                 history := history w;
                 logs := logs w ++ [(Error, MsgZeroRefcount k)] |})
  \/ (exists l, pods p !! k = Some l /\ refcount (podLocks p l) <> 0%Z
      /\ mu (podLocks p l) = true
      /\ let rc := Go.uint_wrap (refcount (podLocks p l) - 1) in
         w' =
           {| plugin :=
                set_pods (if (rc =? 0)%Z then delete k (pods p) else pods p)
                  (heap_set
                     (heap_set (podLocks p) l {| refcount := rc; mu := true |})
                     l {| refcount := rc; mu := false |})
                  (nextLoc p) p;
              history := history w; logs := logs w |}).
Proof.
  intros Hrun k p. subst k p.
  destruct (pods (plugin w) !! buildFullPodName podNetwork) as [l|] eqn:Hin.
  - destruct (Z.eq_dec (refcount (podLocks (plugin w) l)) 0%Z) as [Hz|Hnz].
    + right; left. exists l. rewrite (podUnlock_zero _ _ _ Hin Hz) in Hrun.
      inversion Hrun; subst; simpl. auto.
    + destruct (mu (podLocks (plugin w) l)) eqn:Hmu.
      * right; right. exists l.
        rewrite (podUnlock_held _ _ _ Hin Hnz Hmu) in Hrun.
        inversion Hrun; subst; simpl. auto.
      * pose proof (podUnlock_not_held _ _ _ Hin Hnz Hmu) as Hf.
        rewrite Hrun in Hf. discriminate.
  - left. rewrite (podUnlock_unknown _ _ Hin) in Hrun.
    inversion Hrun; subst; simpl. auto.
Qed.

Lemma podLock_returns podNetwork w :
  exists w' l, podLock podNetwork w = (w', Returned l).
Proof.
  destruct (pods (plugin w) !! buildFullPodName podNetwork) as [l|] eqn:Hin.
  - rewrite (podLock_present _ _ _ Hin). eauto.
  - rewrite (podLock_absent _ _ Hin). eauto.
Qed.

Lemma lock_inv_podLock k d podNetwork w w' l :
  lock_inv k d (plugin w) ->
  podLock podNetwork w = (w', Returned l) ->
  lock_inv k
    (if String.eqb (buildFullPodName podNetwork) k then S d else d)
    (plugin w').
Proof.
  intros [[Hlt Hinj] Hk] Hrun.
  destruct (pods (plugin w) !! buildFullPodName podNetwork) as [l0|] eqn:Hin.
  - rewrite (podLock_present _ _ _ Hin) in Hrun.
    inversion Hrun; subst; clear Hrun. simpl.
    split; [split; simpl; eauto|].
    rewrite pod_refcount_set_pods. unfold pod_refcount in Hk.
    destruct (String.eqb_spec (buildFullPodName podNetwork) k) as [<-|Hne].
    + rewrite Hin in *. rewrite heap_set_eq. simpl.
      destruct Hk as (Hc & Hm & Hd).
      pose proof (uint_wrap_range (refcount (podLocks (plugin w) l) + 1)).
      assert (Go.uint_wrap (refcount (podLocks (plugin w) l) + 1)
              <= refcount (podLocks (plugin w) l) + 1)%Z
        by (apply Z.mod_le; [lia | reflexivity]).
      lia.
    + destruct (pods (plugin w) !! k) as [lk|] eqn:Hlk; [|exact I].
      rewrite heap_set_ne; [exact Hk|].
      intros ->. apply Hne. eapply Hinj; eauto.
  - rewrite (podLock_absent _ _ Hin) in Hrun.
    inversion Hrun; subst; clear Hrun. simpl.
    split.
    + split; simpl.
      * intros k0 l0. rewrite lookup_insert.
        case_decide; [intros [= <-]; lia|].
        intros Hl. apply Hlt in Hl. lia.
      * intros k1 k2 l0. rewrite !lookup_insert.
        repeat case_decide; subst; try congruence.
        -- intros [= <-] Hl. apply Hlt in Hl. lia.
        -- intros Hl [= <-]. apply Hlt in Hl. lia.
        -- eauto.
    + rewrite pod_refcount_set_pods. unfold pod_refcount in Hk.
      destruct (String.eqb_spec (buildFullPodName podNetwork) k) as [<-|Hne].
      * rewrite lookup_insert_eq, heap_set_eq. simpl.
        unfold Go.uint_modulus. lia.
      * rewrite lookup_insert_ne by exact Hne.
        destruct (pods (plugin w) !! k) as [lk|] eqn:Hlk; [|exact I].
        rewrite !heap_set_ne; [exact Hk| |];
          apply Hlt in Hlk; lia.
Qed.

Lemma lock_inv_Mutex_Lock k d l w w' :
  lock_inv k d (plugin w) ->
  Mutex_Lock l w = (w', Returned tt) ->
  lock_inv k d (plugin w').
Proof.
  intros [[Hlt Hinj] Hk] Hrun.
  destruct (mu (podLocks (plugin w) l)) eqn:Hmu.
  - rewrite (Mutex_Lock_held _ _ Hmu) in Hrun. discriminate.
  - rewrite (Mutex_Lock_free _ _ Hmu) in Hrun.
    inversion Hrun; subst; clear Hrun. simpl.
    split; [split; simpl; eauto|].
    rewrite pod_refcount_set_pods. unfold pod_refcount in Hk.
    destruct (pods (plugin w) !! k) as [lk|]; [|exact I].
    destruct (Nat.eq_dec lk l) as [->|Hne].
    + rewrite heap_set_eq. exact Hk.
    + rewrite heap_set_ne by exact Hne. exact Hk.
Qed.

Lemma lock_inv_podUnlock_other k d podNetwork w w' :
  buildFullPodName podNetwork <> k ->
  lock_inv k d (plugin w) ->
  podUnlock podNetwork w = (w', Returned tt) ->
  lock_inv k d (plugin w').
Proof.
  intros Hne [[Hlt Hinj] Hk] Hrun.
  apply podUnlock_cases in Hrun. simpl in Hrun.
  destruct Hrun as [[_ ->] | [(l & Hin & _ & ->) | (l & Hin & _ & _ & ->)]];
    simpl.
  - split; [split|]; assumption.
  - split.
    + split; simpl.
      * intros k0 l0 Hl. apply lookup_delete_Some in Hl as [_ Hl]. eauto.
      * intros k1 k2 l0 H1 H2.
        apply lookup_delete_Some in H1 as [_ H1].
        apply lookup_delete_Some in H2 as [_ H2]. eauto.
    + rewrite pod_refcount_set_pods. unfold pod_refcount in Hk.
      rewrite lookup_delete_ne by exact Hne. exact Hk.
  - assert (Hk' :
      match pods (plugin w) !! k with
      | Some l0 =>
          Some (refcount
                  (heap_set
                     (heap_set (podLocks (plugin w)) l
                        {| refcount :=
                             Go.uint_wrap (refcount (podLocks (plugin w) l) - 1);
                           mu := true |})
                     l
                     {| refcount :=
                          Go.uint_wrap (refcount (podLocks (plugin w) l) - 1);
                        mu := false |} l0))
      | None => None
      end = pod_refcount (plugin w) k).
    { unfold pod_refcount.
      destruct (pods (plugin w) !! k) as [lk|] eqn:Hlk; [|reflexivity].
      rewrite !heap_set_ne; [reflexivity| |];
        intros ->; apply Hne; eapply Hinj; eauto. }
    split.
    + split; simpl;
        destruct (Go.uint_wrap (refcount (podLocks (plugin w) l) - 1) =? 0)%Z.
      * intros k0 l0 Hl. apply lookup_delete_Some in Hl as [_ Hl]. eauto.
      * eauto.
      * intros k1 k2 l0 H1 H2.
        apply lookup_delete_Some in H1 as [_ H1].
        apply lookup_delete_Some in H2 as [_ H2]. eauto.
      * eauto.
    + rewrite pod_refcount_set_pods.
      destruct (Go.uint_wrap (refcount (podLocks (plugin w) l) - 1) =? 0)%Z.
      * rewrite lookup_delete_ne by exact Hne. rewrite Hk'. exact Hk.
      * rewrite Hk'. exact Hk.
Qed.

Lemma lock_inv_podUnlock_same k d podNetwork w w' :
  buildFullPodName podNetwork = k ->
  lock_inv k (S d) (plugin w) ->
  podUnlock podNetwork w = (w', Returned tt) ->
  lock_inv k d (plugin w').
Proof.
  intros <- [[Hlt Hinj] Hk] Hrun.
  apply podUnlock_cases in Hrun. simpl in Hrun.
  destruct Hrun as [[Habs ->] | [(l & Hin & _ & ->) | (l & Hin & Hnz & _ & ->)]];
    simpl.
  - split; [split; assumption|].
    unfold pod_refcount. rewrite Habs. exact I.
  - split.
    + split; simpl.
      * intros k0 l0 Hl. apply lookup_delete_Some in Hl as [_ Hl]. eauto.
      * intros k1 k2 l0 H1 H2.
        apply lookup_delete_Some in H1 as [_ H1].
        apply lookup_delete_Some in H2 as [_ H2]. eauto.
    + rewrite pod_refcount_set_pods, lookup_delete_eq. exact I.
  - unfold pod_refcount in Hk. rewrite Hin in Hk.
    destruct Hk as (Hc & Hm & Hd).
    assert (Hw : Go.uint_wrap (refcount (podLocks (plugin w) l) - 1)
                 = (refcount (podLocks (plugin w) l) - 1)%Z)
      by (apply uint_wrap_small; lia).
    rewrite Hw.
    destruct (Z.eqb_spec (refcount (podLocks (plugin w) l) - 1) 0) as [Hz|Hz].
    + split.
      * split; simpl.
        -- intros k0 l0 Hl. apply lookup_delete_Some in Hl as [_ Hl]. eauto.
        -- intros k1 k2 l0 H1 H2.
           apply lookup_delete_Some in H1 as [_ H1].
           apply lookup_delete_Some in H2 as [_ H2]. eauto.
      * rewrite pod_refcount_set_pods, lookup_delete_eq. exact I.
    + split; [split; simpl; eauto|].
      rewrite pod_refcount_set_pods, Hin, heap_set_eq. simpl. lia.
Qed.

(** Along a sequence of steps that runs to its end, a balanced
    remainder leaves no entry for the key. *)
Lemma run_lock_ops_balanced k ops :
  forall d w w',
    lock_inv k d (plugin w) ->
    balanced_from k d ops = true ->
    run_lock_ops ops w = (w', Returned tt) ->
    pods (plugin w') !! k = None.
Proof.
  induction ops as [|op ops IH]; intros d w w' Hinv Hbal Hrun.
  - simpl in Hbal, Hrun. apply Nat.eqb_eq in Hbal as ->.
    inversion Hrun; subst; clear Hrun.
    destruct Hinv as [_ Hk]. unfold pod_refcount in Hk.
    destruct (pods (plugin w') !! k); [lia | reflexivity].
  - destruct op as [podNetwork | l | podNetwork]; simpl in Hbal, Hrun.
    + destruct (podLock_returns podNetwork w) as (w1 & l & Hl).
      unfold bind in Hrun. rewrite Hl in Hrun.
      pose proof (lock_inv_podLock _ _ _ _ _ _ Hinv Hl) as Hinv1.
      destruct (String.eqb (buildFullPodName podNetwork) k); eauto.
    + unfold bind in Hrun.
      destruct (Mutex_Lock l w) as [w1 [[]| |]] eqn:Hl; try discriminate.
      eapply IH; [eapply lock_inv_Mutex_Lock; eauto | eauto | eauto].
    + unfold bind in Hrun.
      destruct (podUnlock podNetwork w) as [w1 [[]| |]] eqn:Hu;
        try discriminate.
      destruct (String.eqb_spec (buildFullPodName podNetwork) k) as [He|Hne].
      * destruct d as [|d]; [discriminate|].
        eapply IH; [eapply lock_inv_podUnlock_same; eauto | eauto | eauto].
      * eapply IH; [eapply lock_inv_podUnlock_other; eauto | eauto | eauto].
Qed.


(** C8.  The pod lock table.  For every key [k] and every sequence of
    steps that is balanced for [k], run to its end from a table without
    an entry for [k], the table has no entry for [k] afterwards.  Besides:
    [podLock] creates the entry when it is missing and adds one to its
    count, [podUnlock] takes one off, releases the mutex and deletes the
    entry when the count reaches zero, [podUnlock] of a key without entry
    logs a warning and
    changes nothing else, and [podUnlock] of an entry whose count is
    already zero logs an error and deletes the entry. *)
Theorem pod_lock_table_balanced (k : string) (ops : list lock_op)
    (w w' : world) :
  pods_wf (plugin w) ->
  pods (plugin w) !! k = None ->
  balanced k ops = true ->
  run_lock_ops ops w = (w', Returned tt) ->
  pods (plugin w') !! k = None
  /\ (forall podNetwork w0,
        exists w1 l,
          podLock podNetwork w0 = (w1, Returned l)
          /\ pods (plugin w1) !! buildFullPodName podNetwork = Some l
          /\ pod_refcount (plugin w1) (buildFullPodName podNetwork)
             = Some (Go.uint_wrap
                       (default 0%Z
                          (pod_refcount (plugin w0)
                             (buildFullPodName podNetwork)) + 1))
          /\ logs w1 = logs w0)
  /\ (forall podNetwork w0 l,
        pods (plugin w0) !! buildFullPodName podNetwork = Some l ->
        refcount (podLocks (plugin w0) l) <> 0%Z ->
        mu (podLocks (plugin w0) l) = true ->
        exists w1,
          podUnlock podNetwork w0 = (w1, Returned tt)
          /\ pod_refcount (plugin w1) (buildFullPodName podNetwork)
             = (let c := Go.uint_wrap (refcount (podLocks (plugin w0) l) - 1) in
                if (c =? 0)%Z then None else Some c)
          /\ mu (podLocks (plugin w1) l) = false
          /\ logs w1 = logs w0)
  /\ (forall podNetwork w0,
        pods (plugin w0) !! buildFullPodName podNetwork = None ->
        podUnlock podNetwork w0 =
          ({| plugin := plugin w0; history := history w0;
              logs := logs w0 ++
                      [(Warning,
                        MsgUnbalancedUnref (buildFullPodName podNetwork))] |},
           Returned tt))
  /\ (forall podNetwork w0,
        pod_refcount (plugin w0) (buildFullPodName podNetwork) = Some 0%Z ->
        exists w1,
          podUnlock podNetwork w0 = (w1, Returned tt)
          /\ pods (plugin w1)
             = delete (buildFullPodName podNetwork) (pods (plugin w0))
          /\ logs w1 = (logs w0 ++
                        [(Error,
                          MsgZeroRefcount (buildFullPodName podNetwork))])%list).
Proof.
  intros Hwf Habs Hbal Hrun.
  split; [|split; [|split; [|split]]].
  - eapply run_lock_ops_balanced; eauto.
    split; [exact Hwf|]. unfold pod_refcount. rewrite Habs. exact I.
  - intros podNetwork w0. unfold pod_refcount.
    destruct (pods (plugin w0) !! buildFullPodName podNetwork) as [l|] eqn:Hin.
    + rewrite (podLock_present _ _ _ Hin).
      eexists _, l. split; [reflexivity|]. simpl.
      rewrite Hin, heap_set_eq. auto.
    + rewrite (podLock_absent _ _ Hin).
      eexists _, _. split; [reflexivity|]. simpl.
      rewrite lookup_insert_eq, heap_set_eq. auto.
  - intros podNetwork w0 l Hin Hnz Hmu.
    rewrite (podUnlock_held _ _ _ Hin Hnz Hmu).
    eexists. split; [reflexivity|]. simpl.
    rewrite pod_refcount_set_pods, heap_set_eq. simpl.
    split; [|auto].
    destruct (Go.uint_wrap (refcount (podLocks (plugin w0) l) - 1) =? 0)%Z.
    + by rewrite lookup_delete_eq.
    + by rewrite Hin, heap_set_eq.
  - intros podNetwork w0 Hin. apply podUnlock_unknown; exact Hin.
  - intros podNetwork w0 Hc. unfold pod_refcount in Hc.
    destruct (pods (plugin w0) !! buildFullPodName podNetwork) as [l|] eqn:Hin;
      [|discriminate].
    injection Hc as Hz.
    rewrite (podUnlock_zero _ _ _ Hin Hz). eexists. split; [reflexivity|].
    simpl. auto.
Qed.


(** *** Loading the directory *)

Lemma add_logs_nil w : add_logs w [] = w.
Proof. unfold add_logs. rewrite app_nil_r. apply world_eta. Qed.

Lemma add_logs_app w lg1 lg2 :
  add_logs (add_logs w lg1) lg2 = add_logs w (lg1 ++ lg2).
Proof. unfold add_logs. simpl. by rewrite app_assoc. Qed.

Lemma usable_file_network p fs confFile :
  usable_file fs confFile = true <-> is_Some (network_of_file p fs confFile).
Proof.
  unfold usable_file, network_of_file.
  destruct (file_confList fs confFile) as [confList|].
  - destruct (libcni.Plugins confList); split; intros H;
      try discriminate; try (by destruct H); eauto.
  - split; [discriminate | by intros []].
Qed.

Lemma loadNetworks_read_run fs confFile w :
  exists lg,
    loadNetworks_read fs confFile w
    = (add_logs w lg, Returned (file_confList fs confFile))
    /\ match file_confList fs confFile with
       | Some _ => lg = []
       | None => exists m, lg = [(Warning, m)] /\ warns_about confFile m
       end.
Proof.
  unfold loadNetworks_read, file_confList.
  destruct (Go.HasSuffix confFile ".conflist").
  - destruct (libcni.ConfListFromFile fs confFile) as [confList|err].
    + exists []. rewrite add_logs_nil. auto.
    + eexists. split; [reflexivity|]. eexists; split; [reflexivity|].
      reflexivity.
  - destruct (libcni.ConfFromFile fs confFile) as [conf|err].
    + destruct (String.eqb (libcni.Type_ (libcni.Network conf)) "").
      * eexists. split; [reflexivity|]. eexists; split; reflexivity.
      * destruct (libcni.ConfListFromConf fs conf) as [confList|err].
        -- exists []. rewrite add_logs_nil. auto.
        -- eexists. split; [reflexivity|]. eexists; split; reflexivity.
    + eexists. split; [reflexivity|]. eexists; split; reflexivity.
Qed.

Lemma foldl_snoc_map {A B} (f : A -> B) (l : list A) (acc : list B) :
  foldl (fun path a => (path ++ [f a])%list) acc l = (acc ++ map f l)%list.
Proof.
  revert acc. induction l as [|a l IH]; intros acc; simpl.
  - by rewrite app_nil_r.
  - rewrite IH. by rewrite <- app_assoc.
Qed.

Lemma loadNetworks_body_run fs confFile acc w :
  exists lg,
    loadNetworks_body fs confFile acc w
    = (add_logs w lg, Returned (take_files (plugin w) fs [confFile] acc))
    /\ match network_of_file (plugin w) fs confFile with
       | Some net => forall m, (Warning, m) ∉ lg
       | None => exists m, lg = [(Warning, m)] /\ warns_about confFile m
       end.
Proof.
  destruct acc as [nets d].
  destruct (loadNetworks_read_run fs confFile w) as (lg & Hrun & Hlg).
  unfold loadNetworks_body, take_files, network_of_file. simpl.
  unfold bind at 1. rewrite Hrun.
  destruct (file_confList fs confFile) as [confList|].
  - subst lg. rewrite add_logs_nil.
    destruct (libcni.Plugins confList) as [|plugin0 rest] eqn:Hpl.
    + eexists. split; [reflexivity|]. eexists; split; reflexivity.
    + eexists. split.
      * run. unfold add_logs. rewrite foldl_snoc_map. reflexivity.
      * intros m Hin. apply list_elem_of_singleton in Hin. discriminate.
  - destruct Hlg as (m & -> & Hm). exists [(Warning, m)].
    split; [reflexivity|]. eauto.
Qed.

Lemma take_files_cons p fs confFile files acc :
  take_files p fs (confFile :: files) acc
  = take_files p fs files (take_files p fs [confFile] acc).
Proof. reflexivity. Qed.

Lemma loadNetworks_loop_run fs files :
  forall acc w,
    exists lg,
      loadNetworks_loop fs files acc w
      = (add_logs w lg, Returned (take_files (plugin w) fs files acc))
      /\ (forall f, f ∈ files -> usable_file fs f = false ->
            exists m, (Warning, m) ∈ lg /\ warns_about f m).
Proof.
  induction files as [|confFile files IH]; intros acc w.
  - exists []. rewrite add_logs_nil. split; [reflexivity|].
    intros f Hf. by apply elem_of_nil in Hf.
  - destruct (loadNetworks_body_run fs confFile acc w) as (lg1 & Hb & Hlg1).
    destruct (IH (take_files (plugin w) fs [confFile] acc) (add_logs w lg1))
      as (lg2 & Hl & Hlg2).
    exists (lg1 ++ lg2)%list. split.
    + simpl. unfold bind at 1. rewrite Hb, Hl, add_logs_app. reflexivity.
    + intros f Hf Hu. apply elem_of_cons in Hf as [->|Hf].
      * destruct (network_of_file (plugin w) fs confFile) as [net|] eqn:Hn.
        -- assert (usable_file fs confFile = true) as Ht
             by (apply (usable_file_network (plugin w)); rewrite Hn; eauto).
           congruence.
        -- destruct Hlg1 as (m & -> & Hm). exists m. split; [|exact Hm].
           apply elem_of_app. left. apply list_elem_of_singleton. reflexivity.
      * destruct (Hlg2 f Hf Hu) as (m & Hin & Hm). exists m.
        split; [|exact Hm]. apply elem_of_app. by right.
Qed.

Lemma loadNetworks_run fs w :
  exists lg,
    loadNetworks fs w = (add_logs w lg, Returned (loaded (plugin w) fs))
    /\ (forall files f,
          libcni.ConfFiles fs (pluginDir (plugin w))
            [".conf"; ".conflist"; ".json"] = Ok files ->
          f ∈ files -> usable_file fs f = false ->
          exists m, (Warning, m) ∈ lg /\ warns_about f m).
Proof.
  unfold loadNetworks, loaded. run.
  destruct (libcni.ConfFiles fs (pluginDir (plugin w))
              [".conf"; ".conflist"; ".json"]) as [files|err] eqn:Hfiles.
  - destruct (length files =? 0)%nat eqn:Hlen.
    + exists []. rewrite add_logs_nil. split; [reflexivity|].
      intros files' f [= <-] Hf. apply Nat.eqb_eq in Hlen.
      destruct files; [by apply elem_of_nil in Hf | discriminate].
    + destruct (loadNetworks_loop_run fs (Go.sort_Strings files) (∅, "") w)
        as (lg & Hl & Hlg).
      exists lg. rewrite Hl. split.
      * destruct (take_files (plugin w) fs (Go.sort_Strings files) (∅, ""))
          as [nets d]. simpl.
        destruct (size nets =? 0)%nat; reflexivity.
      * intros files' f [= <-] Hf. apply Hlg.
        unfold Go.sort_Strings. by rewrite merge_sort_Permutation.
  - exists []. rewrite add_logs_nil. split; [reflexivity|].
    intros files f Hf. discriminate.
Qed.


Lemma take_files_empty p fs files :
  forall acc,
    fst (take_files p fs files acc) = ∅
    <-> fst acc = ∅ /\ Forall (fun f => usable_file fs f = false) files.
Proof.
  induction files as [|f files IH]; intros acc.
  - simpl. split; [intros H; split; [exact H | constructor] | by intros [H _]].
  - rewrite take_files_cons, IH. unfold take_files at 1. simpl.
    pose proof (usable_file_network p fs f) as Hu.
    destruct (network_of_file p fs f) as [net|]; simpl.
    + split.
      * intros [Hins _]. by apply insert_non_empty in Hins.
      * intros [_ Hall]. apply Forall_cons in Hall as [Hf _].
        assert (usable_file fs f = true) by (apply Hu; eauto). congruence.
    + split.
      * intros [He Hall]. split; [exact He|]. constructor; [|exact Hall].
        destruct (usable_file fs f); [|reflexivity].
        destruct Hu as [Hu _]. by destruct (Hu eq_refl).
      * intros [He Hall]. apply Forall_cons in Hall as [_ Hall]. auto.
Qed.

Lemma take_files_mono p fs files :
  forall acc k,
    is_Some (fst acc !! k) -> is_Some (fst (take_files p fs files acc) !! k).
Proof.
  induction files as [|f files IH]; intros acc k Hk; [exact Hk|].
  rewrite take_files_cons. apply IH. unfold take_files. simpl.
  destruct (network_of_file p fs f) as [net|]; [|exact Hk]. simpl.
  rewrite lookup_insert. case_decide; eauto.
Qed.

Lemma take_files_member p fs files :
  forall acc f net,
    f ∈ files -> network_of_file p fs f = Some net ->
    is_Some (fst (take_files p fs files acc) !! name net).
Proof.
  induction files as [|f0 files IH]; intros acc f net Hf Hn.
  - by apply elem_of_nil in Hf.
  - rewrite take_files_cons. apply elem_of_cons in Hf as [->|Hf].
    + apply take_files_mono. unfold take_files. simpl. rewrite Hn. simpl.
      rewrite lookup_insert_eq. eauto.
    + eapply IH; eauto.
Qed.

Lemma filter_nil_Forall {A} (P : A -> Prop) `{!forall x, Decision (P x)}
    (l : list A) :
  filter P l = [] <-> Forall (fun x => ~ P x) l.
Proof.
  induction l as [|a l IH]; simpl.
  - split; [constructor | reflexivity].
  - rewrite filter_cons. destruct (decide (P a)) as [Ha|Ha].
    + split; [discriminate|]. intros Hall.
      apply Forall_cons in Hall as [Hna _]. contradiction.
    + rewrite IH. split; [by constructor | intros Hall].
      by apply Forall_cons in Hall as [_ Hall].
Qed.

(** C6.  A load returns an error exactly when the directory yields no
    usable network: it cannot be listed, it lists no file, or every listed
    file is rejected.  The error is then the listing error, "Missing CNI
    default network" or "No valid networks found".  A rejected file is
    reported by a warning; it does not make the load fail, and it does not
    keep the network of a usable file out of the registry. *)
Theorem load_fails_iff_no_usable_network (fs : libcni.FS) (w : world) :
  exists lg r,
    loadNetworks fs w = (add_logs w lg, Returned r)
    /\ (is_Err r = true <-> usable_files fs (pluginDir (plugin w)) = [])
    /\ (forall e, r = Err e ->
          libcni.ConfFiles fs (pluginDir (plugin w))
            [".conf"; ".conflist"; ".json"] = Err e
          \/ e = errMissingDefaultNetwork
          \/ e = errNoValidNetworks (pluginDir (plugin w)))
    /\ (forall files f,
          libcni.ConfFiles fs (pluginDir (plugin w))
            [".conf"; ".conflist"; ".json"] = Ok files ->
          f ∈ files -> usable_file fs f = false ->
          exists m, (Warning, m) ∈ lg /\ warns_about f m)
    /\ (forall files f,
          libcni.ConfFiles fs (pluginDir (plugin w))
            [".conf"; ".conflist"; ".json"] = Ok files ->
          f ∈ files -> usable_file fs f = true ->
          exists nets d net,
            r = Ok (nets, d)
            /\ network_of_file (plugin w) fs f = Some net
            /\ is_Some (nets !! name net)).
Proof.
  destruct (loadNetworks_run fs w) as (lg & Hrun & Hlg).
  exists lg, (loaded (plugin w) fs). split; [exact Hrun|].
  unfold loaded, usable_files.
  destruct (libcni.ConfFiles fs (pluginDir (plugin w))
              [".conf"; ".conflist"; ".json"]) as [files|err] eqn:Hfiles.
  - assert (Hperm : Go.sort_Strings files ≡ₚ files)
      by apply merge_sort_Permutation.
    pose proof (take_files_empty (plugin w) fs (Go.sort_Strings files) (∅, ""))
      as Hempty.
    destruct (length files =? 0)%nat eqn:Hlen.
    + apply Nat.eqb_eq in Hlen. destruct files; [|discriminate].
      repeat split; auto.
      * intros e [= <-]. auto.
      * intros files f [= <-] Hf. by apply elem_of_nil in Hf.
    + destruct (take_files (plugin w) fs (Go.sort_Strings files) (∅, ""))
        as [nets d] eqn:Htake. simpl in *.
      assert (Hsize : (size nets =? 0)%nat = true
                      <-> Forall (fun f => usable_file fs f = false) files).
      { assert (Hfp :
          Forall (fun f => usable_file fs f = false) (Go.sort_Strings files)
          <-> Forall (fun f => usable_file fs f = false) files)
          by (by rewrite Hperm).
        rewrite Nat.eqb_eq, map_size_empty_iff, Hempty, Hfp. tauto. }
      assert (Hfilter :
        filter (fun f => usable_file fs f = true) files = []
        <-> Forall (fun f => usable_file fs f = false) files).
      { rewrite filter_nil_Forall. apply Forall_proper; [|reflexivity].
        intros f. destruct (usable_file fs f); split; congruence. }
      destruct (size nets =? 0)%nat eqn:Hsz.
      * repeat split; auto.
        -- intros _. apply Hfilter, Hsize. reflexivity.
        -- intros e [= <-]. auto.
        -- intros files' f [= <-] Hf Hu.
           assert (Hall : Forall (fun f => usable_file fs f = false) files)
             by (apply Hsize; reflexivity).
           rewrite Forall_forall in Hall. specialize (Hall f Hf). congruence.
      * repeat split; auto.
        -- discriminate.
        -- intros Hnil. apply Hfilter, Hsize in Hnil. discriminate.
        -- intros e [=].
        -- intros files' f [= <-] Hf Hu.
           apply (usable_file_network (plugin w)) in Hu as [net Hn].
           exists nets, d, net. repeat split; auto.
           change nets with (fst (nets, d)). rewrite <- Htake.
           eapply take_files_member; [|exact Hn]. by rewrite Hperm.
  - repeat split; auto; try (intros files f [=]).
    intros e [= <-]. left. reflexivity.
Qed.


(** *** The default network name *)

Lemma Base_nonempty path : Go.Base path <> "".
Proof.
  unfold Go.Base. destruct (String.eqb path ""); [discriminate|].
  destruct (Go.take_element _) as [|c elem]; [discriminate|].
  simpl. destruct (rev elem ++ [c])%list as [|c' l'] eqn:Hrev.
  - by apply app_nil in Hrev as [_ ?].
  - discriminate.
Qed.

Lemma network_of_file_name p fs confFile net :
  network_of_file p fs confFile = Some net ->
  name net <> ""
  /\ libcni.Name (NetworkConfig net) = name net
  /\ libcni.Plugins (NetworkConfig net) <> []
  /\ (forall confList,
        file_confList fs confFile = Some confList ->
        name net = if String.eqb (libcni.Name confList) ""
                   then Go.Base confFile else libcni.Name confList).
Proof.
  unfold network_of_file.
  destruct (file_confList fs confFile) as [confList|]; [|discriminate].
  destruct (libcni.Plugins confList) as [|pl rest] eqn:Hpl; [discriminate|].
  intros [= <-]. simpl.
  destruct (String.eqb_spec (libcni.Name confList) "") as [He|Hne]; simpl.
  - repeat split; auto using Base_nonempty.
    + rewrite Hpl. discriminate.
    + intros ? [= <-]. rewrite He. reflexivity.
  - repeat split; auto.
    + rewrite Hpl. discriminate.
    + intros ? [= <-].
      destruct (String.eqb_spec (libcni.Name confList) ""); congruence.
Qed.

Lemma take_files_default p fs files :
  forall acc,
    (snd acc = "" -> fst acc = ∅) ->
    snd (take_files p fs files acc) = "" ->
    fst (take_files p fs files acc) = ∅.
Proof.
  induction files as [|f files IH]; intros acc Hacc; [exact Hacc|].
  rewrite take_files_cons. apply IH. unfold take_files. simpl.
  destruct (network_of_file p fs f) as [net|] eqn:Hn; [|exact Hacc]. simpl.
  apply network_of_file_name in Hn as (Hne & _).
  destruct (String.eqb (snd acc) "") eqn:He; [congruence|].
  apply String.eqb_neq in He. congruence.
Qed.

Lemma loaded_default_nonempty p fs nets d :
  loaded p fs = Ok (nets, d) -> d <> "".
Proof.
  unfold loaded.
  destruct (libcni.ConfFiles fs (pluginDir p) _) as [files|]; [|discriminate].
  destruct (length files =? 0)%nat; [discriminate|].
  destruct (size (fst (take_files p fs (Go.sort_Strings files) (∅, ""))) =? 0)%nat
    eqn:Hsz; [discriminate|].
  intros Hok Hd. injection Hok as Hok. apply Nat.eqb_neq in Hsz. apply Hsz.
  apply map_size_empty_iff. apply take_files_default; [reflexivity|].
  rewrite Hok. exact Hd.
Qed.

Lemma syncNetworkConfig_run fs w :
  exists lg,
    syncNetworkConfig fs w =
      match loaded (plugin w) fs with
      | Err e =>
          (add_logs w (lg ++ [(Error, MsgLoadNetworks e)]), Returned (Some e))
      | Ok (nets, d) =>
          ({| plugin :=
                set_registry
                  (if String.eqb (defaultNetName (plugin w)) ""
                   then d else defaultNetName (plugin w))
                  nets (plugin w);
              history := history w; logs := logs w ++ lg |},
           Returned None)
      end.
Proof.
  destruct (loadNetworks_run fs w) as (lg & Hrun & _). exists lg.
  unfold syncNetworkConfig, bind at 1. rewrite Hrun.
  destruct (loaded (plugin w) fs) as [[nets d]|e].
  - reflexivity.
  - run. unfold add_logs. simpl. by rewrite app_assoc.
Qed.

Lemma getDefaultNetwork_run w :
  exists d, getDefaultNetwork w = (w, Returned d).
Proof.
  unfold getDefaultNetwork, getDefaultNetworkName, getNetwork. run.
  destruct (String.eqb (defaultNetName (plugin w)) ""); simpl; eauto.
  destruct (networks (plugin w) !! defaultNetName (plugin w)); simpl; eauto.
Qed.

(** One reload: it always returns; a name already set is kept; the name
    changes only from the empty name, and only on success; on success the
    registry is the loaded map and the name is set. *)
Lemma syncNetworkConfig_default fs w :
  exists w' r,
    syncNetworkConfig fs w = (w', Returned r)
    /\ (defaultNetName (plugin w) <> "" ->
        defaultNetName (plugin w') = defaultNetName (plugin w))
    /\ (defaultNetName (plugin w') <> defaultNetName (plugin w) ->
        defaultNetName (plugin w) = "" /\ r = None)
    /\ (r = None ->
        exists nets d,
          loaded (plugin w) fs = Ok (nets, d)
          /\ networks (plugin w') = nets
          /\ defaultNetName (plugin w') <> "")
    /\ (forall e, r = Some e ->
          plugin w' = plugin w /\ loaded (plugin w) fs = Err e).
Proof.
  destruct (syncNetworkConfig_run fs w) as (lg & Hrun). rewrite Hrun.
  destruct (loaded (plugin w) fs) as [[nets d]|e] eqn:Hl.
  - eexists _, _. split; [reflexivity|]. simpl.
    apply loaded_default_nonempty in Hl.
    destruct (String.eqb_spec (defaultNetName (plugin w)) "") as [He|Hne].
    + repeat split; try congruence. eauto.
    + repeat split; try congruence. eauto.
  - eexists _, _. split; [reflexivity|]. simpl.
    repeat split; try congruence.
Qed.

Lemma resync_all_default fss :
  forall w,
    defaultNetName (plugin w) <> "" ->
    exists w',
      resync_all fss w = (w', Returned tt)
      /\ defaultNetName (plugin w') = defaultNetName (plugin w).
Proof.
  induction fss as [|fs fss IH]; intros w Hd.
  - exists w. split; reflexivity.
  - destruct (syncNetworkConfig_default fs w) as (w1 & r & Hs & Hkeep & _).
    specialize (Hkeep Hd).
    destruct (IH w1) as (w' & Hr & He); [congruence|].
    exists w'. simpl. unfold bind at 1. rewrite Hs.
    split; [exact Hr | congruence].
Qed.

Lemma monitorNetDir_loop_default inputs :
  forall w,
    defaultNetName (plugin w) <> "" ->
    exists w',
      monitorNetDir_loop inputs w = (w', Returned tt)
      /\ defaultNetName (plugin w') = defaultNetName (plugin w).
Proof.
  induction inputs as [|[op fs|err] inputs IH]; intros w Hd.
  - exists w. split; reflexivity.
  - simpl. unfold bind at 1, logf at 1.
    remember {| plugin := plugin w; history := history w;
                logs := logs w ++ [(Debug, MsgMonitorEvent)] |} as w0 eqn:Hw0.
    assert (Hp0 : plugin w0 = plugin w) by (subst w0; reflexivity).
    clear Hw0. rewrite <- Hp0 in *. clear Hp0.
    destruct (negb (N.land op fsnotify.Create =? fsnotify.Create)%N
              && negb (N.land op fsnotify.Write =? fsnotify.Write)%N).
    + destruct (IH w0 Hd) as (w' & Hr & He). exists w'. split; assumption.
    + destruct (syncNetworkConfig_default fs w0) as (w1 & r & Hs & Hkeep & _).
      specialize (Hkeep Hd). unfold bind at 1. rewrite Hs.
      destruct r as [e|].
      * unfold bind at 1, logf at 1.
        remember {| plugin := plugin w1; history := history w1;
                    logs := logs w1 ++ [(Error, MsgLoadingFailed e)] |}
          as w2 eqn:Hw2.
        assert (Hp2 : plugin w2 = plugin w1) by (subst w2; reflexivity).
        clear Hw2.
        destruct (IH w2) as (w' & Hr & He); [congruence|].
        exists w'. split; [exact Hr | congruence].
      * destruct (getDefaultNetwork_run w1) as (dn & Hg).
        unfold bind at 1. rewrite Hg. destruct dn as [net|].
        -- eexists. split; [reflexivity|]. simpl. congruence.
        -- destruct (IH w1) as (w' & Hr & He); [congruence|].
           exists w'. split; [exact Hr | congruence].
  - eexists. split; [reflexivity|]. reflexivity.
Qed.


Lemma InitCNI_default os fs d dir dirs w0 b :
  InitCNI os fs d dir dirs = Ok (w0, b) ->
  (d <> "" -> defaultNetName (plugin w0) = d)
  /\ (b = false -> defaultNetName (plugin w0) <> "")
  /\ (b = true -> defaultNetName (plugin w0) = d)
  /\ pods (plugin w0) = ∅.
Proof.
  unfold InitCNI.
  destruct (LookPath os "nsenter") as [path|]; [|discriminate].
  destruct (Stat os _); [discriminate|].
  match goal with
  | |- context [syncNetworkConfig fs ?w] =>
      destruct (syncNetworkConfig_default fs w)
        as (w1 & r & Hs & Hkeep & Hchg & Hok & Herr);
      destruct (syncNetworkConfig_run fs w) as (lg & Hrun);
      rewrite Hs
  end.
  simpl in *.
  assert (Hpods : pods (plugin w1) = ∅).
  { rewrite Hrun in Hs.
    match type of Hs with
    | context [loaded ?p fs] => destruct (loaded p fs) as [[nets d']|e]
    end; inversion Hs; reflexivity. }
  destruct r as [e|]; intros [= <- <-].
  - destruct (Herr e eq_refl) as [Hp _]. rewrite Hp. simpl.
    repeat split; auto; discriminate.
  - destruct (Hok eq_refl) as (nets & d' & _ & _ & Hne).
    repeat split; auto; discriminate.
Qed.

(** C7.  Once the default network name is set, no reload changes it:
    neither one reload, nor any number of reloads, nor the reloads of the
    directory watcher; a successful reload replaces the registry by the
    loaded map.  A reload changes the name only when the name was empty,
    and then sets it.  The name is set after [InitCNI] when it was given
    to [InitCNI] or when the first load succeeded. *)
Theorem default_network_name_sticky (w : world) :
  defaultNetName (plugin w) <> "" ->
  (forall fs,
     exists w' r,
       syncNetworkConfig fs w = (w', Returned r)
       /\ defaultNetName (plugin w') = defaultNetName (plugin w)
       /\ (r = None ->
           exists lg nets d,
             loadNetworks fs w = (add_logs w lg, Returned (Ok (nets, d)))
             /\ networks (plugin w') = nets))
  /\ (forall fss,
        exists w',
          resync_all fss w = (w', Returned tt)
          /\ defaultNetName (plugin w') = defaultNetName (plugin w))
  /\ (forall inputs,
        exists w',
          monitorNetDir_loop inputs w = (w', Returned tt)
          /\ defaultNetName (plugin w') = defaultNetName (plugin w))
  /\ (forall fs w0 w1 out,
        syncNetworkConfig fs w0 = (w1, out) ->
        defaultNetName (plugin w1) <> defaultNetName (plugin w0) ->
        defaultNetName (plugin w0) = ""
        /\ out = Returned None
        /\ defaultNetName (plugin w1) <> "")
  /\ (forall os fs d dir dirs w0 b,
        InitCNI os fs d dir dirs = Ok (w0, b) ->
        (d <> "" -> defaultNetName (plugin w0) = d)
        /\ (b = false -> defaultNetName (plugin w0) <> "")).
Proof.
  intros Hd. split; [|split; [|split; [|split]]].
  - intros fs.
    destruct (syncNetworkConfig_default fs w) as (w' & r & Hs & Hkeep & _ & Hok & _).
    exists w', r. split; [exact Hs|]. split; [auto|].
    intros Hr. destruct (Hok Hr) as (nets & d & Hl & Hn & _).
    destruct (loadNetworks_run fs w) as (lg & Hrun & _).
    exists lg, nets, d. rewrite Hrun, Hl. auto.
  - intros fss. apply resync_all_default. exact Hd.
  - intros inputs. apply monitorNetDir_loop_default. exact Hd.
  - intros fs w0 w1 out Hs Hne.
    destruct (syncNetworkConfig_default fs w0)
      as (w1' & r & Hs' & _ & Hchg & Hok & _).
    rewrite Hs in Hs'. injection Hs' as <- ->.
    destruct (Hchg Hne) as [He ->]. repeat split; auto.
    destruct (Hok eq_refl) as (_ & _ & _ & _ & Hset). exact Hset.
  - intros os fs d dir dirs w0 b Hinit.
    apply InitCNI_default in Hinit as (H1 & H2 & _). auto.
Qed.


(** *** Calls to the engine *)

Lemma answers_app h cs1 cs2 :
  answers h (cs1 ++ cs2) = (answers h cs1 ++ answers (h ++ cs1) cs2)%list.
Proof.
  revert h. induction cs1 as [|c cs1 IH]; intros h; simpl.
  - by rewrite app_nil_r.
  - rewrite IH, <- app_assoc. reflexivity.
Qed.

Lemma answers_length h cs : length (answers h cs) = length cs.
Proof. revert h. induction cs; intros h; simpl; auto. Qed.

Lemma collected_app {A} (upd : A -> call -> answer -> A) h cs1 cs2 a :
  collected upd h (cs1 ++ cs2) a
  = collected upd (h ++ cs1) cs2 (collected upd h cs1 a).
Proof.
  revert h a. induction cs1 as [|c cs1 IH]; intros h a; simpl.
  - by rewrite app_nil_r.
  - rewrite IH, <- app_assoc. reflexivity.
Qed.

Lemma calls_for_cons mk i net nets :
  calls_for mk i (net :: nets)
  = mk net (ifName_at i) :: calls_for mk (S i) nets.
Proof.
  unfold calls_for. simpl. rewrite Nat.add_0_r. f_equal.
  apply imap_ext. intros j x _. simpl. f_equal. f_equal. lia.
Qed.

Lemma calls_for_snoc mk i nets net :
  calls_for mk i (nets ++ [net])
  = (calls_for mk i nets ++ [mk net (ifName_at (i + length nets))])%list.
Proof.
  unfold calls_for. rewrite imap_app. simpl. by rewrite Nat.add_0_r.
Qed.

Lemma calls_for_length mk i nets : length (calls_for mk i nets) = length nets.
Proof. unfold calls_for. apply length_imap. Qed.

Lemma calls_for_lookup mk i nets j c :
  calls_for mk i nets !! j = Some c ->
  exists net, nets !! j = Some net /\ c = mk net (ifName_at (i + j)).
Proof.
  unfold calls_for. rewrite list_lookup_imap.
  destruct (nets !! j) as [net|]; simpl; [|discriminate].
  intros [= <-]. eauto.
Qed.

Lemma buildCNIRuntimeConf_run podNetwork ifName w :
  buildCNIRuntimeConf podNetwork ifName w
  = (add_logs w [(Info, MsgGotPodNetwork podNetwork)],
     Returned (Ok (runtimeConf podNetwork ifName))).
Proof.
  unfold buildCNIRuntimeConf, runtimeConf. run.
  destruct (PortMappings podNetwork); reflexivity.
Qed.

Lemma addToNetwork_run network podNetwork ifName w :
  exists lg,
    (has_plugin network
     /\ addToNetwork network podNetwork ifName w
        = ({| plugin := plugin w;
              history := history w ++ [attach_call podNetwork network ifName];
              logs := logs w ++ lg |},
           Returned
             (AddNetworkList engine (history w) (CNIConfig network)
                (NetworkConfig network) (runtimeConf podNetwork ifName))))
    \/ (~ has_plugin network
        /\ addToNetwork network podNetwork ifName w = (add_logs w lg, Fatal)).
Proof.
  unfold has_plugin.
  destruct (libcni.Plugins (NetworkConfig network)) as [|plugin0 rest] eqn:Hpl.
  - exists [(Info, MsgGotPodNetwork podNetwork)]. right. split; [auto|].
    unfold addToNetwork, first_plugin_type. unfold bind at 1.
    rewrite buildCNIRuntimeConf_run, Hpl. reflexivity.
  - destruct (AddNetworkList engine (history w) (CNIConfig network)
                (NetworkConfig network) (runtimeConf podNetwork ifName))
      as [res|err] eqn:Hans.
    + eexists. left. split; [discriminate|].
      unfold addToNetwork, first_plugin_type, attach_call. unfold bind at 1.
      rewrite buildCNIRuntimeConf_run, Hpl. run. rewrite Hans. simpl.
      rewrite <- !app_assoc. reflexivity.
    + eexists. left. split; [discriminate|].
      unfold addToNetwork, first_plugin_type, attach_call. unfold bind at 1.
      rewrite buildCNIRuntimeConf_run, Hpl. run. rewrite Hans. simpl.
      rewrite <- !app_assoc. reflexivity.
Qed.

Lemma deleteFromNetwork_run network podNetwork ifName w :
  exists lg,
    (has_plugin network
     /\ deleteFromNetwork network podNetwork ifName w
        = ({| plugin := plugin w;
              history := history w ++ [detach_call podNetwork network ifName];
              logs := logs w ++ lg |},
           Returned
             (DelNetworkList engine (history w) (CNIConfig network)
                (NetworkConfig network) (runtimeConf podNetwork ifName))))
    \/ (~ has_plugin network
        /\ deleteFromNetwork network podNetwork ifName w
           = (add_logs w lg, Fatal)).
Proof.
  unfold has_plugin.
  destruct (libcni.Plugins (NetworkConfig network)) as [|plugin0 rest] eqn:Hpl.
  - exists [(Info, MsgGotPodNetwork podNetwork)]. right. split; [auto|].
    unfold deleteFromNetwork, first_plugin_type. unfold bind at 1.
    rewrite buildCNIRuntimeConf_run, Hpl. reflexivity.
  - destruct (DelNetworkList engine (history w) (CNIConfig network)
                (NetworkConfig network) (runtimeConf podNetwork ifName))
      as [err|] eqn:Hans.
    + eexists. left. split; [discriminate|].
      unfold deleteFromNetwork, first_plugin_type, detach_call.
      unfold bind at 1.
      rewrite buildCNIRuntimeConf_run, Hpl. run. rewrite Hans. simpl.
      rewrite <- !app_assoc. reflexivity.
    + eexists. left. split; [discriminate|].
      unfold deleteFromNetwork, first_plugin_type, detach_call.
      unfold bind at 1.
      rewrite buildCNIRuntimeConf_run, Hpl. run. rewrite Hans. simpl.
      rewrite <- !app_assoc. reflexivity.
Qed.

Lemma setup_closure_spec podNetwork p0 :
  callback_spec setup_closure podNetwork p0 (attach_call podNetwork)
    collect_attach has_plugin.
Proof.
  intros net ifName a w _. unfold setup_closure.
  destruct (addToNetwork_run net podNetwork ifName w)
    as (lg & [[Hlive Hrun] | [Hdead Hrun]]).
  - unfold bind at 1. rewrite Hrun. unfold attach_call at 2 3. simpl.
    destruct (AddNetworkList engine (history w) (CNIConfig net)
                (NetworkConfig net) (runtimeConf podNetwork ifName)); simpl.
    + exists lg. left. split; [exact Hlive | reflexivity].
    + eexists. left. split; [exact Hlive|]. run.
      rewrite <- app_assoc. reflexivity.
  - exists lg. right. split; [exact Hdead|].
    unfold bind at 1. rewrite Hrun. reflexivity.
Qed.

Lemma teardown_closure_spec podNetwork p0 :
  callback_spec teardown_closure podNetwork p0 (detach_call podNetwork)
    collect_nothing has_plugin.
Proof.
  intros net ifName [] w _. unfold teardown_closure.
  destruct (deleteFromNetwork_run net podNetwork ifName w)
    as (lg & [[Hlive Hrun] | [Hdead Hrun]]).
  - unfold bind at 1. rewrite Hrun. unfold detach_call at 2 3. simpl.
    destruct (DelNetworkList engine (history w) (CNIConfig net)
                (NetworkConfig net) (runtimeConf podNetwork ifName)); simpl.
    + eexists. left. split; [exact Hlive|]. run.
      rewrite <- app_assoc. reflexivity.
    + exists lg. left. split; [exact Hlive | reflexivity].
  - exists lg. right. split; [exact Hdead|].
    unfold bind at 1. rewrite Hrun. reflexivity.
Qed.

Lemma status_closure_spec podNetwork p0 :
  callback_spec status_closure podNetwork p0 (details_call p0 podNetwork)
    (collect_status podNetwork) (fun _ => True).
Proof.
  intros net ifName a w <-. unfold status_closure, details_call. run.
  exists []. left. split; [exact I|]. rewrite app_nil_r.
  destruct (getContainerDetails engine (history w) (nsenterPath (plugin w))
              (NetNS podNetwork) ifName "-4") as [[ip mac]|e]; reflexivity.
Qed.

Lemma getNetwork_run name w :
  getNetwork name w
  = (w, Returned
          (match networks (plugin w) !! name with
           | Some net => Ok net
           | None => Err (errNetworkNotFound name)
           end)).
Proof.
  unfold getNetwork. run. destruct (networks (plugin w) !! name); reflexivity.
Qed.


(** *** The loop of [forEachNetwork] *)

Section Loop.

Context {A : Type}.
Variable f : cniNetwork -> string -> PodNetwork -> A -> M (A * option error).
Variable podNetwork : PodNetwork.
Variable p0 : cniNetworkPlugin.
Variable mk : cniNetwork -> string -> call.
Variable upd : A -> call -> answer -> A.
Variable live : cniNetwork -> Prop.
Hypothesis Hf : callback_spec f podNetwork p0 mk upd live.

(** Whatever the loop does, the call at position [j] is the call for the
    network of the [j]-th name, with the [j]-th interface name; a failed
    call is the last one and its error is returned; the loop returns
    without error only after one successful call per name. *)
Lemma forEachNetwork_loop_safety names :
  forall i a w w' out,
    plugin w = p0 ->
    forEachNetwork_loop f podNetwork i names a w = (w', out) ->
    plugin w' = p0
    /\ exists new,
         history w' = (history w ++ new)%list
         /\ (forall j c, new !! j = Some c ->
               exists name net,
                 names !! j = Some name
                 /\ networks p0 !! name = Some net
                 /\ c = mk net (ifName_at (i + j)))
         /\ (forall a', out = Returned (a', None) ->
               length new = length names
               /\ a' = collected upd (history w) new a
               /\ Forall (fun x => answer_error x = None)
                    (answers (history w) new))
         /\ (forall j c e, new !! j = Some c ->
               answer_error (answer_to (history w ++ take j new) c) = Some e ->
               length new = S j /\ exists a', out = Returned (a', Some e))
         /\ out <> Blocked
         /\ (out = Fatal ->
             exists name net,
               names !! length new = Some name
               /\ networks p0 !! name = Some net /\ ~ live net).
Proof.
  induction names as [|netName rest IH]; intros i a w w' out Hp Hrun.
  - simpl in Hrun. inversion Hrun; subst; clear Hrun.
    split; [reflexivity|]. exists []. rewrite app_nil_r.
    split; [reflexivity|].
    split; [intros j c; discriminate|].
    split; [intros a2 [= <-]; repeat split; constructor|].
    split; [intros j c e; discriminate|].
    split; discriminate.
  - simpl in Hrun. unfold bind at 1 in Hrun. rewrite getNetwork_run in Hrun.
    rewrite Hp in Hrun.
    destruct (networks p0 !! netName) as [net|] eqn:Hnet.
    + destruct (Hf net ("eth" ++ Go.itoa i) a w Hp)
        as (lg & [[Hlive Hcb] | [Hdead Hcb]]).
      * unfold bind at 1 in Hrun. rewrite Hcb in Hrun.
        fold (ifName_at i) in Hrun.
        destruct (answer_error (answer_to (history w) (mk net (ifName_at i))))
          as [e|] eqn:Hans.
        -- inversion Hrun; subst; clear Hrun. simpl.
           split; [reflexivity|]. exists [mk net (ifName_at i)].
           split; [reflexivity|].
           split; [|split; [discriminate|split; [|split; discriminate]]].
           ++ intros [|j] c; simpl; [|intros; discriminate].
              intros [= <-]. exists netName, net. rewrite Nat.add_0_r. auto.
           ++ intros [|j] c e'; simpl; [|intros; discriminate].
              intros [= <-]. rewrite app_nil_r, Hans. intros [= <-].
              split; [reflexivity | eauto].
        -- match type of Hrun with
           | forEachNetwork_loop _ _ _ _ ?a1 ?w1 = _ =>
               destruct (IH (S i) a1 w1 w' out Hp Hrun)
                 as (Hp' & new & Hh & Hpos & Hok & Hfail & Hnb & Hfatal)
           end.
           simpl in Hh.
           split; [exact Hp'|]. exists (mk net (ifName_at i) :: new).
           split; [rewrite Hh, <- app_assoc; reflexivity|].
           split; [|split; [|split; [|split]]].
           ++ intros [|j] c; simpl.
              ** intros [= <-]. exists netName, net.
                 rewrite Nat.add_0_r. auto.
              ** intros Hc. destruct (Hpos j c Hc) as (nm & nt & H1 & H2 & ->).
                 exists nm, nt. repeat split; auto. do 2 f_equal. lia.
           ++ intros a2 ->. destruct (Hok a2 eq_refl) as (Hlen & Ha & Hall).
              simpl in *. split; [lia|]. split; [exact Ha|].
              constructor; [exact Hans | exact Hall].
           ++ intros [|j] c e; simpl.
              ** intros [= <-]. rewrite app_nil_r, Hans. discriminate.
              ** intros Hc He. simpl in Hfail.
                 rewrite cons_middle, app_assoc in He.
                 destruct (Hfail j c e Hc He) as (Hlen & Hout).
                 split; [lia | exact Hout].
           ++ exact Hnb.
           ++ intros Hfat. simpl. exact (Hfatal Hfat).
      * unfold bind at 1 in Hrun. rewrite Hcb in Hrun.
        inversion Hrun; subst; clear Hrun. simpl.
        split; [reflexivity|]. exists []. rewrite app_nil_r.
        split; [reflexivity|].
        split; [intros j c; discriminate|].
        split; [discriminate|].
        split; [intros j c e; discriminate|].
        split; [discriminate|].
        intros _. exists netName, net. auto.
    + run. inversion Hrun; subst; clear Hrun. simpl.
      split; [reflexivity|]. exists []. rewrite app_nil_r.
      split; [reflexivity|].
      split; [intros j c; discriminate|].
      split; [discriminate|].
      split; [intros j c e; discriminate|].
      split; discriminate.
Qed.

(** The loop makes the calls for a run of names that are in the registry,
    live, and answered without error, and goes on with the rest. *)
Lemma forEachNetwork_loop_prefix names nets :
  Forall2 (fun name net => networks p0 !! name = Some net /\ live net)
    names nets ->
  forall rest i a w,
    plugin w = p0 ->
    Forall (fun x => answer_error x = None)
      (answers (history w) (calls_for mk i nets)) ->
    exists lg,
      forEachNetwork_loop f podNetwork i (names ++ rest) a w
      = forEachNetwork_loop f podNetwork (i + length nets) rest
          (collected upd (history w) (calls_for mk i nets) a)
          {| plugin := p0;
             history := history w ++ calls_for mk i nets;
             logs := logs w ++ lg |}.
Proof.
  induction 1 as [|netName net names nets [Hnet Hlive] _ IH];
    intros rest i a w Hp Hans.
  - exists []. simpl. rewrite Nat.add_0_r, !app_nil_r, <- Hp, world_eta.
    reflexivity.
  - rewrite calls_for_cons in Hans. simpl in Hans.
    apply Forall_cons in Hans as [Ha Hans].
    destruct (Hf net (ifName_at i) a w Hp)
      as (lg & [[_ Hcb] | [Hdead _]]); [|contradiction].
    rewrite Ha in Hcb.
    match type of Hcb with
    | _ = (?w1, Returned (?a1, None)) =>
        destruct (IH rest (S i) a1 w1 Hp Hans) as (lg' & Hrec)
    end.
    exists (lg ++ lg')%list. rewrite calls_for_cons.
    cbn [app forEachNetwork_loop collected length].
    unfold bind at 1. rewrite getNetwork_run, Hp, Hnet.
    unfold bind at 1. fold (ifName_at i). rewrite Hcb, Hrec.
    cbn [plugin history logs].
    rewrite <- !app_assoc. cbn [app]. f_equal. lia.
Qed.

Lemma forEachNetwork_loop_done i a w :
  forEachNetwork_loop f podNetwork i [] a w = (w, Returned (a, None)).
Proof. reflexivity. Qed.

Lemma forEachNetwork_loop_missing i name rest a w :
  plugin w = p0 ->
  networks p0 !! name = None ->
  forEachNetwork_loop f podNetwork i (name :: rest) a w
  = (add_logs w [(Error, MsgErr (errNetworkNotFound name))],
     Returned (a, Some (errNetworkNotFound name))).
Proof.
  intros Hp Hnone. simpl. unfold bind at 1.
  rewrite getNetwork_run, Hp, Hnone. reflexivity.
Qed.

Lemma forEachNetwork_loop_failing i name net rest a w e :
  plugin w = p0 ->
  networks p0 !! name = Some net ->
  live net ->
  answer_error (answer_to (history w) (mk net (ifName_at i))) = Some e ->
  exists lg,
    forEachNetwork_loop f podNetwork i (name :: rest) a w
    = ({| plugin := p0;
          history := history w ++ [mk net (ifName_at i)];
          logs := logs w ++ lg |},
       Returned (a, Some e)).
Proof.
  intros Hp Hnet Hlive Hans.
  destruct (Hf net (ifName_at i) a w Hp)
    as (lg & [[_ Hcb] | [Hdead _]]); [|contradiction].
  exists lg. simpl. unfold bind at 1. rewrite getNetwork_run, Hp, Hnet.
  unfold bind at 1. fold (ifName_at i). rewrite Hcb, Hans, <- Hp.
  reflexivity.
Qed.

(** The three ways the loop ends after a run of successful calls: the
    names are used up; the next name is not in the registry; the call for
    the next name fails. *)
Lemma forEachNetwork_loop_run names nets rest i a w :
  Forall2 (fun name net => networks p0 !! name = Some net /\ live net)
    names nets ->
  plugin w = p0 ->
  Forall (fun x => answer_error x = None)
    (answers (history w) (calls_for mk i nets)) ->
  let calls := calls_for mk i nets in
  let a1 := collected upd (history w) calls a in
  (rest = [] ->
   exists lg,
     forEachNetwork_loop f podNetwork i (names ++ rest) a w
     = ({| plugin := p0; history := history w ++ calls;
           logs := logs w ++ lg |},
        Returned (a1, None)))
  /\ (forall name rest',
        rest = name :: rest' ->
        networks p0 !! name = None ->
        exists lg,
          forEachNetwork_loop f podNetwork i (names ++ rest) a w
          = ({| plugin := p0; history := history w ++ calls;
                logs := logs w ++ lg |},
             Returned (a1, Some (errNetworkNotFound name))))
  /\ (forall name net rest' e,
        rest = name :: rest' ->
        networks p0 !! name = Some net ->
        live net ->
        answer_error
          (answer_to (history w ++ calls)
             (mk net (ifName_at (i + length nets)))) = Some e ->
        exists lg,
          forEachNetwork_loop f podNetwork i (names ++ rest) a w
          = ({| plugin := p0;
                history :=
                  history w ++ calls ++ [mk net (ifName_at (i + length nets))];
                logs := logs w ++ lg |},
             Returned (a1, Some e))).
Proof.
  intros Hnets Hp Hans calls a1.
  destruct (forEachNetwork_loop_prefix names nets Hnets rest i a w Hp Hans)
    as (lg & Hpre).
  fold calls in Hpre. fold a1 in Hpre. rewrite Hpre. clear Hpre.
  split; [|split].
  - intros ->. exists lg. reflexivity.
  - intros name rest' -> Hnone. eexists.
    rewrite forEachNetwork_loop_missing by (simpl; auto).
    unfold add_logs. simpl. rewrite <- app_assoc. reflexivity.
  - intros name net rest' e -> Hnet Hlive He.
    edestruct (forEachNetwork_loop_failing
                 (i + length nets) name net rest' a1
                 {| plugin := p0; history := history w ++ calls;
                    logs := logs w ++ lg |} e) as (lg' & Hrun);
      [reflexivity | exact Hnet | exact Hlive | exact He |].
    rewrite Hrun. simpl. exists (lg ++ lg')%list.
    rewrite <- !app_assoc. reflexivity.
Qed.


End Loop.


(** *** The section under the pod lock *)

Lemma lock_only_refl p : lock_only p p.
Proof. exists (pods p), (podLocks p), (nextLoc p). by destruct p. Qed.

Lemma lock_only_set_pods p p' m h n :
  lock_only p p' -> lock_only p (set_pods m h n p').
Proof. intros (m' & h' & n' & ->). exists m, h, n. reflexivity. Qed.

Lemma lock_only_fields p p' :
  lock_only p p' ->
  loNetwork p' = loNetwork p /\ defaultNetName p' = defaultNetName p
  /\ networks p' = networks p /\ nsenterPath p' = nsenterPath p
  /\ cniDirs p' = cniDirs p /\ vendorCNIDirPrefix p' = vendorCNIDirPrefix p.
Proof. intros (m & h & n & ->). simpl. auto 10. Qed.

Ltac solve_lock_only :=
  simpl; repeat (apply lock_only_set_pods; simpl); apply lock_only_refl.

Lemma forEachNetwork_run {A} podNetwork
    (f : cniNetwork -> string -> PodNetwork -> A -> M (A * option error))
    a w :
  forEachNetwork podNetwork f a w
  = forEachNetwork_loop f podNetwork 0
      (resolved_networks (plugin w) podNetwork) a w.
Proof.
  unfold forEachNetwork, resolved_networks, getDefaultNetworkName.
  destruct (Networks podNetwork); reflexivity.
Qed.

(** What [podLock], [Lock], the body and the deferred [podUnlock] amount
    to, for a body that leaves the plugin object alone: the call waits for
    ever when the mutex of the pod is held; otherwise the body runs, on a
    plugin object that differs in the lock table only, and its outcome is
    the outcome of the whole. *)
Lemma pod_section {A} (body : M A) podNetwork w :
  (forall w1 w2 o, body w1 = (w2, o) -> plugin w2 = plugin w1 /\ o <> Blocked) ->
  (~ pod_mutex_free (plugin w) podNetwork
   /\ exists w',
        (let* l := podLock podNetwork in
         Mutex_Lock l ;; defer (podUnlock podNetwork) body) w = (w', Blocked)
        /\ history w' = history w /\ logs w' = logs w
        /\ lock_only (plugin w) (plugin w'))
  \/ (pod_mutex_free (plugin w) podNetwork
      /\ exists w1 w2 o w',
           lock_only (plugin w) (plugin w1)
           /\ history w1 = history w /\ logs w1 = logs w
           /\ body w1 = (w2, o)
           /\ (let* l := podLock podNetwork in
               Mutex_Lock l ;; defer (podUnlock podNetwork) body) w = (w', o)
           /\ history w' = history w2
           /\ lock_only (plugin w) (plugin w')).
Proof.
  intros Hbody.
  (* the state once the mutex is held *)
  assert (Hlocked :
    forall w0 l,
      pods (plugin w0) !! buildFullPodName podNetwork = Some l ->
      mu (podLocks (plugin w0) l) = true ->
      lock_only (plugin w) (plugin w0) ->
      exists w2 o w',
        body w0 = (w2, o)
        /\ defer (podUnlock podNetwork) body w0 = (w', o)
        /\ history w' = history w2
        /\ lock_only (plugin w) (plugin w')).
  { intros w0 l Hin Hmu Hlo.
    destruct (body w0) as [w2 o] eqn:Hb.
    destruct (Hbody _ _ _ Hb) as [Hp Hnb].
    unfold defer, bind at 1. rewrite Hb.
    destruct o as [a| |]; [|contradiction|].
    - rewrite <- Hp in Hin, Hmu, Hlo.
      destruct (Z.eq_dec (refcount (podLocks (plugin w2) l)) 0%Z) as [Hz|Hnz].
      + exists w2, (Returned a). eexists. split; [reflexivity|].
        unfold bind at 1. rewrite (podUnlock_zero _ _ _ Hin Hz).
        split; [reflexivity|]. simpl. split; [reflexivity|].
        by apply lock_only_set_pods.
      + exists w2, (Returned a). eexists. split; [reflexivity|].
        unfold bind at 1. rewrite (podUnlock_held _ _ _ Hin Hnz Hmu).
        split; [reflexivity|]. simpl. split; [reflexivity|].
        by apply lock_only_set_pods.
    - exists w2, Fatal, w2. repeat split; auto.
      rewrite Hp. exact Hlo. }
  unfold pod_mutex_free.
  destruct (pods (plugin w) !! buildFullPodName podNetwork) as [l|] eqn:Hin.
  - destruct (mu (podLocks (plugin w) l)) eqn:Hmu.
    + left. split; [congruence|].
      eexists. unfold bind at 1. rewrite (podLock_present _ _ _ Hin).
      unfold bind at 1.
      match goal with
      | |- context [Mutex_Lock ?l0 ?w0] =>
          rewrite (Mutex_Lock_held l0 w0)
            by (simpl; rewrite heap_set_eq; exact Hmu)
      end.
      split; [reflexivity|]. simpl. repeat split.
      solve_lock_only.
    + right. split; [reflexivity|].
      unfold bind at 1. rewrite (podLock_present _ _ _ Hin).
      unfold bind at 1.
      match goal with
      | |- context [Mutex_Lock ?l0 ?w0] =>
          rewrite (Mutex_Lock_free l0 w0)
            by (simpl; rewrite heap_set_eq; exact Hmu)
      end.
      match goal with
      | |- context [defer _ body ?w0] =>
          destruct (Hlocked w0 l) as (w2 & o & w' & Hb & Hd & Hh & Hlo);
            [ exact Hin
            | simpl; by rewrite heap_set_eq
            | solve_lock_only
            | exists w0, w2, o, w' ]
      end.
      rewrite Hd. split; [solve_lock_only|]. repeat split; auto.
  - right. split; [exact I|].
    unfold bind at 1. rewrite (podLock_absent _ _ Hin).
    unfold bind at 1.
    match goal with
    | |- context [Mutex_Lock ?l0 ?w0] =>
        rewrite (Mutex_Lock_free l0 w0)
          by (simpl; rewrite heap_set_eq; reflexivity)
    end.
    match goal with
    | |- context [defer _ body ?w0] =>
        destruct (Hlocked w0 (nextLoc (plugin w)))
          as (w2 & o & w' & Hb & Hd & Hh & Hlo);
          [ simpl; by rewrite lookup_insert_eq
          | simpl; by rewrite heap_set_eq
          | solve_lock_only
          | exists w0, w2, o, w' ]
    end.
    rewrite Hd. split; [solve_lock_only|]. repeat split; auto.
Qed.


(** *** The entry points under the pod lock *)

Lemma SetUpPod_locked_safety podNetwork w1 w2 o :
  SetUpPod_locked podNetwork w1 = (w2, o) ->
  let p := plugin w1 in
  let names := resolved_networks p podNetwork in
  let lo := attach_call podNetwork (loNetwork p) "lo" in
  plugin w2 = p /\ o <> Blocked
  /\ exists new,
       history w2 = (history w1 ++ new)%list
       /\ (~ has_plugin (loNetwork p) -> new = [] /\ o = Fatal)
       /\ (has_plugin (loNetwork p) ->
           exists rest,
             new = lo :: rest
             /\ (forall e,
                   answer_error (answer_to (history w1) lo) = Some e ->
                   rest = [] /\ o = Returned ([], Some e))
             /\ (answer_error (answer_to (history w1) lo) = None ->
                 (forall j c, rest !! j = Some c ->
                    exists name net,
                      names !! j = Some name
                      /\ networks p !! name = Some net
                      /\ c = attach_call podNetwork net (ifName_at j))
                 /\ (forall results, o = Returned (results, None) ->
                       length rest = length names
                       /\ results
                          = collected collect_attach (history w1 ++ [lo])
                              rest []
                       /\ Forall (fun x => answer_error x = None)
                            (answers (history w1 ++ [lo]) rest))
                 /\ (forall j c e, rest !! j = Some c ->
                       answer_error
                         (answer_to ((history w1 ++ [lo]) ++ take j rest) c)
                       = Some e ->
                       length rest = S j /\ o = Returned ([], Some e))
                 /\ (forall results e, o = Returned (results, Some e) ->
                       results = [])
                 /\ (o = Fatal ->
                     exists name net,
                       names !! length rest = Some name
                       /\ networks p !! name = Some net
                       /\ ~ has_plugin net))).
Proof.
  intros Hrun p names lo. unfold SetUpPod_locked in Hrun.
  unfold bind at 1, get_plugin at 1 in Hrun. fold p in Hrun.
  destruct (addToNetwork_run (loNetwork p) podNetwork "lo" w1)
    as (lg & [[Hlive Hadd] | [Hdead Hadd]]).
  - unfold bind at 1 in Hrun. rewrite Hadd in Hrun. fold lo in Hrun.
    destruct (AddNetworkList engine (history w1) (CNIConfig (loNetwork p))
                (NetworkConfig (loNetwork p)) (runtimeConf podNetwork "lo"))
      as [res|err] eqn:Hres;
      match type of Hres with
      | _ = ?r =>
          assert (Hans : answer_to (history w1) lo = AnsAdd r)
            by (unfold lo, attach_call; simpl; rewrite Hres; reflexivity)
      end.
    + unfold bind at 1 in Hrun. rewrite forEachNetwork_run in Hrun.
      simpl plugin in Hrun. fold p in Hrun. fold names in Hrun.
      match type of Hrun with
      | context [forEachNetwork_loop _ _ _ _ ?a0 ?w0] =>
          destruct (forEachNetwork_loop setup_closure podNetwork 0 names a0 w0)
            as [w3 o3] eqn:Hloop;
          destruct (forEachNetwork_loop_safety setup_closure podNetwork p
                      (attach_call podNetwork) collect_attach has_plugin
                      (setup_closure_spec podNetwork p)
                      names 0 a0 w0 w3 o3 eq_refl Hloop)
            as (Hp3 & rest & Hh & Hpos & Hok & Hfail & Hnb & Hfatal)
      end.
      simpl history in Hh, Hok, Hfail.
      assert (Hout : w2 = w3 /\
                o = match o3 with
                    | Returned (_, Some err) => Returned ([], Some err)
                    | Returned (results, None) => Returned (results, None)
                    | Blocked => Blocked
                    | Fatal => Fatal
                    end).
      { destruct o3 as [[results [err|]]| |]; inversion Hrun; auto. }
      destruct Hout as [-> ->]. clear Hrun.
      split; [exact Hp3|]. split; [by destruct o3 as [[? [?|]]| |]|].
      exists (lo :: rest).
      split; [rewrite Hh, <- app_assoc; reflexivity|].
      split; [intros Hn; contradiction|].
      intros _. exists rest. split; [reflexivity|].
      split; [intros e; rewrite Hans; discriminate|].
      intros _. split; [|split; [|split; [|split]]].
      * intros j c Hc. destruct (Hpos j c Hc) as (nm & nt & ? & ? & ->).
        exists nm, nt. auto.
      * intros results Ho.
        destruct o3 as [[results' [err|]]| |]; try discriminate.
        injection Ho as ->. apply Hok. reflexivity.
      * intros j c e Hc He. destruct (Hfail j c e Hc He) as (Hlen & a' & ->).
        auto.
      * intros results e Ho.
        destruct o3 as [[results' [err|]]| |]; try discriminate.
        by injection Ho as <- _.
      * intros Ho. apply Hfatal. by destruct o3 as [[? [?|]]| |].
    + run_in Hrun. inversion Hrun; subst; clear Hrun.
      cbn [plugin history logs].
      split; [reflexivity|]. split; [discriminate|].
      exists [lo]. split; [reflexivity|].
      split; [intros Hn; contradiction|].
      intros _. exists []. split; [reflexivity|].
      rewrite Hans. simpl. split.
      * intros e [= <-]. auto.
      * discriminate.
  - unfold bind at 1 in Hrun. rewrite Hadd in Hrun.
    inversion Hrun; subst; clear Hrun. simpl.
    split; [reflexivity|]. split; [discriminate|].
    exists []. rewrite app_nil_r. split; [reflexivity|].
    split; [auto|]. intros Hl. contradiction.
Qed.


Lemma TearDownPod_locked_safety podNetwork w1 w2 o :
  TearDownPod_locked podNetwork w1 = (w2, o) ->
  let p := plugin w1 in
  let names := resolved_networks p podNetwork in
  plugin w2 = p /\ o <> Blocked
  /\ exists new,
       history w2 = (history w1 ++ new)%list
       /\ (forall j c, new !! j = Some c ->
             exists name net,
               names !! j = Some name
               /\ networks p !! name = Some net
               /\ c = detach_call podNetwork net (ifName_at j))
       /\ (o = Returned None ->
           length new = length names
           /\ Forall (fun x => answer_error x = None)
                (answers (history w1) new))
       /\ (forall j c e, new !! j = Some c ->
             answer_error (answer_to (history w1 ++ take j new) c) = Some e ->
             length new = S j /\ o = Returned (Some e))
       /\ (o = Fatal ->
           exists name net,
             names !! length new = Some name
             /\ networks p !! name = Some net /\ ~ has_plugin net).
Proof.
  intros Hrun p names. unfold TearDownPod_locked in Hrun.
  unfold bind at 1 in Hrun. rewrite forEachNetwork_run in Hrun.
  fold p in Hrun. fold names in Hrun.
  destruct (forEachNetwork_loop teardown_closure podNetwork 0 names tt w1)
    as [w3 o3] eqn:Hloop.
  destruct (forEachNetwork_loop_safety teardown_closure podNetwork p
              (detach_call podNetwork) collect_nothing has_plugin
              (teardown_closure_spec podNetwork p)
              names 0 tt w1 w3 o3 eq_refl Hloop)
    as (Hp3 & new & Hh & Hpos & Hok & Hfail & Hnb & Hfatal).
  assert (Hout : w2 = w3 /\
            o = match o3 with
                | Returned (_, oe) => Returned oe
                | Blocked => Blocked
                | Fatal => Fatal
                end).
  { destruct o3 as [[u oe]| |]; inversion Hrun; auto. }
  destruct Hout as [-> ->]. clear Hrun.
  split; [exact Hp3|]. split; [by destruct o3 as [[? ?]| |]|].
  exists new. split; [exact Hh|].
  split; [|split; [|split]].
  - intros j c Hc. destruct (Hpos j c Hc) as (nm & nt & ? & ? & ->).
    exists nm, nt. auto.
  - intros Ho. destruct o3 as [[u [err|]]| |]; try discriminate.
    destruct (Hok u eq_refl) as (Hlen & _ & Hall). auto.
  - intros j c e Hc He. destruct (Hfail j c e Hc He) as (Hlen & a' & ->).
    auto.
  - intros Ho. apply Hfatal. by destruct o3 as [[? ?]| |].
Qed.

Lemma GetPodNetworkStatus_locked_safety podNetwork w1 w2 o :
  GetPodNetworkStatus_locked podNetwork w1 = (w2, o) ->
  let p := plugin w1 in
  let names := resolved_networks p podNetwork in
  plugin w2 = p /\ o <> Blocked /\ o <> Fatal
  /\ exists new,
       history w2 = (history w1 ++ new)%list
       /\ (forall j c, new !! j = Some c ->
             exists name net,
               names !! j = Some name
               /\ networks p !! name = Some net
               /\ c = details_call p podNetwork net (ifName_at j))
       /\ (forall results, o = Returned (results, None) ->
             length new = length names
             /\ results
                = collected (collect_status podNetwork) (history w1) new []
             /\ Forall (fun x => answer_error x = None)
                  (answers (history w1) new))
       /\ (forall j c e, new !! j = Some c ->
             answer_error (answer_to (history w1 ++ take j new) c) = Some e ->
             length new = S j /\ o = Returned ([], Some e)).
Proof.
  intros Hrun p names. unfold GetPodNetworkStatus_locked in Hrun.
  unfold bind at 1 in Hrun. rewrite forEachNetwork_run in Hrun.
  fold p in Hrun. fold names in Hrun.
  destruct (forEachNetwork_loop status_closure podNetwork 0 names [] w1)
    as [w3 o3] eqn:Hloop.
  destruct (forEachNetwork_loop_safety status_closure podNetwork p
              (details_call p podNetwork) (collect_status podNetwork)
              (fun _ => True)
              (status_closure_spec podNetwork p)
              names 0 [] w1 w3 o3 eq_refl Hloop)
    as (Hp3 & new & Hh & Hpos & Hok & Hfail & Hnb & Hfatal).
  assert (Hout : w2 = w3 /\
            o = match o3 with
                | Returned (_, Some err) => Returned ([], Some err)
                | Returned (results, None) => Returned (results, None)
                | Blocked => Blocked
                | Fatal => Fatal
                end).
  { destruct o3 as [[results [err|]]| |]; inversion Hrun; auto. }
  destruct Hout as [-> ->]. clear Hrun.
  split; [exact Hp3|]. split; [by destruct o3 as [[? [?|]]| |]|].
  split.
  { destruct o3 as [[? [?|]]| |]; try discriminate.
    destruct (Hfatal eq_refl) as (? & ? & _ & _ & Hn). by destruct Hn. }
  exists new. split; [exact Hh|].
  split; [|split].
  - intros j c Hc. destruct (Hpos j c Hc) as (nm & nt & ? & ? & ->).
    exists nm, nt. auto.
  - intros results Ho.
    destruct o3 as [[results' [err|]]| |]; try discriminate.
    injection Ho as ->. apply Hok. reflexivity.
  - intros j c e Hc He. destruct (Hfail j c e Hc He) as (Hlen & a' & ->).
    auto.
Qed.


Lemma SetUpPod_locked_lo_fails podNetwork w1 e :
  let p := plugin w1 in
  let lo := attach_call podNetwork (loNetwork p) "lo" in
  has_plugin (loNetwork p) ->
  answer_error (answer_to (history w1) lo) = Some e ->
  exists lg,
    SetUpPod_locked podNetwork w1
    = ({| plugin := p; history := history w1 ++ [lo];
          logs := logs w1 ++ lg |},
       Returned ([], Some e)).
Proof.
  intros p lo Hlive Hans. unfold SetUpPod_locked.
  unfold bind at 1, get_plugin at 1. fold p.
  destruct (addToNetwork_run (loNetwork p) podNetwork "lo" w1)
    as (lg & [[_ Hadd] | [Hdead _]]); [|contradiction].
  unfold bind at 1. rewrite Hadd. fold lo.
  unfold lo, attach_call in Hans. simpl in Hans.
  destruct (AddNetworkList engine (history w1) (CNIConfig (loNetwork p))
              (NetworkConfig (loNetwork p)) (runtimeConf podNetwork "lo"))
    as [res|err]; [discriminate|].
  injection Hans as ->. eexists. run. rewrite <- app_assoc. reflexivity.
Qed.

Lemma SetUpPod_locked_run podNetwork w1 names nets rest :
  let p := plugin w1 in
  let lo := attach_call podNetwork (loNetwork p) "lo" in
  let calls := calls_for (attach_call podNetwork) 0 nets in
  has_plugin (loNetwork p) ->
  resolved_networks p podNetwork = (names ++ rest)%list ->
  Forall2 (fun name net => networks p !! name = Some net /\ has_plugin net)
    names nets ->
  Forall (fun x => answer_error x = None)
    (answers (history w1) (lo :: calls)) ->
  (rest = [] ->
   exists lg,
     SetUpPod_locked podNetwork w1
     = ({| plugin := p; history := history w1 ++ lo :: calls;
           logs := logs w1 ++ lg |},
        Returned
          (collected collect_attach (history w1 ++ [lo]) calls [], None)))
  /\ (forall name rest',
        rest = name :: rest' ->
        networks p !! name = None ->
        exists lg,
          SetUpPod_locked podNetwork w1
          = ({| plugin := p; history := history w1 ++ lo :: calls;
                logs := logs w1 ++ lg |},
             Returned ([], Some (errNetworkNotFound name))))
  /\ (forall name net rest' e,
        rest = name :: rest' ->
        networks p !! name = Some net ->
        has_plugin net ->
        answer_error
          (answer_to (history w1 ++ lo :: calls)
             (attach_call podNetwork net (ifName_at (length nets)))) = Some e ->
        exists lg,
          SetUpPod_locked podNetwork w1
          = ({| plugin := p;
                history :=
                  history w1 ++ lo :: calls ++
                  [attach_call podNetwork net (ifName_at (length nets))];
                logs := logs w1 ++ lg |},
             Returned ([], Some e))).
Proof.
  intros p lo calls Hlive Hres Hnets Hans.
  simpl in Hans. apply Forall_cons in Hans as [Hlo Hans].
  destruct (addToNetwork_run (loNetwork p) podNetwork "lo" w1)
    as (lg & [[_ Hadd] | [Hdead _]]); [|contradiction].
  assert (Hhead :
    exists w0,
      plugin w0 = p /\ history w0 = (history w1 ++ [lo])%list
      /\ logs w0 = (logs w1 ++ lg)%list
      /\ SetUpPod_locked podNetwork w1
         = (let* r :=
              forEachNetwork_loop setup_closure podNetwork 0 (names ++ rest) []
            in match r with
               | (_, Some err) => ret ([], Some err)
               | (results, None) => ret (results, None)
               end) w0).
  { eexists. split; [|split; [|split]]; cycle 3.
    - unfold SetUpPod_locked. unfold bind at 1, get_plugin at 1. fold p.
      unfold bind at 1. rewrite Hadd. fold lo.
      unfold lo, attach_call in Hlo. simpl in Hlo.
      destruct (AddNetworkList engine (history w1) (CNIConfig (loNetwork p))
                  (NetworkConfig (loNetwork p)) (runtimeConf podNetwork "lo"))
        as [res|err]; [|discriminate].
      unfold bind at 1. rewrite forEachNetwork_run. simpl plugin. fold p.
      rewrite Hres. reflexivity.
    - reflexivity.
    - reflexivity.
    - reflexivity. }
  destruct Hhead as (w0 & Hp0 & Hh0 & Hl0 & ->).
  rewrite <- Hh0 in Hans.
  destruct (forEachNetwork_loop_run setup_closure podNetwork p
              (attach_call podNetwork) collect_attach has_plugin
              (setup_closure_spec podNetwork p)
              names nets rest 0 [] w0 Hnets Hp0 Hans)
    as (Hdone & Hmiss & Hfail).
  fold calls in Hdone, Hmiss, Hfail.
  rewrite Hh0, Hl0 in Hdone, Hmiss, Hfail.
  split; [|split].
  - intros Hr. destruct (Hdone Hr) as (lg' & Hrun).
    exists (lg ++ lg')%list. unfold bind at 1. rewrite Hrun.
    destruct (collected collect_attach (history w1 ++ [lo]) calls []);
      run; rewrite <- !app_assoc; reflexivity.
  - intros name rest' Hr Hnone. destruct (Hmiss name rest' Hr Hnone) as (lg' & Hrun).
    exists (lg ++ lg')%list. unfold bind at 1. rewrite Hrun.
    run. rewrite <- !app_assoc. reflexivity.
  - intros name net rest' e Hr Hnet Hl He.
    rewrite <- app_assoc in Hfail. simpl in Hfail.
    destruct (Hfail name net rest' e Hr Hnet Hl He) as (lg' & Hrun).
    exists (lg ++ lg')%list. unfold bind at 1. rewrite Hrun.
    run. rewrite <- !app_assoc. reflexivity.
Qed.


Lemma TearDownPod_locked_run podNetwork w1 names nets rest :
  let p := plugin w1 in
  let calls := calls_for (detach_call podNetwork) 0 nets in
  resolved_networks p podNetwork = (names ++ rest)%list ->
  Forall2 (fun name net => networks p !! name = Some net /\ has_plugin net)
    names nets ->
  Forall (fun x => answer_error x = None) (answers (history w1) calls) ->
  (rest = [] ->
   exists lg,
     TearDownPod_locked podNetwork w1
     = ({| plugin := p; history := history w1 ++ calls;
           logs := logs w1 ++ lg |},
        Returned None))
  /\ (forall name rest',
        rest = name :: rest' ->
        networks p !! name = None ->
        exists lg,
          TearDownPod_locked podNetwork w1
          = ({| plugin := p; history := history w1 ++ calls;
                logs := logs w1 ++ lg |},
             Returned (Some (errNetworkNotFound name))))
  /\ (forall name net rest' e,
        rest = name :: rest' ->
        networks p !! name = Some net ->
        has_plugin net ->
        answer_error
          (answer_to (history w1 ++ calls)
             (detach_call podNetwork net (ifName_at (length nets)))) = Some e ->
        exists lg,
          TearDownPod_locked podNetwork w1
          = ({| plugin := p;
                history :=
                  history w1 ++ calls ++
                  [detach_call podNetwork net (ifName_at (length nets))];
                logs := logs w1 ++ lg |},
             Returned (Some e))).
Proof.
  intros p calls Hres Hnets Hans.
  destruct (forEachNetwork_loop_run teardown_closure podNetwork p
              (detach_call podNetwork) collect_nothing has_plugin
              (teardown_closure_spec podNetwork p)
              names nets rest 0 tt w1 Hnets eq_refl Hans)
    as (Hdone & Hmiss & Hfail).
  fold calls in Hdone, Hmiss, Hfail.
  unfold TearDownPod_locked. unfold bind at 1 2 3.
  rewrite forEachNetwork_run. fold p. rewrite Hres.
  split; [|split].
  - intros Hr. destruct (Hdone Hr) as (lg & ->). exists lg. reflexivity.
  - intros name rest' Hr Hnone.
    destruct (Hmiss name rest' Hr Hnone) as (lg & ->). exists lg. reflexivity.
  - intros name net rest' e Hr Hnet Hl He.
    destruct (Hfail name net rest' e Hr Hnet Hl He) as (lg & ->).
    exists lg. reflexivity.
Qed.

Lemma GetPodNetworkStatus_locked_run podNetwork w1 names nets rest :
  let p := plugin w1 in
  let calls := calls_for (details_call p podNetwork) 0 nets in
  resolved_networks p podNetwork = (names ++ rest)%list ->
  Forall2 (fun name net => networks p !! name = Some net) names nets ->
  Forall (fun x => answer_error x = None) (answers (history w1) calls) ->
  (rest = [] ->
   exists lg,
     GetPodNetworkStatus_locked podNetwork w1
     = ({| plugin := p; history := history w1 ++ calls;
           logs := logs w1 ++ lg |},
        Returned
          (collected (collect_status podNetwork) (history w1) calls [], None)))
  /\ (forall name rest',
        rest = name :: rest' ->
        networks p !! name = None ->
        exists lg,
          GetPodNetworkStatus_locked podNetwork w1
          = ({| plugin := p; history := history w1 ++ calls;
                logs := logs w1 ++ lg |},
             Returned ([], Some (errNetworkNotFound name))))
  /\ (forall name net rest' e,
        rest = name :: rest' ->
        networks p !! name = Some net ->
        answer_error
          (answer_to (history w1 ++ calls)
             (details_call p podNetwork net (ifName_at (length nets))))
        = Some e ->
        exists lg,
          GetPodNetworkStatus_locked podNetwork w1
          = ({| plugin := p;
                history :=
                  history w1 ++ calls ++
                  [details_call p podNetwork net (ifName_at (length nets))];
                logs := logs w1 ++ lg |},
             Returned ([], Some e))).
Proof.
  intros p calls Hres Hnets Hans.
  assert (Hnets' :
    Forall2 (fun name net => networks p !! name = Some net /\ True) names nets).
  { eapply Forall2_impl; [exact Hnets|]. auto. }
  destruct (forEachNetwork_loop_run status_closure podNetwork p
              (details_call p podNetwork) (collect_status podNetwork)
              (fun _ => True)
              (status_closure_spec podNetwork p)
              names nets rest 0 [] w1 Hnets' eq_refl Hans)
    as (Hdone & Hmiss & Hfail).
  fold calls in Hdone, Hmiss, Hfail.
  unfold GetPodNetworkStatus_locked. unfold bind.
  rewrite forEachNetwork_run. fold p. rewrite Hres.
  split; [|split].
  - intros Hr. destruct (Hdone Hr) as (lg & ->). exists lg.
    destruct (collected (collect_status podNetwork) (history w1) calls []);
      reflexivity.
  - intros name rest' Hr Hnone.
    destruct (Hmiss name rest' Hr Hnone) as (lg & ->). exists lg. reflexivity.
  - intros name net rest' e Hr Hnet He.
    destruct (Hfail name net rest' e Hr Hnet I He) as (lg & ->).
    exists lg. reflexivity.
Qed.


(** *** From the locked part to the entry point *)

Lemma locked_call_cases {A} (body : M A) podNetwork w w' out :
  (forall w1 w2 o, body w1 = (w2, o) -> plugin w2 = plugin w1 /\ o <> Blocked) ->
  (let* l := podLock podNetwork in
   Mutex_Lock l ;; defer (podUnlock podNetwork) body) w = (w', out) ->
  (~ pod_mutex_free (plugin w) podNetwork
   /\ out = Blocked /\ history w' = history w)
  \/ (pod_mutex_free (plugin w) podNetwork
      /\ exists w1 w2,
           lock_only (plugin w) (plugin w1)
           /\ history w1 = history w /\ logs w1 = logs w
           /\ body w1 = (w2, out)
           /\ history w' = history w2).
Proof.
  intros Hbody Hrun.
  destruct (pod_section body podNetwork w Hbody)
    as [(Hheld & w0 & Hb & Hh & _) | (Hfree & w1 & w2 & o & w0 & Hlo & Hh1 & Hl1 & Hb & Hp & Hh & _)].
  - left. rewrite Hb in Hrun. injection Hrun as <- <-. auto.
  - right. rewrite Hp in Hrun. injection Hrun as <- <-.
    split; [exact Hfree|]. exists w1, w2. auto.
Qed.

Lemma locked_call_enter {A} (body : M A) podNetwork w :
  (forall w1 w2 o, body w1 = (w2, o) -> plugin w2 = plugin w1 /\ o <> Blocked) ->
  pod_mutex_free (plugin w) podNetwork ->
  exists w1,
    lock_only (plugin w) (plugin w1)
    /\ history w1 = history w /\ logs w1 = logs w
    /\ forall w2 o,
         body w1 = (w2, o) ->
         exists w',
           (let* l := podLock podNetwork in
            Mutex_Lock l ;; defer (podUnlock podNetwork) body) w = (w', o)
           /\ history w' = history w2.
Proof.
  intros Hbody Hfree.
  destruct (pod_section body podNetwork w Hbody)
    as [(Hheld & _) | (_ & w1 & w2 & o & w0 & Hlo & Hh1 & Hl1 & Hb & Hp & Hh & _)];
    [contradiction|].
  exists w1. repeat split; auto.
  intros w2' o' Hb'. rewrite Hb in Hb'. injection Hb' as <- <-.
  exists w0. auto.
Qed.

Lemma SetUpPod_locked_frame podNetwork w1 w2 o :
  SetUpPod_locked podNetwork w1 = (w2, o) ->
  plugin w2 = plugin w1 /\ o <> Blocked.
Proof.
  intros Hrun. apply SetUpPod_locked_safety in Hrun as (? & ? & _). auto.
Qed.

Lemma TearDownPod_locked_frame podNetwork w1 w2 o :
  TearDownPod_locked podNetwork w1 = (w2, o) ->
  plugin w2 = plugin w1 /\ o <> Blocked.
Proof.
  intros Hrun. apply TearDownPod_locked_safety in Hrun as (? & ? & _). auto.
Qed.

Lemma GetPodNetworkStatus_locked_frame podNetwork w1 w2 o :
  GetPodNetworkStatus_locked podNetwork w1 = (w2, o) ->
  plugin w2 = plugin w1 /\ o <> Blocked.
Proof.
  intros Hrun.
  apply GetPodNetworkStatus_locked_safety in Hrun as (? & ? & _). auto.
Qed.

Lemma resolved_networks_lock_only p p' podNetwork :
  lock_only p p' ->
  resolved_networks p' podNetwork = resolved_networks p podNetwork.
Proof. intros (m & h & n & ->). reflexivity. Qed.

(** The check passes: the request names its networks, or the default
    network is resolvable. *)
Lemma checkInitialized_passes podNetwork w :
  Networks podNetwork <> [] \/ default_resolvable (plugin w) = true ->
  checkInitialized podNetwork w = (w, Returned None).
Proof.
  intros H. rewrite checkInitialized_run.
  destruct (Networks podNetwork) as [|n l] eqn:Hn; simpl.
  - destruct H as [H|H]; [contradiction|]. rewrite H. reflexivity.
  - reflexivity.
Qed.

Lemma checkInitialized_fails podNetwork w :
  Networks podNetwork = [] -> default_resolvable (plugin w) = false ->
  checkInitialized podNetwork w = (w, Returned (Some errUninitialized)).
Proof.
  intros Hn Hd. rewrite checkInitialized_run, Hn, Hd. reflexivity.
Qed.

Lemma checkInitialized_dec podNetwork w :
  (Networks podNetwork = [] /\ default_resolvable (plugin w) = false)
  \/ (Networks podNetwork <> [] \/ default_resolvable (plugin w) = true).
Proof.
  destruct (Networks podNetwork); [|right; left; discriminate].
  destruct (default_resolvable (plugin w)); auto.
Qed.

Lemma SetUpPod_cases podNetwork w w' out :
  SetUpPod podNetwork w = (w', out) ->
  (Networks podNetwork = [] /\ default_resolvable (plugin w) = false
   /\ w' = w /\ out = Returned ([], Some errUninitialized))
  \/ ((Networks podNetwork <> [] \/ default_resolvable (plugin w) = true)
      /\ ((~ pod_mutex_free (plugin w) podNetwork
           /\ out = Blocked /\ history w' = history w)
          \/ (pod_mutex_free (plugin w) podNetwork
              /\ exists w1 w2,
                   lock_only (plugin w) (plugin w1)
                   /\ history w1 = history w /\ logs w1 = logs w
                   /\ SetUpPod_locked podNetwork w1 = (w2, out)
                   /\ history w' = history w2))).
Proof.
  intros Hrun. unfold SetUpPod in Hrun. unfold bind at 1 in Hrun.
  destruct (checkInitialized_dec podNetwork w) as [[Hn Hd] | Hpass].
  - left. rewrite (checkInitialized_fails _ _ Hn Hd) in Hrun.
    injection Hrun as <- <-. auto.
  - right. split; [exact Hpass|].
    rewrite (checkInitialized_passes _ _ Hpass) in Hrun.
    exact (locked_call_cases _ _ _ _ _ (SetUpPod_locked_frame podNetwork) Hrun).
Qed.

Lemma TearDownPod_cases podNetwork w w' out :
  TearDownPod podNetwork w = (w', out) ->
  (Networks podNetwork = [] /\ default_resolvable (plugin w) = false
   /\ w' = w /\ out = Returned (Some errUninitialized))
  \/ ((Networks podNetwork <> [] \/ default_resolvable (plugin w) = true)
      /\ ((~ pod_mutex_free (plugin w) podNetwork
           /\ out = Blocked /\ history w' = history w)
          \/ (pod_mutex_free (plugin w) podNetwork
              /\ exists w1 w2,
                   lock_only (plugin w) (plugin w1)
                   /\ history w1 = history w /\ logs w1 = logs w
                   /\ TearDownPod_locked podNetwork w1 = (w2, out)
                   /\ history w' = history w2))).
Proof.
  intros Hrun. unfold TearDownPod in Hrun. unfold bind at 1 in Hrun.
  destruct (checkInitialized_dec podNetwork w) as [[Hn Hd] | Hpass].
  - left. rewrite (checkInitialized_fails _ _ Hn Hd) in Hrun.
    injection Hrun as <- <-. auto.
  - right. split; [exact Hpass|].
    rewrite (checkInitialized_passes _ _ Hpass) in Hrun.
    exact (locked_call_cases _ _ _ _ _ (TearDownPod_locked_frame podNetwork) Hrun).
Qed.

Lemma SetUpPod_enter podNetwork w :
  Networks podNetwork <> [] \/ default_resolvable (plugin w) = true ->
  pod_mutex_free (plugin w) podNetwork ->
  exists w1,
    lock_only (plugin w) (plugin w1)
    /\ history w1 = history w /\ logs w1 = logs w
    /\ forall w2 o,
         SetUpPod_locked podNetwork w1 = (w2, o) ->
         exists w', SetUpPod podNetwork w = (w', o)
                    /\ history w' = history w2.
Proof.
  intros Hpass Hfree.
  destruct (locked_call_enter _ podNetwork w
              (SetUpPod_locked_frame podNetwork) Hfree)
    as (w1 & Hlo & Hh & Hl & Hk).
  exists w1. repeat split; auto. intros w2 o Hb.
  unfold SetUpPod, bind at 1. rewrite (checkInitialized_passes _ _ Hpass).
  exact (Hk w2 o Hb).
Qed.

Lemma TearDownPod_enter podNetwork w :
  Networks podNetwork <> [] \/ default_resolvable (plugin w) = true ->
  pod_mutex_free (plugin w) podNetwork ->
  exists w1,
    lock_only (plugin w) (plugin w1)
    /\ history w1 = history w /\ logs w1 = logs w
    /\ forall w2 o,
         TearDownPod_locked podNetwork w1 = (w2, o) ->
         exists w', TearDownPod podNetwork w = (w', o)
                    /\ history w' = history w2.
Proof.
  intros Hpass Hfree.
  destruct (locked_call_enter _ podNetwork w
              (TearDownPod_locked_frame podNetwork) Hfree)
    as (w1 & Hlo & Hh & Hl & Hk).
  exists w1. repeat split; auto. intros w2 o Hb.
  unfold TearDownPod, bind at 1. rewrite (checkInitialized_passes _ _ Hpass).
  exact (Hk w2 o Hb).
Qed.


(** *** The initialization check *)

Lemma default_resolvable_spec p :
  default_resolvable p = true
  <-> exists name net,
        resolved_networks p PodNetwork_zero = [name]
        /\ name <> "" /\ networks p !! name = Some net.
Proof.
  unfold default_resolvable, resolved_networks. simpl.
  rewrite andb_true_iff, negb_true_iff, String.eqb_neq, bool_decide_eq_true.
  split.
  - intros [Hne [net Hnet]]. exists (defaultNetName p), net. auto.
  - intros (name & net & [= <-] & Hne & Hnet). eauto.
Qed.

(** C9.  [Status()] returns "cni config uninitialized" unless a network is
    resolvable for a request without explicit networks, that is, unless the
    default network name is set and the registry has a network of that
    name; in that case it returns no error.  It changes nothing. *)
Theorem Status_not_initialized (w : world) :
  Status w
  = (w, Returned
          (if default_resolvable (plugin w) then None
           else Some errUninitialized))
  /\ (default_resolvable (plugin w) = true
      <-> exists name net,
            resolved_networks (plugin w) PodNetwork_zero = [name]
            /\ name <> "" /\ networks (plugin w) !! name = Some net).
Proof.
  split; [|apply default_resolvable_spec].
  unfold Status. rewrite checkInitialized_run. simpl.
  destruct (default_resolvable (plugin w)); reflexivity.
Qed.

(** C10.  [TearDownPod] makes the same check as [SetUpPod]: for a pod
    without explicit networks, when the default network is not
    resolvable, it returns "cni config uninitialized" and leaves the world
    as it was: no entry of the lock table is taken and no call reaches the
    engine. *)
Theorem TearDownPod_not_initialized (podNetwork : PodNetwork) (w : world) :
  Networks podNetwork = [] ->
  default_resolvable (plugin w) = false ->
  TearDownPod podNetwork w = (w, Returned (Some errUninitialized)).
Proof.
  intros Hn Hd. unfold TearDownPod, bind at 1.
  rewrite (checkInitialized_fails _ _ Hn Hd). reflexivity.
Qed.


(** *** [SetUpPod] *)



Lemma calls_for_attach_adds podNetwork i nets :
  Forall (fun c => exists net rt, c = CallAdd net rt)
    (calls_for (attach_call podNetwork) i nets).
Proof.
  apply Forall_forall. intros c Hc.
  apply list_elem_of_lookup in Hc as [j Hj].
  apply calls_for_lookup in Hj as (net & _ & ->). unfold attach_call. eauto.
Qed.




(** C4.  When the attach of a requested network fails after the attaches
    before it succeeded, [SetUpPod] makes no further call: the networks
    attached so far stay attached, nothing is detached.  It returns the
    error of the failed attach with an empty result list, whatever the
    number of networks attached before. *)
Theorem SetUpPod_first_failure (podNetwork : PodNetwork) (w : world)
    (names : list string) (nets : list cniNetwork) (name : string)
    (net : cniNetwork) (rest : list string) (e : error) :
  let p := plugin w in
  let lo := CallAdd (loNetwork p) (runtimeConf podNetwork "lo") in
  let calls := calls_for (attach_call podNetwork) 0 nets in
  let failing := attach_call podNetwork net (ifName_at (length nets)) in
  Networks podNetwork <> [] \/ default_resolvable p = true ->
  pod_mutex_free p podNetwork ->
  has_plugin (loNetwork p) ->
  resolved_networks p podNetwork = (names ++ name :: rest)%list ->
  Forall2 (fun name net => networks p !! name = Some net /\ has_plugin net)
    names nets ->
  networks p !! name = Some net ->
  has_plugin net ->
  Forall (fun x => answer_error x = None) (answers (history w) (lo :: calls)) ->
  answer_error (answer_to (history w ++ lo :: calls) failing) = Some e ->
  exists w',
    SetUpPod podNetwork w = (w', Returned ([], Some e))
    /\ history w' = (history w ++ lo :: calls ++ [failing])%list
    /\ Forall (fun c => exists net rt, c = CallAdd net rt)
         (lo :: calls ++ [failing]).
Proof.
  intros p lo calls failing Hpass Hfree Hlo Hres Hnets Hnet Hlive Hans Hfail.
  destruct (SetUpPod_enter podNetwork w Hpass Hfree)
    as (w1 & Hlock & Hh1 & Hl1 & Hk).
  pose proof (lock_only_fields _ _ Hlock) as (Hlonet & _ & Hn & _).
  pose proof (resolved_networks_lock_only _ _ podNetwork Hlock) as Hr.
  pose proof (SetUpPod_locked_run podNetwork w1 names nets (name :: rest))
    as Hrun.
  cbv zeta in Hrun. rewrite Hlonet, Hn, Hr, Hh1 in Hrun.
  destruct (Hrun Hlo Hres Hnets Hans) as (_ & _ & Hf).
  destruct (Hf name net rest e eq_refl Hnet Hlive Hfail) as (lg & Hbody).
  destruct (Hk _ _ Hbody) as (w' & Hsetup & Hh).
  exists w'. split; [exact Hsetup|]. split; [exact Hh|].
  constructor; [unfold lo; eauto|].
  apply Forall_app. split; [apply calls_for_attach_adds|].
  constructor; [unfold failing, attach_call; eauto | constructor].
Qed.

(** *** [TearDownPod] *)





(** *** Resolution and interface names, for the three entry points *)

Lemma GetPodNetworkStatus_cases podNetwork w w' out :
  GetPodNetworkStatus podNetwork w = (w', out) ->
  (~ pod_mutex_free (plugin w) podNetwork
   /\ out = Blocked /\ history w' = history w)
  \/ (pod_mutex_free (plugin w) podNetwork
      /\ exists w1 w2,
           lock_only (plugin w) (plugin w1)
           /\ history w1 = history w /\ logs w1 = logs w
           /\ GetPodNetworkStatus_locked podNetwork w1 = (w2, out)
           /\ history w' = history w2).
Proof.
  intros Hrun.
  exact (locked_call_cases _ _ _ _ _
           (GetPodNetworkStatus_locked_frame podNetwork) Hrun).
Qed.

Lemma GetPodNetworkStatus_enter podNetwork w :
  pod_mutex_free (plugin w) podNetwork ->
  exists w1,
    lock_only (plugin w) (plugin w1)
    /\ history w1 = history w /\ logs w1 = logs w
    /\ forall w2 o,
         GetPodNetworkStatus_locked podNetwork w1 = (w2, o) ->
         exists w', GetPodNetworkStatus podNetwork w = (w', o)
                    /\ history w' = history w2.
Proof.
  intros Hfree.
  exact (locked_call_enter _ podNetwork w
           (GetPodNetworkStatus_locked_frame podNetwork) Hfree).
Qed.

(** The requested-network calls of [SetUpPod]: the call after the first
    [S j] calls is the attach for the [j]-th resolved name on "eth[j]". *)
Lemma SetUpPod_names podNetwork w w' out :
  SetUpPod podNetwork w = (w', out) ->
  let p := plugin w in
  let names := resolved_networks p podNetwork in
  exists new,
    history w' = (history w ++ new)%list
    /\ (forall j c, new !! S j = Some c ->
          exists name net,
            names !! j = Some name
            /\ networks p !! name = Some net
            /\ c = CallAdd net (runtimeConf podNetwork (ifName_at j)))
    /\ (forall results, out = Returned (results, None) ->
          length new = S (length names)).
Proof.
  intros Hrun p names.
  apply SetUpPod_cases in Hrun
    as [(Hn & Hd & -> & ->) | (Hpass & [(Hheld & -> & Hh') | (Hfree & w1 & w2 & Hlo & Hh1 & Hl1 & Hb & Hh')])].
  - exists []. rewrite app_nil_r. split; [reflexivity|].
    split; [intros j c; discriminate | discriminate].
  - exists []. rewrite app_nil_r. split; [exact Hh'|].
    split; [intros j c; discriminate | discriminate].
  - apply SetUpPod_locked_safety in Hb
      as (Hp2 & Hnb & new & Hh2 & Hdead & Hlive).
    pose proof (lock_only_fields _ _ Hlo) as (Hlonet & _ & Hnets & _).
    pose proof (resolved_networks_lock_only _ _ podNetwork Hlo) as Hres.
    rewrite Hlonet, Hnets, Hres, Hh1 in *. fold p in Hdead, Hlive.
    fold names in Hlive.
    exists new. split; [congruence|].
    assert (Hlp : has_plugin (loNetwork p) \/ ~ has_plugin (loNetwork p)).
    { unfold has_plugin.
      destruct (libcni.Plugins (NetworkConfig (loNetwork p)));
        [right; auto | left; discriminate]. }
    destruct Hlp as [Hl | Hnl].
    + destruct (Hlive Hl) as (rest & -> & Hlofail & Hlook).
      destruct (answer_error
                  (answer_to (history w)
                     (attach_call podNetwork (loNetwork p) "lo")))
        as [e|] eqn:Hans.
      * destruct (Hlofail e eq_refl) as [-> ->].
        split; [intros j c; discriminate | discriminate].
      * destruct (Hlook eq_refl) as (Hpos & Hok & _).
        split; [intros j c Hc; exact (Hpos j c Hc)|].
        intros results Ho. destruct (Hok results Ho) as (Hlen & _).
        simpl. by rewrite Hlen.
    + destruct (Hdead Hnl) as [-> ->].
      split; [intros j c; discriminate | discriminate].
Qed.

Lemma TearDownPod_names podNetwork w w' out :
  TearDownPod podNetwork w = (w', out) ->
  let p := plugin w in
  let names := resolved_networks p podNetwork in
  exists new,
    history w' = (history w ++ new)%list
    /\ (forall j c, new !! j = Some c ->
          exists name net,
            names !! j = Some name
            /\ networks p !! name = Some net
            /\ c = CallDel net (runtimeConf podNetwork (ifName_at j)))
    /\ (out = Returned None -> length new = length names).
Proof.
  intros Hrun p names.
  apply TearDownPod_cases in Hrun
    as [(Hn & Hd & -> & ->) | (Hpass & [(Hheld & -> & Hh) | (Hfree & w1 & w2 & Hlo & Hh1 & Hl1 & Hb & Hh)])].
  - exists []. rewrite app_nil_r. split; [reflexivity|].
    split; [intros j c; discriminate | discriminate].
  - exists []. rewrite app_nil_r. split; [exact Hh|].
    split; [intros j c; discriminate | discriminate].
  - apply TearDownPod_locked_safety in Hb
      as (Hp2 & Hnb & new & Hh2 & Hpos & Hok & _).
    pose proof (lock_only_fields _ _ Hlo) as (_ & _ & Hnets & _).
    pose proof (resolved_networks_lock_only _ _ podNetwork Hlo) as Hres.
    rewrite Hnets, Hres, Hh1 in *. fold p in Hpos. fold names in Hpos, Hok.
    exists new. split; [congruence|]. split; [exact Hpos|].
    intros Ho. by destruct (Hok Ho).
Qed.

Lemma GetPodNetworkStatus_names podNetwork w w' out :
  GetPodNetworkStatus podNetwork w = (w', out) ->
  let p := plugin w in
  let names := resolved_networks p podNetwork in
  exists new,
    history w' = (history w ++ new)%list
    /\ (forall j c, new !! j = Some c ->
          exists name net,
            names !! j = Some name
            /\ networks p !! name = Some net
            /\ c = CallDetails (nsenterPath p) (NetNS podNetwork)
                     (ifName_at j) "-4")
    /\ (forall results, out = Returned (results, None) ->
          length new = length names)
    /\ (forall j c e, new !! j = Some c ->
          answer_error (answer_to (history w ++ take j new) c) = Some e ->
          length new = S j /\ out = Returned ([], Some e)).
Proof.
  intros Hrun p names.
  apply GetPodNetworkStatus_cases in Hrun
    as [(Hheld & -> & Hh) | (Hfree & w1 & w2 & Hlo & Hh1 & Hl1 & Hb & Hh)].
  - exists []. rewrite app_nil_r. split; [exact Hh|].
    split; [intros j c; discriminate|].
    split; [discriminate | intros j c e; discriminate].
  - apply GetPodNetworkStatus_locked_safety in Hb
      as (Hp2 & Hnb & Hnf & new & Hh2 & Hpos & Hok & Hfail).
    pose proof (lock_only_fields _ _ Hlo) as (_ & _ & Hnets & Hns & _).
    pose proof (resolved_networks_lock_only _ _ podNetwork Hlo) as Hres.
    unfold details_call in Hpos.
    rewrite Hnets, Hres, Hh1, ?Hns in *. fold p in Hpos.
    fold names in Hpos, Hok.
    exists new. split; [congruence|].
    split; [exact Hpos|]. split; [|exact Hfail].
    intros results Ho. by destruct (Hok results Ho).
Qed.


Lemma SetUpPod_network_not_found podNetwork w names nets name rest :
  let p := plugin w in
  let lo := CallAdd (loNetwork p) (runtimeConf podNetwork "lo") in
  let calls := calls_for (attach_call podNetwork) 0 nets in
  Networks podNetwork <> [] \/ default_resolvable p = true ->
  pod_mutex_free p podNetwork ->
  has_plugin (loNetwork p) ->
  resolved_networks p podNetwork = (names ++ name :: rest)%list ->
  Forall2 (fun name net => networks p !! name = Some net /\ has_plugin net)
    names nets ->
  networks p !! name = None ->
  Forall (fun x => answer_error x = None) (answers (history w) (lo :: calls)) ->
  exists w',
    SetUpPod podNetwork w = (w', Returned ([], Some (errNetworkNotFound name)))
    /\ history w' = (history w ++ lo :: calls)%list.
Proof.
  intros p lo calls Hpass Hfree Hlo Hres Hnets Hnone Hans.
  destruct (SetUpPod_enter podNetwork w Hpass Hfree)
    as (w1 & Hlock & Hh1 & Hl1 & Hk).
  pose proof (lock_only_fields _ _ Hlock) as (Hlonet & _ & Hn & _).
  pose proof (resolved_networks_lock_only _ _ podNetwork Hlock) as Hr.
  pose proof (SetUpPod_locked_run podNetwork w1 names nets (name :: rest))
    as Hrun.
  cbv zeta in Hrun. rewrite Hlonet, Hn, Hr, Hh1 in Hrun.
  destruct (Hrun Hlo Hres Hnets Hans) as (_ & Hm & _).
  destruct (Hm name rest eq_refl Hnone) as (lg & Hbody).
  destruct (Hk _ _ Hbody) as (w' & Hsetup & Hh).
  exists w'. split; [exact Hsetup | exact Hh].
Qed.

Lemma TearDownPod_network_not_found podNetwork w names nets name rest :
  let p := plugin w in
  let calls := calls_for (detach_call podNetwork) 0 nets in
  Networks podNetwork <> [] \/ default_resolvable p = true ->
  pod_mutex_free p podNetwork ->
  resolved_networks p podNetwork = (names ++ name :: rest)%list ->
  Forall2 (fun name net => networks p !! name = Some net /\ has_plugin net)
    names nets ->
  networks p !! name = None ->
  Forall (fun x => answer_error x = None) (answers (history w) calls) ->
  exists w',
    TearDownPod podNetwork w = (w', Returned (Some (errNetworkNotFound name)))
    /\ history w' = (history w ++ calls)%list.
Proof.
  intros p calls Hpass Hfree Hres Hnets Hnone Hans.
  destruct (TearDownPod_enter podNetwork w Hpass Hfree)
    as (w1 & Hlock & Hh1 & Hl1 & Hk).
  pose proof (lock_only_fields _ _ Hlock) as (_ & _ & Hn & _).
  pose proof (resolved_networks_lock_only _ _ podNetwork Hlock) as Hr.
  pose proof (TearDownPod_locked_run podNetwork w1 names nets (name :: rest))
    as Hrun.
  cbv zeta in Hrun. rewrite Hn, Hr, Hh1 in Hrun.
  destruct (Hrun Hres Hnets Hans) as (_ & Hm & _).
  destruct (Hm name rest eq_refl Hnone) as (lg & Hbody).
  destruct (Hk _ _ Hbody) as (w' & Hdown & Hh).
  exists w'. split; [exact Hdown | exact Hh].
Qed.

Lemma GetPodNetworkStatus_network_not_found podNetwork w names nets name rest :
  let p := plugin w in
  let calls := calls_for (details_call p podNetwork) 0 nets in
  pod_mutex_free p podNetwork ->
  resolved_networks p podNetwork = (names ++ name :: rest)%list ->
  Forall2 (fun name net => networks p !! name = Some net) names nets ->
  networks p !! name = None ->
  Forall (fun x => answer_error x = None) (answers (history w) calls) ->
  exists w',
    GetPodNetworkStatus podNetwork w
    = (w', Returned ([], Some (errNetworkNotFound name)))
    /\ history w' = (history w ++ calls)%list.
Proof.
  intros p calls Hfree Hres Hnets Hnone Hans.
  destruct (GetPodNetworkStatus_enter podNetwork w Hfree)
    as (w1 & Hlock & Hh1 & Hl1 & Hk).
  pose proof (lock_only_fields _ _ Hlock) as (_ & _ & Hn & Hns & _).
  pose proof (resolved_networks_lock_only _ _ podNetwork Hlock) as Hr.
  pose proof (GetPodNetworkStatus_locked_run podNetwork w1 names nets
                (name :: rest)) as Hrun.
  cbv zeta in Hrun. unfold details_call in Hrun.
  rewrite Hn, Hr, Hh1, Hns in Hrun.
  destruct (Hrun Hres Hnets Hans) as (_ & Hm & _).
  destruct (Hm name rest eq_refl Hnone) as (lg & Hbody).
  destruct (Hk _ _ Hbody) as (w' & Hst & Hh).
  exists w'. split; [exact Hst | exact Hh].
Qed.

(** A request with a resolved name that the registry does not have never
    succeeds. *)
Lemma absent_name_no_success (p : cniNetworkPlugin) (names : list string)
    (new : list call) (name : string) (P : nat -> call -> Prop) :
  name ∈ names ->
  networks p !! name = None ->
  length new = length names ->
  (forall j c, new !! j = Some c ->
     exists name' net, names !! j = Some name'
                       /\ networks p !! name' = Some net /\ P j c) ->
  False.
Proof.
  intros Hin Hnone Hlen Hpos.
  apply list_elem_of_lookup in Hin as [j Hj].
  destruct (new !! j) as [c|] eqn:Hc.
  - destruct (Hpos j c Hc) as (name' & net & Hj' & Hnet & _). congruence.
  - apply lookup_ge_None in Hc. apply lookup_lt_Some in Hj. lia.
Qed.


(** C3, amended.  A non-empty explicit list is used as it is, otherwise
    the list holding the default network name.  In [SetUpPod],
    [TearDownPod] and [GetPodNetworkStatus] alike the network registered
    under the [i]-th resolved name is operated on with interface name
    "eth[i]", in order, and success means one operation per resolved name,
    on "eth0" to "eth[N-1]".  A request with a resolved name that the
    registry does not have never succeeds.  It fails with "CNI network not
    found" when the lookup of that name is reached, that is, when the
    operations before it succeeded; a request without explicit networks
    whose default network is not resolvable fails in [SetUpPod] and
    [TearDownPod] with "cni config uninitialized" before that lookup. *)
Theorem resolution_and_interface_names (podNetwork : PodNetwork) (w : world) :
  let p := plugin w in
  let names := resolved_networks p podNetwork in
  names = (if decide (Networks podNetwork = [])
           then [defaultNetName p] else Networks podNetwork)
  /\ (forall i,
        libcni.IfName (runtimeConf podNetwork (ifName_at i))
        = "eth" ++ Go.itoa i)
  /\ (forall w' out,
        SetUpPod podNetwork w = (w', out) ->
        exists new,
          history w' = (history w ++ new)%list
          /\ (forall j c, new !! S j = Some c ->
                exists name net,
                  names !! j = Some name
                  /\ networks p !! name = Some net
                  /\ c = CallAdd net (runtimeConf podNetwork (ifName_at j)))
          /\ (forall results, out = Returned (results, None) ->
                length new = S (length names)))
  /\ (forall w' out,
        TearDownPod podNetwork w = (w', out) ->
        exists new,
          history w' = (history w ++ new)%list
          /\ (forall j c, new !! j = Some c ->
                exists name net,
                  names !! j = Some name
                  /\ networks p !! name = Some net
                  /\ c = CallDel net (runtimeConf podNetwork (ifName_at j)))
          /\ (out = Returned None -> length new = length names))
  /\ (forall w' out,
        GetPodNetworkStatus podNetwork w = (w', out) ->
        exists new,
          history w' = (history w ++ new)%list
          /\ (forall j c, new !! j = Some c ->
                exists name net,
                  names !! j = Some name
                  /\ networks p !! name = Some net
                  /\ c = CallDetails (nsenterPath p) (NetNS podNetwork)
                           (ifName_at j) "-4")
          /\ (forall results, out = Returned (results, None) ->
                length new = length names))
  /\ (forall name,
        name ∈ names -> networks p !! name = None ->
        (forall w' results,
           SetUpPod podNetwork w <> (w', Returned (results, None)))
        /\ (forall w', TearDownPod podNetwork w <> (w', Returned None))
        /\ (forall w' results,
              GetPodNetworkStatus podNetwork w
              <> (w', Returned (results, None))))
  /\ (forall names_ok nets name rest,
        names = (names_ok ++ name :: rest)%list ->
        Forall2 (fun name net => networks p !! name = Some net /\ has_plugin net)
          names_ok nets ->
        networks p !! name = None ->
        pod_mutex_free p podNetwork ->
        (Forall (fun x => answer_error x = None)
           (answers (history w) (calls_for (details_call p podNetwork) 0 nets)) ->
         exists w',
           GetPodNetworkStatus podNetwork w
           = (w', Returned ([], Some (errNetworkNotFound name)))
           /\ history w'
              = (history w ++ calls_for (details_call p podNetwork) 0 nets)%list)
        /\ (Networks podNetwork <> [] ->
            Forall (fun x => answer_error x = None)
              (answers (history w)
                 (calls_for (detach_call podNetwork) 0 nets)) ->
            exists w',
              TearDownPod podNetwork w
              = (w', Returned (Some (errNetworkNotFound name)))
              /\ history w'
                 = (history w ++ calls_for (detach_call podNetwork) 0 nets)%list)
        /\ (Networks podNetwork <> [] ->
            has_plugin (loNetwork p) ->
            Forall (fun x => answer_error x = None)
              (answers (history w)
                 (CallAdd (loNetwork p) (runtimeConf podNetwork "lo")
                  :: calls_for (attach_call podNetwork) 0 nets)) ->
            exists w',
              SetUpPod podNetwork w
              = (w', Returned ([], Some (errNetworkNotFound name)))
              /\ history w'
                 = (history w ++
                    CallAdd (loNetwork p) (runtimeConf podNetwork "lo")
                    :: calls_for (attach_call podNetwork) 0 nets)%list))
  /\ (Networks podNetwork = [] ->
      default_resolvable p = false ->
      SetUpPod podNetwork w = (w, Returned ([], Some errUninitialized))
      /\ TearDownPod podNetwork w = (w, Returned (Some errUninitialized))).
Proof.
  intros p names.
  split; [|split; [|split; [|split; [|split; [|split; [|split]]]]]].
  - unfold names, resolved_networks.
    destruct (Networks podNetwork); reflexivity.
  - reflexivity.
  - intros w' out Hrun. exact (SetUpPod_names _ _ _ _ Hrun).
  - intros w' out Hrun.
    exact (TearDownPod_names _ _ _ _ Hrun).
  - intros w' out Hrun.
    destruct (GetPodNetworkStatus_names _ _ _ _ Hrun)
      as (new & Hh & Hpos & Hok & _).
    exists new. auto.
  - intros name Hin Hnone. split; [|split].
    + intros w' results Hrun.
      destruct (SetUpPod_names _ _ _ _ Hrun) as (new & _ & Hpos & Hok).
      specialize (Hok results eq_refl).
      destruct new as [|c0 new]; [discriminate|].
      eapply (absent_name_no_success p names new name (fun _ _ => True));
        [exact Hin | exact Hnone | by injection Hok |].
      intros j c Hc. destruct (Hpos j c Hc) as (nm & nt & ? & ? & ?).
      exists nm, nt. auto.
    + intros w' Hrun.
      destruct (TearDownPod_names _ _ _ _ Hrun) as (new & _ & Hpos & Hok).
      specialize (Hok eq_refl). rename Hok into Hlen.
      eapply (absent_name_no_success p names new name (fun _ _ => True));
        [exact Hin | exact Hnone | exact Hlen |].
      intros j c Hc. destruct (Hpos j c Hc) as (nm & nt & ? & ? & ?).
      exists nm, nt. auto.
    + intros w' results Hrun.
      destruct (GetPodNetworkStatus_names _ _ _ _ Hrun)
        as (new & _ & Hpos & Hok & _).
      specialize (Hok results eq_refl).
      eapply (absent_name_no_success p names new name (fun _ _ => True));
        [exact Hin | exact Hnone | exact Hok |].
      intros j c Hc. destruct (Hpos j c Hc) as (nm & nt & ? & ? & ?).
      exists nm, nt. auto.
  - intros names_ok nets name rest Hres Hnets Hnone Hfree.
    split; [|split].
    + intros Hans.
      apply (GetPodNetworkStatus_network_not_found podNetwork w names_ok nets
               name rest); auto.
      eapply Forall2_impl; [exact Hnets|]. by intros ?? [? _].
    + intros Hne Hans.
      apply (TearDownPod_network_not_found podNetwork w names_ok nets
               name rest); auto.
    + intros Hne Hlo Hans.
      apply (SetUpPod_network_not_found podNetwork w names_ok nets
               name rest); auto.
  - intros Hn Hd. split.
    + unfold SetUpPod, bind at 1.
      rewrite (checkInitialized_fails _ _ Hn Hd). reflexivity.
    + unfold TearDownPod, bind at 1.
      rewrite (checkInitialized_fails _ _ Hn Hd). reflexivity.
Qed.


(** *** A directory with three files *)

Lemma string_app_cons c s t : String c s ++ t = String c (s ++ t).
Proof. reflexivity. Qed.











Lemma string_app_assoc s t u : (s ++ t) ++ u = s ++ (t ++ u).
Proof.
  induction s as [|c s IH]; [reflexivity|].
  rewrite !string_app_cons. by rewrite IH.
Qed.





(** *** The invariant of the registry *)

Lemma take_files_registry p fs files :
  forall acc k net,
    (forall k net, fst acc !! k = Some net ->
       libcni.Plugins (NetworkConfig net) <> []
       /\ name net = k /\ libcni.Name (NetworkConfig net) = k) ->
    fst (take_files p fs files acc) !! k = Some net ->
    libcni.Plugins (NetworkConfig net) <> []
    /\ name net = k /\ libcni.Name (NetworkConfig net) = k.
Proof.
  induction files as [|f files IH]; intros acc k net Hacc Hk.
  - exact (Hacc k net Hk).
  - rewrite take_files_cons in Hk.
    apply (IH (take_files p fs [f] acc) k net); [|exact Hk].
    clear Hk k net. intros k net. unfold take_files. simpl.
    destruct (network_of_file p fs f) as [net0|] eqn:Hn; [|apply Hacc].
    simpl. rewrite lookup_insert. case_decide as Hk.
    + intros [= <-]. subst k.
      apply network_of_file_name in Hn as (_ & Hname & Hpl & _). auto.
    + apply Hacc.
Qed.

Lemma loaded_registry p fs nets d :
  loaded p fs = Ok (nets, d) ->
  forall k net, nets !! k = Some net ->
    libcni.Plugins (NetworkConfig net) <> []
    /\ name net = k /\ libcni.Name (NetworkConfig net) = k.
Proof.
  unfold loaded.
  destruct (libcni.ConfFiles fs (pluginDir p) _) as [files|]; [|discriminate].
  destruct (length files =? 0)%nat; [discriminate|].
  destruct (size (fst (take_files p fs (Go.sort_Strings files) (∅, ""))) =? 0)%nat;
    [discriminate|].
  intros [= Hacc] k net Hk.
  apply (take_files_registry p fs (Go.sort_Strings files) (∅, "") k net).
  - intros k' net'. simpl. by rewrite lookup_empty.
  - rewrite Hacc. exact Hk.
Qed.



Lemma registry_ok_lock_only p p' :
  lock_only p p' -> registry_ok p -> registry_ok p'.
Proof. intros (m & h & n & ->) Hok. exact Hok. Qed.


(** *** Keys of the lock table *)

Lemma contains_byte_cons c a s :
  contains_byte c (String a s) = Ascii.eqb c a || contains_byte c s.
Proof. reflexivity. Qed.

Lemma app_underscore_inj ns1 :
  forall ns2 n1 n2,
    contains_byte "_" ns1 = false ->
    contains_byte "_" ns2 = false ->
    ns1 ++ "_" ++ n1 = ns2 ++ "_" ++ n2 ->
    ns1 = ns2 /\ n1 = n2.
Proof.
  induction ns1 as [|c ns1 IH]; intros ns2 n1 n2 H1 H2 Heq.
  - destruct ns2 as [|c2 ns2].
    + change (String "_" n1 = String "_" n2) in Heq.
      injection Heq as ->. auto.
    + rewrite contains_byte_cons in H2.
      apply orb_false_iff in H2 as [Hc _].
      simpl in Heq. injection Heq as <- _.
      rewrite Ascii.eqb_refl in Hc. discriminate.
  - destruct ns2 as [|c2 ns2].
    + rewrite contains_byte_cons in H1.
      apply orb_false_iff in H1 as [Hc _].
      simpl in Heq. injection Heq as -> _.
      rewrite Ascii.eqb_refl in Hc. discriminate.
    + rewrite contains_byte_cons in H1, H2.
      apply orb_false_iff in H1 as [_ H1].
      apply orb_false_iff in H2 as [_ H2].
      change (String c (ns1 ++ "_" ++ n1) = String c2 (ns2 ++ "_" ++ n2)) in Heq.
      injection Heq as -> Heq.
      destruct (IH _ _ _ H1 H2 Heq) as [-> ->]. auto.
Qed.

(** X1.  The key of a pod in the lock table.  Two pods whose namespaces
    hold no underscore have the same key only if they have the same
    namespace and the same name.  Without that restriction keys collide:
    the pod [c] of the namespace [a_b] and the pod [b_c] of the namespace
    [a] share one key, hence one lock. *)
Theorem buildFullPodName_injective :
  (forall pn1 pn2 : PodNetwork,
     contains_byte "_" (Namespace pn1) = false ->
     contains_byte "_" (Namespace pn2) = false ->
     buildFullPodName pn1 = buildFullPodName pn2 ->
     Namespace pn1 = Namespace pn2 /\ Name pn1 = Name pn2)
  /\ (forall (a b c : string) (pn : PodNetwork),
        buildFullPodName
          {| Name := c; Namespace := a ++ "_" ++ b; ID := ID pn;
             NetNS := NetNS pn; PortMappings := PortMappings pn;
             Networks := Networks pn |}
        = buildFullPodName
            {| Name := b ++ "_" ++ c; Namespace := a; ID := ID pn;
               NetNS := NetNS pn; PortMappings := PortMappings pn;
               Networks := Networks pn |}).
Proof.
  split.
  - intros pn1 pn2 H1 H2 Heq. unfold buildFullPodName in Heq.
    exact (app_underscore_inj _ _ _ _ H1 H2 Heq).
  - intros a b c pn. unfold buildFullPodName. simpl.
    by rewrite !string_app_assoc.
Qed.

(** *** Mutual exclusion *)

Lemma podLock_entry podNetwork w w1 l :
  podLock podNetwork w = (w1, Returned l) ->
  pods (plugin w1) !! buildFullPodName podNetwork = Some l
  /\ history w1 = history w /\ logs w1 = logs w
  /\ lock_only (plugin w) (plugin w1).
Proof.
  intros Hrun.
  destruct (pods (plugin w) !! buildFullPodName podNetwork) as [l0|] eqn:Hin.
  - rewrite (podLock_present _ _ _ Hin) in Hrun.
    inversion Hrun; subst; clear Hrun. simpl.
    repeat split; auto. solve_lock_only.
  - rewrite (podLock_absent _ _ Hin) in Hrun.
    inversion Hrun; subst; clear Hrun. simpl.
    rewrite lookup_insert_eq. repeat split; auto. solve_lock_only.
Qed.

Lemma Mutex_Lock_returned l w1 w2 :
  Mutex_Lock l w1 = (w2, Returned tt) ->
  pods (plugin w2) = pods (plugin w1)
  /\ mu (podLocks (plugin w1) l) = false
  /\ mu (podLocks (plugin w2) l) = true
  /\ (forall l', l' <> l -> podLocks (plugin w2) l' = podLocks (plugin w1) l')
  /\ history w2 = history w1 /\ logs w2 = logs w1
  /\ lock_only (plugin w1) (plugin w2).
Proof.
  intros Hrun.
  destruct (mu (podLocks (plugin w1) l)) eqn:Hmu.
  - rewrite (Mutex_Lock_held _ _ Hmu) in Hrun. discriminate.
  - rewrite (Mutex_Lock_free _ _ Hmu) in Hrun.
    inversion Hrun; subst; clear Hrun. simpl.
    rewrite heap_set_eq. repeat split; auto.
    + intros l' Hne. by rewrite heap_set_ne.
    + solve_lock_only.
Qed.

(** X2.  Mutual exclusion of the operations on one pod.  Once an
    operation has taken the lock of a pod ([podLock], then [Lock] on the
    mutex it returns), and for as long as the plugin object stays as it
    is, every entry point called for a pod with the same key waits: it
    makes no call to the engine, and it does not return, except that
    [SetUpPod] and [TearDownPod] return the uninitialized error when
    their guard fails, before they touch the lock table. *)
Theorem pod_operations_exclusive (podNetwork other : PodNetwork)
    (w w1 w2 w3 : world) (l : loc) :
  podLock podNetwork w = (w1, Returned l) ->
  Mutex_Lock l w1 = (w2, Returned tt) ->
  plugin w3 = plugin w2 ->
  buildFullPodName other = buildFullPodName podNetwork ->
  (forall w' out,
     SetUpPod other w3 = (w', out) ->
     history w' = history w3
     /\ (out = Blocked
         \/ (out = Returned ([], Some errUninitialized) /\ w' = w3)))
  /\ (forall w' out,
        TearDownPod other w3 = (w', out) ->
        history w' = history w3
        /\ (out = Blocked
            \/ (out = Returned (Some errUninitialized) /\ w' = w3)))
  /\ (forall w' out,
        GetPodNetworkStatus other w3 = (w', out) ->
        history w' = history w3 /\ out = Blocked).
Proof.
  intros Hl Hm Hp Hkey.
  destruct (podLock_entry _ _ _ _ Hl) as (Hin & _).
  destruct (Mutex_Lock_returned _ _ _ Hm) as (Hpods & _ & Hmu & _).
  assert (Hheld : ~ pod_mutex_free (plugin w3) other).
  { unfold pod_mutex_free. rewrite Hp, Hkey, Hpods, Hin, Hmu. discriminate. }
  split; [|split].
  - intros w' out Hrun.
    destruct (SetUpPod_cases _ _ _ _ Hrun)
      as [(_ & _ & -> & ->) | [_ [(_ & -> & Hh) | (Hfree & _)]]].
    + split; [reflexivity|]. right. auto.
    + split; [exact Hh|]. left. reflexivity.
    + contradiction.
  - intros w' out Hrun.
    destruct (TearDownPod_cases _ _ _ _ Hrun)
      as [(_ & _ & -> & ->) | [_ [(_ & -> & Hh) | (Hfree & _)]]].
    + split; [reflexivity|]. right. auto.
    + split; [exact Hh|]. left. reflexivity.
    + contradiction.
  - intros w' out Hrun.
    destruct (GetPodNetworkStatus_cases _ _ _ _ Hrun)
      as [(_ & -> & Hh) | (Hfree & _)].
    + auto.
    + contradiction.
Qed.

(** X3.  Operations on different pods do not wait for each other.  While
    the lock of one pod is held, a pod with another key whose own mutex
    is free keeps a free mutex, and no entry point called for it waits. *)
Theorem other_pods_not_blocked (podNetwork other : PodNetwork)
    (w w1 w2 : world) (l : loc) :
  pods_wf (plugin w) ->
  podLock podNetwork w = (w1, Returned l) ->
  Mutex_Lock l w1 = (w2, Returned tt) ->
  buildFullPodName other <> buildFullPodName podNetwork ->
  pod_mutex_free (plugin w) other ->
  pod_mutex_free (plugin w2) other
  /\ (forall w' out, SetUpPod other w2 = (w', out) -> out <> Blocked)
  /\ (forall w' out, TearDownPod other w2 = (w', out) -> out <> Blocked)
  /\ (forall w' out, GetPodNetworkStatus other w2 = (w', out) -> out <> Blocked).
Proof.
  intros [Hlt Hinj] Hl Hm Hne Hfree.
  assert (Hfree2 : pod_mutex_free (plugin w2) other).
  { destruct (Mutex_Lock_returned _ _ _ Hm) as (Hpods & _ & _ & Hoth & _).
    unfold pod_mutex_free in *. rewrite Hpods.
    destruct (pods (plugin w) !! buildFullPodName podNetwork) as [l0|] eqn:Hin.
    - rewrite (podLock_present _ _ _ Hin) in Hl.
      inversion Hl; subst; clear Hl. simpl in *.
      destruct (pods (plugin w) !! buildFullPodName other) as [l'|] eqn:Hin';
        [|exact I].
      assert (Hll : l' <> l) by (intros ->; apply Hne; eauto).
      rewrite (Hoth _ Hll). by rewrite heap_set_ne.
    - rewrite (podLock_absent _ _ Hin) in Hl.
      inversion Hl; subst; clear Hl. simpl in *.
      rewrite lookup_insert_ne by congruence.
      destruct (pods (plugin w) !! buildFullPodName other) as [l'|] eqn:Hin';
        [|exact I].
      assert (Hll : l' <> nextLoc (plugin w)) by (apply Hlt in Hin'; lia).
      rewrite (Hoth _ Hll). by rewrite !heap_set_ne. }
  split; [exact Hfree2|]. split; [|split].
  - intros w' out Hrun.
    destruct (SetUpPod_cases _ _ _ _ Hrun)
      as [(_ & _ & _ & ->) | [_ [(Hheld & _) | (_ & w1' & w2' & _ & _ & _ & Hb & _)]]].
    + discriminate.
    + contradiction.
    + exact (proj2 (SetUpPod_locked_frame _ _ _ _ Hb)).
  - intros w' out Hrun.
    destruct (TearDownPod_cases _ _ _ _ Hrun)
      as [(_ & _ & _ & ->) | [_ [(Hheld & _) | (_ & w1' & w2' & _ & _ & _ & Hb & _)]]].
    + discriminate.
    + contradiction.
    + exact (proj2 (TearDownPod_locked_frame _ _ _ _ Hb)).
  - intros w' out Hrun.
    destruct (GetPodNetworkStatus_cases _ _ _ _ Hrun)
      as [(Hheld & _) | (_ & w1' & w2' & _ & _ & _ & Hb & _)].
    + contradiction.
    + exact (proj2 (GetPodNetworkStatus_locked_frame _ _ _ _ Hb)).
Qed.


(** *** What an entry point leaves behind *)

Lemma locked_call_frame {A} (body : M A) podNetwork w w' out :
  (forall w1 w2 o, body w1 = (w2, o) -> plugin w2 = plugin w1 /\ o <> Blocked) ->
  (let* l := podLock podNetwork in
   Mutex_Lock l ;; defer (podUnlock podNetwork) body) w = (w', out) ->
  lock_only (plugin w) (plugin w').
Proof.
  intros Hbody Hrun.
  destruct (pod_section body podNetwork w Hbody)
    as [(_ & w0 & Hb & _ & _ & Hlo)
       | (_ & w1 & w2 & o & w0 & _ & _ & _ & _ & Hp & _ & Hlo)].
  - rewrite Hb in Hrun. by injection Hrun as <- <-.
  - rewrite Hp in Hrun. by injection Hrun as <- <-.
Qed.

(** A call for a pod without entry in the lock table that returns has
    removed the entry it made. *)
Lemma locked_call_fresh {A} (body : M A) podNetwork w w' a :
  (forall w1 w2 o, body w1 = (w2, o) -> plugin w2 = plugin w1 /\ o <> Blocked) ->
  pods (plugin w) !! buildFullPodName podNetwork = None ->
  (let* l := podLock podNetwork in
   Mutex_Lock l ;; defer (podUnlock podNetwork) body) w = (w', Returned a) ->
  pods (plugin w') = pods (plugin w).
Proof.
  intros Hbody Habs Hrun.
  unfold bind at 1 in Hrun. rewrite (podLock_absent _ _ Habs) in Hrun.
  unfold bind at 1 in Hrun.
  match type of Hrun with
  | context [Mutex_Lock ?l0 ?w0] =>
      rewrite (Mutex_Lock_free l0 w0) in Hrun
        by (simpl; rewrite heap_set_eq; reflexivity)
  end.
  simpl in Hrun. rewrite heap_set_eq in Hrun. simpl in Hrun.
  match type of Hrun with
  | context [defer _ body ?w0] =>
      remember w0 as wl eqn:Hwl
  end.
  destruct (body wl) as [w2 o] eqn:Hb.
  destruct (Hbody _ _ _ Hb) as [Hp Hnb].
  unfold defer, bind at 1 in Hrun. rewrite Hb in Hrun.
  destruct o as [r| |]; [|discriminate|discriminate].
  assert (Hin : pods (plugin w2) !! buildFullPodName podNetwork
                = Some (nextLoc (plugin w)))
    by (rewrite Hp, Hwl; simpl; by rewrite lookup_insert_eq).
  assert (Hlock : podLocks (plugin w2) (nextLoc (plugin w))
                  = {| refcount := 1; mu := true |})
    by (rewrite Hp, Hwl; simpl; by rewrite heap_set_eq).
  unfold bind at 1 in Hrun.
  rewrite (podUnlock_held _ _ _ Hin) in Hrun
    by (rewrite Hlock; simpl; first [discriminate | reflexivity]).
  rewrite Hlock in Hrun. simpl in Hrun.
  change (Go.uint_wrap (1 - 1) =? 0)%Z with true in Hrun.
  injection Hrun as <- _. simpl.
  rewrite Hp, Hwl. simpl. by apply delete_insert_id.
Qed.

Lemma SetUpPod_lock_only podNetwork w w' out :
  SetUpPod podNetwork w = (w', out) -> lock_only (plugin w) (plugin w').
Proof.
  intros Hrun. unfold SetUpPod in Hrun. unfold bind at 1 in Hrun.
  destruct (checkInitialized_dec podNetwork w) as [[Hn Hd] | Hpass].
  - rewrite (checkInitialized_fails _ _ Hn Hd) in Hrun.
    injection Hrun as <- _. apply lock_only_refl.
  - rewrite (checkInitialized_passes _ _ Hpass) in Hrun.
    exact (locked_call_frame _ _ _ _ _ (SetUpPod_locked_frame podNetwork) Hrun).
Qed.

Lemma TearDownPod_lock_only podNetwork w w' out :
  TearDownPod podNetwork w = (w', out) -> lock_only (plugin w) (plugin w').
Proof.
  intros Hrun. unfold TearDownPod in Hrun. unfold bind at 1 in Hrun.
  destruct (checkInitialized_dec podNetwork w) as [[Hn Hd] | Hpass].
  - rewrite (checkInitialized_fails _ _ Hn Hd) in Hrun.
    injection Hrun as <- _. apply lock_only_refl.
  - rewrite (checkInitialized_passes _ _ Hpass) in Hrun.
    exact (locked_call_frame _ _ _ _ _
             (TearDownPod_locked_frame podNetwork) Hrun).
Qed.

Lemma GetPodNetworkStatus_lock_only podNetwork w w' out :
  GetPodNetworkStatus podNetwork w = (w', out) ->
  lock_only (plugin w) (plugin w').
Proof.
  intros Hrun.
  exact (locked_call_frame _ _ _ _ _
           (GetPodNetworkStatus_locked_frame podNetwork) Hrun).
Qed.

(** X4.  The entry points change nothing of the plugin object but the
    lock table: the registry, the default network name, the loopback
    network and the directories are the same after a call as before it,
    however the call ends. *)
Theorem entry_points_keep_registry (podNetwork : PodNetwork) (w : world) :
  (forall w' out,
     SetUpPod podNetwork w = (w', out) ->
     lock_only (plugin w) (plugin w')
     /\ networks (plugin w') = networks (plugin w)
     /\ defaultNetName (plugin w') = defaultNetName (plugin w)
     /\ loNetwork (plugin w') = loNetwork (plugin w))
  /\ (forall w' out,
        TearDownPod podNetwork w = (w', out) ->
        lock_only (plugin w) (plugin w')
        /\ networks (plugin w') = networks (plugin w)
        /\ defaultNetName (plugin w') = defaultNetName (plugin w)
        /\ loNetwork (plugin w') = loNetwork (plugin w))
  /\ (forall w' out,
        GetPodNetworkStatus podNetwork w = (w', out) ->
        lock_only (plugin w) (plugin w')
        /\ networks (plugin w') = networks (plugin w)
        /\ defaultNetName (plugin w') = defaultNetName (plugin w)
        /\ loNetwork (plugin w') = loNetwork (plugin w)).
Proof.
  assert (Hfields : forall p p',
            lock_only p p' ->
            lock_only p p' /\ networks p' = networks p
            /\ defaultNetName p' = defaultNetName p
            /\ loNetwork p' = loNetwork p).
  { intros p p' Hlo.
    destruct (lock_only_fields _ _ Hlo) as (? & ? & ? & _). auto. }
  split; [|split]; intros w' out Hrun; apply Hfields.
  - exact (SetUpPod_lock_only _ _ _ _ Hrun).
  - exact (TearDownPod_lock_only _ _ _ _ Hrun).
  - exact (GetPodNetworkStatus_lock_only _ _ _ _ Hrun).
Qed.

(** X5.  No entry point leaks a pod lock.  When the pod has no entry in
    the lock table, a call that returns, with or without an error,
    leaves the table with the entries it had before the call. *)
Theorem entry_points_release_pod_lock (podNetwork : PodNetwork) (w : world) :
  pods (plugin w) !! buildFullPodName podNetwork = None ->
  (forall w' r,
     SetUpPod podNetwork w = (w', Returned r) ->
     pods (plugin w') = pods (plugin w))
  /\ (forall w' r,
        TearDownPod podNetwork w = (w', Returned r) ->
        pods (plugin w') = pods (plugin w))
  /\ (forall w' r,
        GetPodNetworkStatus podNetwork w = (w', Returned r) ->
        pods (plugin w') = pods (plugin w)).
Proof.
  intros Habs. split; [|split]; intros w' r Hrun.
  - unfold SetUpPod in Hrun. unfold bind at 1 in Hrun.
    destruct (checkInitialized_dec podNetwork w) as [[Hn Hd] | Hpass].
    + rewrite (checkInitialized_fails _ _ Hn Hd) in Hrun.
      by injection Hrun as <- _.
    + rewrite (checkInitialized_passes _ _ Hpass) in Hrun.
      exact (locked_call_fresh _ _ _ _ _
               (SetUpPod_locked_frame podNetwork) Habs Hrun).
  - unfold TearDownPod in Hrun. unfold bind at 1 in Hrun.
    destruct (checkInitialized_dec podNetwork w) as [[Hn Hd] | Hpass].
    + rewrite (checkInitialized_fails _ _ Hn Hd) in Hrun.
      by injection Hrun as <- _.
    + rewrite (checkInitialized_passes _ _ Hpass) in Hrun.
      exact (locked_call_fresh _ _ _ _ _
               (TearDownPod_locked_frame podNetwork) Habs Hrun).
  - exact (locked_call_fresh _ _ _ _ _
             (GetPodNetworkStatus_locked_frame podNetwork) Habs Hrun).
Qed.

Lemma getLoNetwork_has_plugin dirs prefix :
  has_plugin (getLoNetwork dirs prefix).
Proof. unfold has_plugin. simpl. discriminate. Qed.

Lemma registry_ok_has_plugin p p' :
  registry_ok p -> lock_only p p' ->
  has_plugin (loNetwork p')
  /\ forall k net, networks p' !! k = Some net -> has_plugin net.
Proof.
  intros Hok Hlo.
  destruct (registry_ok_lock_only _ _ Hlo Hok) as [Hnets Hlo'].
  split.
  - rewrite Hlo'. apply getLoNetwork_has_plugin.
  - intros k net Hk. exact (proj1 (Hnets _ _ Hk)).
Qed.





(** *** The outcome of a load *)

Lemma sort_Strings_perm l l' :
  l ≡ₚ l' -> Go.sort_Strings l = Go.sort_Strings l'.
Proof.
  intros Hperm. unfold Go.sort_Strings.
  apply (Sorted_unique String.le).
  - apply Sorted_merge_sort. apply _.
  - apply Sorted_merge_sort. apply _.
  - by rewrite !merge_sort_Permutation.
Qed.

Lemma network_of_file_ext p fs fs' f :
  (forall f, libcni.ConfListFromFile fs' f = libcni.ConfListFromFile fs f) ->
  (forall f, libcni.ConfFromFile fs' f = libcni.ConfFromFile fs f) ->
  (forall c, libcni.ConfListFromConf fs' c = libcni.ConfListFromConf fs c) ->
  network_of_file p fs' f = network_of_file p fs f.
Proof.
  intros H1 H2 H3. unfold network_of_file, file_confList.
  rewrite H1, H2.
  destruct (libcni.ConfFromFile fs f) as [conf|]; [|reflexivity].
  by rewrite H3.
Qed.

Lemma take_files_ext p fs fs' files :
  (forall f, network_of_file p fs' f = network_of_file p fs f) ->
  forall acc, take_files p fs' files acc = take_files p fs files acc.
Proof.
  intros Hext. induction files as [|f files IH]; intros acc; [reflexivity|].
  rewrite (take_files_cons p fs'), (take_files_cons p fs), IH. f_equal.
  unfold take_files. simpl. by rewrite Hext.
Qed.

(** X7.  What a load returns does not depend on the order in which the
    directory lists its files: two listings with the same files, read by
    the same readers, give the same registry and the same default network
    name, or the same error. *)
Theorem load_independent_of_listing_order (fs fs' : libcni.FS) (w : world)
    (files files' : list string) :
  libcni.ConfFiles fs (pluginDir (plugin w)) [".conf"; ".conflist"; ".json"]
  = Ok files ->
  libcni.ConfFiles fs' (pluginDir (plugin w)) [".conf"; ".conflist"; ".json"]
  = Ok files' ->
  files ≡ₚ files' ->
  (forall f, libcni.ConfListFromFile fs' f = libcni.ConfListFromFile fs f) ->
  (forall f, libcni.ConfFromFile fs' f = libcni.ConfFromFile fs f) ->
  (forall c, libcni.ConfListFromConf fs' c = libcni.ConfListFromConf fs c) ->
  exists lg lg' r,
    loadNetworks fs w = (add_logs w lg, Returned r)
    /\ loadNetworks fs' w = (add_logs w lg', Returned r).
Proof.
  intros Hfiles Hfiles' Hperm H1 H2 H3.
  destruct (loadNetworks_run fs w) as (lg & Hrun & _).
  destruct (loadNetworks_run fs' w) as (lg' & Hrun' & _).
  exists lg, lg', (loaded (plugin w) fs). split; [exact Hrun|].
  rewrite Hrun'. do 2 f_equal.
  unfold loaded. rewrite Hfiles, Hfiles'.
  rewrite <- (Permutation_length Hperm).
  rewrite <- (sort_Strings_perm _ _ Hperm).
  rewrite (take_files_ext (plugin w) fs fs'); [reflexivity|].
  intros f. by apply network_of_file_ext.
Qed.

Lemma take_files_snd p fs files :
  forall acc,
    snd (take_files p fs files acc)
    = if String.eqb (snd acc) "" then
        match head (filter (fun f => usable_file fs f = true) files) with
        | Some f => from_option name "" (network_of_file p fs f)
        | None => ""
        end
      else snd acc.
Proof.
  induction files as [|f files IH]; intros acc.
  - simpl. destruct (String.eqb_spec (snd acc) ""); auto.
  - rewrite take_files_cons, IH. rewrite filter_cons.
    pose proof (usable_file_network p fs f) as Hu.
    unfold take_files at 1 2. simpl.
    destruct (network_of_file p fs f) as [net|] eqn:Hn; simpl.
    + assert (Hus : usable_file fs f = true) by (apply Hu; eauto).
      destruct (decide (usable_file fs f = true)); [|contradiction].
      simpl. rewrite Hn. simpl.
      destruct (network_of_file_name _ _ _ _ Hn) as (Hne & _).
      destruct (String.eqb_spec (snd acc) "") as [He|He].
      * apply String.eqb_neq in Hne. by rewrite Hne.
      * apply String.eqb_neq in He. by rewrite He.
    + assert (Hus : usable_file fs f <> true).
      { intros Hus. apply Hu in Hus as [? ?]. discriminate. }
      destruct (decide (usable_file fs f = true)); [contradiction|].
      reflexivity.
Qed.

Lemma take_files_lookup p fs files k :
  forall acc,
    fst (take_files p fs files acc) !! k
    = match last (files_named p fs k files) with
      | Some f => network_of_file p fs f
      | None => fst acc !! k
      end.
Proof.
  induction files as [|f files IH]; intros acc; [reflexivity|].
  rewrite take_files_cons, IH. unfold files_named. rewrite filter_cons.
  fold (files_named p fs k files).
  unfold take_files at 1. simpl.
  destruct (decide (name <$> network_of_file p fs f = Some k)) as [Hk|Hk].
  - rewrite last_cons.
    destruct (last (files_named p fs k files)) as [f'|]; [reflexivity|].
    destruct (network_of_file p fs f) as [net|]; [|discriminate].
    simpl in *. injection Hk as <-. by rewrite lookup_insert_eq.
  - destruct (last (files_named p fs k files)) as [f'|]; [reflexivity|].
    destruct (network_of_file p fs f) as [net|]; [|reflexivity].
    simpl in *. rewrite lookup_insert_ne; [reflexivity|congruence].
Qed.

Lemma loadNetworks_loaded fs w w' r :
  loadNetworks fs w = (w', Returned r) -> r = loaded (plugin w) fs.
Proof.
  intros Hrun. destruct (loadNetworks_run fs w) as (lg & Hrun' & _).
  rewrite Hrun' in Hrun. by injection Hrun as _ <-.
Qed.

Lemma loaded_Ok p fs nets d :
  loaded p fs = Ok (nets, d) ->
  exists files,
    libcni.ConfFiles fs (pluginDir p) [".conf"; ".conflist"; ".json"] = Ok files
    /\ (nets, d) = take_files p fs (Go.sort_Strings files) (∅, "").
Proof.
  unfold loaded.
  destruct (libcni.ConfFiles fs (pluginDir p) [".conf"; ".conflist"; ".json"])
    as [files|]; [|discriminate].
  destruct (length files =? 0)%nat; [discriminate|].
  destruct (size (fst (take_files p fs (Go.sort_Strings files) (∅, ""))) =? 0)%nat;
    [discriminate|].
  intros [= <-]. eauto.
Qed.

(** X8.  The default network name a load returns is the name of the
    network of the first usable file in byte-wise order of the file
    names, whatever the other files hold, and the registry the load
    returns has a network of that name. *)
Theorem load_default_is_first_usable_file (fs : libcni.FS) (w w' : world)
    (nets : gmap string cniNetwork) (d : string) :
  loadNetworks fs w = (w', Returned (Ok (nets, d))) ->
  exists files f net,
    libcni.ConfFiles fs (pluginDir (plugin w)) [".conf"; ".conflist"; ".json"]
    = Ok files
    /\ head (filter (fun f => usable_file fs f = true) (Go.sort_Strings files))
       = Some f
    /\ network_of_file (plugin w) fs f = Some net
    /\ d = name net
    /\ d <> ""
    /\ is_Some (nets !! d).
Proof.
  intros Hrun. apply loadNetworks_loaded in Hrun. symmetry in Hrun.
  pose proof (loaded_default_nonempty _ _ _ _ Hrun) as Hd.
  destruct (loaded_Ok _ _ _ _ Hrun) as (files & Hfiles & Htake).
  exists files.
  pose proof (take_files_snd (plugin w) fs (Go.sort_Strings files) (∅, ""))
    as Hsnd.
  rewrite <- Htake in Hsnd. simpl in Hsnd.
  destruct (head (filter (fun f => usable_file fs f = true)
                    (Go.sort_Strings files))) as [f|] eqn:Hhead;
    [|contradiction].
  pose proof (head_Some_elem_of _ _ Hhead) as Hin.
  apply list_elem_of_filter in Hin as [Hus Hin].
  apply (usable_file_network (plugin w)) in Hus as [net Hn].
  rewrite Hn in Hsnd. simpl in Hsnd.
  exists f, net. split; [exact Hfiles|]. split; [reflexivity|].
  split; [exact Hn|]. split; [exact Hsnd|]. split; [exact Hd|].
  rewrite Hsnd. change nets with (fst (nets, d)). rewrite Htake.
  by eapply take_files_member.
Qed.

(** X9.  The registry a load returns, key by key: the configuration
    under the name [k] is the configuration of the last file, in
    byte-wise order of the file names, that yields a network named [k];
    when two files declare the same name the later one replaces the
    earlier one.  A name no file yields is not in the registry, and every
    network of the registry is kept under its name and has the
    configuration of a listed file. *)
Theorem load_last_file_wins (fs : libcni.FS) (w w' : world)
    (nets : gmap string cniNetwork) (d : string) :
  loadNetworks fs w = (w', Returned (Ok (nets, d))) ->
  exists files,
    libcni.ConfFiles fs (pluginDir (plugin w)) [".conf"; ".conflist"; ".json"]
    = Ok files
    /\ (forall k,
          NetworkConfig <$> nets !! k
          = match last (files_named (plugin w) fs k (Go.sort_Strings files)) with
            | Some f => NetworkConfig <$> network_of_file (plugin w) fs f
            | None => None
            end)
    /\ (forall k net,
          nets !! k = Some net ->
          name net = k
          /\ exists f,
               f ∈ files
               /\ NetworkConfig <$> network_of_file (plugin w) fs f
                  = Some (NetworkConfig net)).
Proof.
  intros Hrun. apply loadNetworks_loaded in Hrun. symmetry in Hrun.
  destruct (loaded_Ok _ _ _ _ Hrun) as (files & Hfiles & Htake).
  exists files. split; [exact Hfiles|].
  assert (Hk : forall k,
            nets !! k
            = match last (files_named (plugin w) fs k (Go.sort_Strings files)) with
              | Some f => network_of_file (plugin w) fs f
              | None => None
              end).
  { intros k. change nets with (fst (nets, d)). rewrite Htake.
    rewrite take_files_lookup. simpl.
    destruct (last _); [reflexivity | apply lookup_empty]. }
  split.
  - intros k. rewrite Hk. by destruct (last _).
  - intros k net Hnet. rewrite Hk in Hnet.
    destruct (last (files_named (plugin w) fs k (Go.sort_Strings files)))
      as [f|] eqn:Hlast; [|discriminate].
    apply last_Some_elem_of in Hlast.
    apply list_elem_of_filter in Hlast as [Hname Hin].
    split.
    + rewrite Hnet in Hname. simpl in Hname. congruence.
    + exists f. split; [|by rewrite Hnet].
      unfold Go.sort_Strings in Hin. by rewrite merge_sort_Permutation in Hin.
Qed.

(** *** Reloading the registry *)

Lemma syncNetworkConfig_cases fs w :
  (exists e lg,
     loaded (plugin w) fs = Err e
     /\ syncNetworkConfig fs w = (add_logs w lg, Returned (Some e)))
  \/ (exists nets d lg,
        loaded (plugin w) fs = Ok (nets, d)
        /\ syncNetworkConfig fs w
           = ({| plugin :=
                   set_registry
                     (if String.eqb (defaultNetName (plugin w)) ""
                      then d else defaultNetName (plugin w))
                     nets (plugin w);
                 history := history w; logs := logs w ++ lg |},
              Returned None)).
Proof.
  destruct (syncNetworkConfig_run fs w) as (lg & Hrun).
  destruct (loaded (plugin w) fs) as [[nets d]|e].
  - right. exists nets, d, lg. auto.
  - left. exists e. eexists. eauto.
Qed.

Lemma loaded_set_registry d n p fs :
  loaded (set_registry d n p) fs = loaded p fs.
Proof. reflexivity. Qed.

Lemma loaded_err_iff p fs :
  is_Err (loaded p fs) = true <-> usable_files fs (pluginDir p) = [].
Proof.
  unfold loaded, usable_files.
  destruct (libcni.ConfFiles fs (pluginDir p) [".conf"; ".conflist"; ".json"])
    as [files|err]; [|simpl; split; reflexivity].
  assert (Hfilter :
    filter (fun f => usable_file fs f = true) files = []
    <-> Forall (fun f => usable_file fs f = false) files).
  { rewrite filter_nil_Forall. apply Forall_proper; [|reflexivity].
    intros f. destruct (usable_file fs f); split; congruence. }
  destruct (length files =? 0)%nat eqn:Hlen.
  - apply Nat.eqb_eq in Hlen. destruct files; [|discriminate]. simpl.
    split; reflexivity.
  - assert (Hperm : Go.sort_Strings files ≡ₚ files)
      by apply merge_sort_Permutation.
    assert (Hfp :
      Forall (fun f => usable_file fs f = false) (Go.sort_Strings files)
      <-> Forall (fun f => usable_file fs f = false) files)
      by (by rewrite Hperm).
    pose proof (take_files_empty p fs (Go.sort_Strings files) (∅, "")) as He.
    simpl in He. rewrite Hfilter, <- Hfp.
    destruct (size (fst (take_files p fs (Go.sort_Strings files) (∅, ""))) =? 0)%nat
      eqn:Hsz; simpl.
    + apply Nat.eqb_eq, map_size_empty_iff in Hsz. apply He in Hsz.
      split; [intros _; exact (proj2 Hsz) | reflexivity].
    + apply Nat.eqb_neq in Hsz. rewrite map_size_empty_iff in Hsz.
      split; [discriminate|]. intros Hall. exfalso. apply Hsz, He. auto.
Qed.

Lemma loaded_default_registered p fs nets d :
  loaded p fs = Ok (nets, d) -> is_Some (nets !! d).
Proof.
  intros Hl.
  pose proof (loaded_default_nonempty _ _ _ _ Hl) as Hd.
  destruct (loaded_Ok _ _ _ _ Hl) as (files & Hfiles & Htake).
  pose proof (take_files_snd p fs (Go.sort_Strings files) (∅, "")) as Hsnd.
  rewrite <- Htake in Hsnd. simpl in Hsnd.
  destruct (head (filter (fun f => usable_file fs f = true)
                    (Go.sort_Strings files))) as [f|] eqn:Hhead;
    [|contradiction].
  pose proof (head_Some_elem_of _ _ Hhead) as Hin.
  apply list_elem_of_filter in Hin as [Hus Hin].
  apply (usable_file_network p) in Hus as [net Hn].
  rewrite Hn in Hsnd. simpl in Hsnd.
  rewrite Hsnd. change nets with (fst (nets, d)). rewrite Htake.
  by eapply take_files_member.
Qed.


(** X11.  Reloading is idempotent: a second reload of the same directory
    right after the first one returns what the first one returned and
    leaves the plugin object as the first one left it. *)
Theorem reload_idempotent (fs : libcni.FS) (w w1 w2 : world)
    (out1 out2 : outcome (option error)) :
  syncNetworkConfig fs w = (w1, out1) ->
  syncNetworkConfig fs w1 = (w2, out2) ->
  out2 = out1 /\ plugin w2 = plugin w1.
Proof.
  intros H1 H2.
  destruct (syncNetworkConfig_cases fs w)
    as [(e & lg & Hl & Hs) | (nets & d & lg & Hl & Hs)];
    rewrite Hs in H1; injection H1 as <- <-.
  - destruct (syncNetworkConfig_cases fs (add_logs w lg))
      as [(e' & lg' & Hl' & Hs') | (nets' & d' & lg' & Hl' & Hs')];
      rewrite Hs' in H2; injection H2 as <- <-; simpl in Hl';
      rewrite Hl in Hl'; [|discriminate].
    injection Hl' as <-. auto.
  - pose proof (loaded_default_nonempty _ _ _ _ Hl) as Hd.
    match type of H2 with
    | syncNetworkConfig fs ?w0 = _ =>
        destruct (syncNetworkConfig_cases fs w0)
          as [(e' & lg' & Hl' & Hs') | (nets' & d' & lg' & Hl' & Hs')];
          rewrite Hs' in H2; injection H2 as <- <-; simpl in Hl';
          rewrite loaded_set_registry, Hl in Hl'; [discriminate|]
    end.
    injection Hl' as <- <-. split; [reflexivity|]. simpl.
    destruct (String.eqb_spec (defaultNetName (plugin w)) "") as [He|He].
    + apply String.eqb_neq in Hd. rewrite Hd. reflexivity.
    + apply String.eqb_neq in He. rewrite He. reflexivity.
Qed.


(** *** The constructor and the directory watcher *)

Lemma getDefaultNetwork_resolvable w :
  exists d,
    getDefaultNetwork w = (w, Returned d)
    /\ (is_Some d <-> default_resolvable (plugin w) = true).
Proof.
  unfold getDefaultNetwork, getDefaultNetworkName, getNetwork,
    default_resolvable. run.
  destruct (String.eqb (defaultNetName (plugin w)) ""); simpl.
  - exists None. split; [reflexivity|]. split; [intros [? [=]] | discriminate].
  - destruct (networks (plugin w) !! defaultNetName (plugin w)) as [net|];
      simpl.
    + exists (Some net). split; [reflexivity|]. split; [|eauto].
      intros _. first [reflexivity | apply bool_decide_eq_true; eauto].
    + exists None. split; [reflexivity|].
      split; [intros [? [=]]|]. intros H.
      first [discriminate | apply bool_decide_eq_true in H as [? [=]]].
Qed.

Lemma Status_run w :
  Status w
  = (w, Returned (if default_resolvable (plugin w) then None
                  else Some errUninitialized)).
Proof.
  unfold Status. rewrite checkInitialized_run. simpl.
  by destruct (default_resolvable (plugin w)).
Qed.

(** X12.  [InitCNI] fails only when [nsenter] is not found or the
    configuration directory cannot be inspected, with the error of the
    lookup or of [os.Stat]; the lookup comes first.  A first load that
    fails does not make it fail.  The plugin it returns has the executable
    found, the directory given or else the default one, the plugin
    directories given or else the default one, the loopback network "lo"
    with the hard-coded configuration, an empty lock table and an open
    watcher channel; no call has been made to the engine. *)
Theorem InitCNI_failures (os : OS) (fs : libcni.FS) (d dir : string)
    (dirs : list string) :
  let dir' := if String.eqb dir "" then DefaultNetDir else dir in
  let dirs' := if (length dirs =? 0)%nat then [DefaultCNIDir] else dirs in
  (forall e,
     InitCNI os fs d dir dirs = Err e
     <-> LookPath os "nsenter" = Err e
         \/ (exists path, LookPath os "nsenter" = Ok path
                          /\ Stat os dir' = Some e))
  /\ (forall w0 b,
        InitCNI os fs d dir dirs = Ok (w0, b) ->
        LookPath os "nsenter" = Ok (nsenterPath (plugin w0))
        /\ Stat os dir' = None
        /\ pluginDir (plugin w0) = dir'
        /\ cniDirs (plugin w0) = dirs'
        /\ vendorCNIDirPrefix (plugin w0) = ""
        /\ name (loNetwork (plugin w0)) = "lo"
        /\ NetworkConfig (loNetwork (plugin w0)) = loConfig
        /\ pods (plugin w0) = ∅
        /\ monitorNetDirChan_closed (plugin w0) = false
        /\ history w0 = []).
Proof.
  intros dir' dirs'. unfold InitCNI. fold dir' dirs'.
  destruct (LookPath os "nsenter") as [path|e0].
  - destruct (Stat os dir') as [e1|].
    + split.
      * intros e. split.
        -- intros [= <-]. right. eauto.
        -- intros [[=] | (path' & _ & [= <-])]. reflexivity.
      * intros w0 b [=].
    + match goal with
      | |- context [syncNetworkConfig fs ?w] =>
          destruct (syncNetworkConfig_cases fs w)
            as [(e & lg & Hl & Hs) | (nets & d' & lg & Hl & Hs)];
            rewrite Hs
      end.
      * split.
        -- intros e'. split; [discriminate|].
           intros [[=] | (path' & _ & [=])].
        -- intros w0 b [= <- <-]. simpl. repeat split; reflexivity.
      * split.
        -- intros e'. split; [discriminate|].
           intros [[=] | (path' & _ & [=])].
        -- intros w0 b [= <- <-]. simpl. repeat split; reflexivity.
  - split.
    + intros e. split.
      * intros [= <-]. left. reflexivity.
      * intros [[= <-] | (path' & [=] & _)]. reflexivity.
    + intros w0 b [=].
Qed.

(** X13.  [InitCNI] starts the directory watcher exactly when the first
    load fails, that is when the directory yields no usable file.  The
    plugin is then not initialized.  When no default network name is
    given and the first load succeeds, the plugin is initialized.  When a
    name is given and the first load succeeds, the plugin is initialized
    only if a network of that name was loaded; no watcher runs either
    way. *)
Theorem InitCNI_starts_watcher_iff_load_fails (os : OS) (fs : libcni.FS)
    (d dir : string) (dirs : list string) (w0 : world) (b : bool) :
  InitCNI os fs d dir dirs = Ok (w0, b) ->
  (b = true <-> usable_files fs (pluginDir (plugin w0)) = [])
  /\ (b = true ->
      networks (plugin w0) = ∅
      /\ defaultNetName (plugin w0) = d
      /\ Status w0 = (w0, Returned (Some errUninitialized)))
  /\ (b = false -> d = "" -> Status w0 = (w0, Returned None))
  /\ (b = false -> d <> "" ->
      defaultNetName (plugin w0) = d
      /\ Status w0
         = (w0, Returned (if bool_decide (is_Some (networks (plugin w0) !! d))
                          then None else Some errUninitialized))).
Proof.
  unfold InitCNI.
  destruct (LookPath os "nsenter") as [path|]; [|discriminate].
  destruct (Stat os _); [discriminate|].
  match goal with
  | |- context [syncNetworkConfig fs ?w] =>
      pose proof (loaded_err_iff (plugin w) fs) as Hiff;
      destruct (syncNetworkConfig_cases fs w)
        as [(e & lg & Hl & Hs) | (nets & d' & lg & Hl & Hs)];
      rewrite Hs
  end; simpl in Hl, Hiff; rewrite Hl in Hiff; simpl in Hiff;
    intros [= <- <-]; rewrite Status_run; unfold default_resolvable; simpl.
  - split; [tauto|]. split; [|split; discriminate].
    intros _. split; [reflexivity|]. split; [reflexivity|].
    assert (Hno : bool_decide (is_Some ((∅ : gmap string cniNetwork) !! d))
                  = false).
    { apply bool_decide_eq_false. rewrite lookup_empty. intros [? [=]]. }
    rewrite Hno, andb_false_r. reflexivity.
  - split.
    { split; [discriminate|]. intros Hnil.
      destruct Hiff as [_ Hiff]. specialize (Hiff Hnil). discriminate. }
    split; [discriminate|].
    pose proof (loaded_default_nonempty _ _ _ _ Hl) as Hd.
    pose proof (loaded_default_registered _ _ _ _ Hl) as Hreg.
    split.
    + intros _ ->. simpl.
      apply String.eqb_neq in Hd. rewrite Hd. simpl.
      rewrite bool_decide_eq_true_2 by exact Hreg. reflexivity.
    + intros _ Hne. apply String.eqb_neq in Hne. rewrite Hne. simpl.
      split; [reflexivity|].
      rewrite ?Hne. simpl.
      destruct (bool_decide (is_Some (nets !! d))); reflexivity.
Qed.

Lemma monitorNetDir_loop_event op fs rest w :
  let ignored :=
    negb (N.land op fsnotify.Create =? fsnotify.Create)%N
    && negb (N.land op fsnotify.Write =? fsnotify.Write)%N in
  exists w1,
    history w1 = history w
    /\ pods (plugin w1) = pods (plugin w)
    /\ monitorNetDirChan_closed (plugin w1)
       = monitorNetDirChan_closed (plugin w)
    /\ (ignored = true -> plugin w1 = plugin w)
    /\ (plugin w1 = plugin w
        \/ exists nets d d',
             loaded (plugin w) fs = Ok (nets, d)
             /\ plugin w1 = set_registry d' nets (plugin w))
    /\ ((monitorNetDir_loop (WatcherEvent op fs :: rest) w
         = monitorNetDir_loop rest w1
         /\ (default_resolvable (plugin w) = false ->
             default_resolvable (plugin w1) = false))
        \/ (ignored = false
            /\ default_resolvable (plugin w1) = true
            /\ exists lg,
                 monitorNetDir_loop (WatcherEvent op fs :: rest) w
                 = ({| plugin := close_monitorNetDirChan (plugin w1);
                       history := history w1; logs := lg |},
                    Returned tt))).
Proof.
  intros ignored.
  remember (monitorNetDir_loop (WatcherEvent op fs :: rest) w) as R eqn:HR.
  simpl in HR. fold ignored in HR. unfold bind at 1, logf at 1 in HR.
  remember {| plugin := plugin w; history := history w;
              logs := logs w ++ [(Debug, MsgMonitorEvent)] |} as w0 eqn:Hw0.
  assert (Hp0 : plugin w0 = plugin w) by (subst w0; reflexivity).
  assert (Hh0 : history w0 = history w) by (subst w0; reflexivity).
  clear Hw0. rewrite <- Hp0, <- Hh0. clear Hp0 Hh0.
  destruct ignored.
  - exists w0. repeat split; auto.
  - destruct (syncNetworkConfig_cases fs w0)
      as [(e & lg & Hl & Hs) | (nets & d & lg & Hl & Hs)];
      unfold bind at 1 in HR; rewrite Hs in HR.
    + unfold bind at 1, logf at 1 in HR. simpl in HR.
      eexists {| plugin := plugin w0; history := history w0; logs := _ |}.
      simpl. split; [reflexivity|]. split; [reflexivity|].
      split; [reflexivity|]. split; [reflexivity|].
      split; [by left|]. left.
      split; [exact HR | auto].
    + unfold bind at 1 in HR.
      match type of HR with
      | context [getDefaultNetwork ?w1] =>
          destruct (getDefaultNetwork_resolvable w1) as (dn & Hg & Hres);
          rewrite Hg in HR; exists w1
      end.
      simpl. split; [reflexivity|]. split; [reflexivity|].
      split; [reflexivity|]. split; [discriminate|].
      split; [right; exists nets, d; eexists; split; [exact Hl | reflexivity]|].
      destruct dn as [net|].
      * right. split; [reflexivity|]. split; [apply Hres; eauto|].
        eexists. rewrite HR. reflexivity.
      * left. split; [exact HR|]. intros _.
        match goal with
        | |- ?b = false => destruct b eqn:Hdd; [|reflexivity]
        end.
        destruct Hres as [_ Hres]. destruct (Hres Hdd) as [? [=]].
Qed.

(** X14.  The watcher goroutine.  On a finite sequence of events and
    errors of the watcher it neither stops the process nor waits for a
    lock, and it makes no call to the engine.  An event that is
    neither a creation nor a write causes no reload and leaves the plugin
    object as it is.  The channel is closed only when the default network
    has become resolvable or the watcher has reported an error; as long
    as it is open, a default network that was not resolvable at the start
    is still not resolvable. *)
Theorem monitorNetDir_loop_stops (inputs : list watcher_input)
    (w w' : world) (out : outcome unit) :
  monitorNetDir_loop inputs w = (w', out) ->
  out = Returned tt
  /\ history w' = history w
  /\ pods (plugin w') = pods (plugin w)
  /\ (monitorNetDirChan_closed (plugin w) = false ->
      monitorNetDirChan_closed (plugin w') = true ->
      default_resolvable (plugin w') = true
      \/ exists err, WatcherError err ∈ inputs)
  /\ (default_resolvable (plugin w) = false ->
      monitorNetDirChan_closed (plugin w') = false ->
      default_resolvable (plugin w') = false)
  /\ (Forall (fun i =>
                match i with
                | WatcherEvent op _ =>
                    N.land op fsnotify.Create <> fsnotify.Create
                    /\ N.land op fsnotify.Write <> fsnotify.Write
                | WatcherError _ => False
                end) inputs ->
      plugin w' = plugin w).
Proof.
  revert w. induction inputs as [|[op fs|err] inputs IH]; intros w Hrun.
  - injection Hrun as <- <-.
    split; [reflexivity|]. split; [reflexivity|]. split; [reflexivity|].
    split; [congruence|]. split; [auto|]. auto.
  - destruct (monitorNetDir_loop_event op fs inputs w)
      as (w1 & Hh1 & Hpods1 & Hcl1 & Hign & _ & Hstep).
    assert (Hall :
      Forall (fun i =>
                match i with
                | WatcherEvent op _ =>
                    N.land op fsnotify.Create <> fsnotify.Create
                    /\ N.land op fsnotify.Write <> fsnotify.Write
                | WatcherError _ => False
                end) (WatcherEvent op fs :: inputs) ->
      negb (N.land op fsnotify.Create =? fsnotify.Create)%N
      && negb (N.land op fsnotify.Write =? fsnotify.Write)%N = true).
    { intros Hall. apply Forall_cons in Hall as [[Hc Hw] _].
      apply N.eqb_neq in Hc, Hw. by rewrite Hc, Hw. }
    destruct Hstep as [[Heq Hdr1] | (Hnot & Hres & lg & Heq)];
      rewrite Heq in Hrun.
    + destruct (IH _ Hrun) as (Ho & Hh & Hpods & Hcl & Hdr & Hig).
      split; [exact Ho|]. split; [congruence|]. split; [congruence|].
      split; [|split].
      * intros H1 H2. rewrite <- Hcl1 in H1.
        destruct (Hcl H1 H2) as [Hd | [err Hin]]; [by left|].
        right. exists err. by apply list_elem_of_further.
      * intros H1 H2. auto.
      * intros Hf. rewrite <- (Hign (Hall Hf)).
        apply Hig. by apply Forall_cons in Hf as [_ Hf].
    + injection Hrun as <- <-. simpl.
      split; [reflexivity|]. split; [exact Hh1|]. split; [exact Hpods1|].
      split; [|split].
      * intros _ _. left. exact Hres.
      * discriminate.
      * intros Hf. rewrite (Hall Hf) in Hnot. discriminate.
  - simpl in Hrun. unfold bind at 1, logf at 1 in Hrun. simpl in Hrun.
    injection Hrun as <- <-. simpl.
    split; [reflexivity|]. split; [reflexivity|]. split; [reflexivity|].
    split; [|split].
    + intros _ _. right. exists err. apply list_elem_of_here.
    + discriminate.
    + intros Hall. by apply Forall_cons in Hall as [[] _].
Qed.


(** *** The results of a status query *)

Lemma collected_status_results podNetwork h cs :
  Forall (fun x => answer_error x = None) (answers h cs) ->
  (forall j c, cs !! j = Some c ->
     exists ns netns ifn ty, c = CallDetails ns netns ifn ty) ->
  let res := collected (collect_status podNetwork) h cs [] in
  length res = length cs
  /\ forall j r,
       res !! j = Some r ->
       exists ns netns ifn ty ip mac,
         cs !! j = Some (CallDetails ns netns ifn ty)
         /\ getContainerDetails engine (h ++ take j cs) ns netns ifn ty
            = Ok (ip, mac)
         /\ r = status_result podNetwork ifn ip mac.
Proof.
  induction cs as [|c cs IH] using rev_ind; intros Hok Hshape res.
  - subst res. simpl. split; [reflexivity|].
    intros j r Hr. by rewrite lookup_nil in Hr.
  - rewrite answers_app in Hok. apply Forall_app in Hok as [Hok1 Hok2].
    assert (Hshape1 : forall j c0, cs !! j = Some c0 ->
              exists ns netns ifn ty, c0 = CallDetails ns netns ifn ty).
    { intros j c0 Hj. apply (Hshape j).
      rewrite lookup_app_l; [exact Hj|]. by eapply lookup_lt_Some. }
    destruct (IH Hok1 Hshape1) as [Hlen Hres].
    destruct (Hshape (length cs) c) as (ns & netns & ifn & ty & ->).
    { by rewrite list_lookup_middle. }
    simpl in Hok2. apply Forall_cons in Hok2 as [Hans _]. simpl in Hans.
    destruct (getContainerDetails engine (h ++ cs) ns netns ifn ty)
      as [[ip mac]|e] eqn:Hd; [|discriminate].
    assert (Hres' : res
              = (collected (collect_status podNetwork) h cs []
                 ++ [status_result podNetwork ifn ip mac])%list).
    { subst res. rewrite collected_app. simpl. by rewrite Hd. }
    rewrite Hres'. split.
    + rewrite !length_app. simpl. lia.
    + intros j r Hr.
      destruct (decide (j < length cs)%nat) as [Hlt|Hge].
      * rewrite lookup_app_l in Hr by lia.
        destruct (Hres _ _ Hr)
          as (ns' & netns' & ifn' & ty' & ip' & mac' & Hc & Hg & ->).
        exists ns', netns', ifn', ty', ip', mac'.
        split; [rewrite lookup_app_l; [exact Hc | lia]|].
        split; [|reflexivity].
        rewrite take_app_le by lia. exact Hg.
      * assert (j = length cs).
        { apply lookup_lt_Some in Hr. rewrite length_app in Hr.
          simpl in Hr. lia. }
        subst j.
        rewrite lookup_app_r in Hr by lia.
        rewrite Hlen, Nat.sub_diag in Hr. injection Hr as <-.
        exists ns, netns, ifn, ty, ip, mac.
        split; [by rewrite list_lookup_middle|].
        split; [|reflexivity].
        rewrite take_app_length. exact Hd.
Qed.

Lemma GetPodNetworkStatus_locked_nil podNetwork w1 w2 results e :
  GetPodNetworkStatus_locked podNetwork w1 = (w2, Returned (results, Some e)) ->
  results = [].
Proof.
  unfold GetPodNetworkStatus_locked, bind.
  destruct (forEachNetwork podNetwork status_closure [] w1)
    as [w [[a [e0|]]| |]]; unfold ret; intros [=]; congruence.
Qed.

(** X15.  [GetPodNetworkStatus] only asks the inspector: every call it
    makes is an interface query in the namespace of the pod, for the IPv4
    address, through the [nsenter] found by [InitCNI]; it attaches and
    detaches nothing.  When it succeeds it returns one result for each
    resolved network, in order; the result at position [i] names the
    interface [eth<i>] in the sandbox of the pod, with the hardware
    address and the address the inspector answered for that interface,
    and its only address refers to its only interface.  When a query
    fails it returns no result at all. *)
Theorem GetPodNetworkStatus_results (podNetwork : PodNetwork) (w w' : world)
    (out : outcome (list cnicurrent.Result * option error)) :
  GetPodNetworkStatus podNetwork w = (w', out) ->
  let p := plugin w in
  let names := resolved_networks p podNetwork in
  exists new,
    history w' = (history w ++ new)%list
    /\ (forall j c, new !! j = Some c ->
          c = CallDetails (nsenterPath p) (NetNS podNetwork) (ifName_at j) "-4")
    /\ (forall results,
          out = Returned (results, None) ->
          length results = length names
          /\ forall i r,
               results !! i = Some r ->
               exists ip mac,
                 getContainerDetails engine (history w ++ take i new)
                   (nsenterPath p) (NetNS podNetwork) (ifName_at i) "-4"
                 = Ok (ip, mac)
                 /\ r = {| cnicurrent.CNIVersion := "0.3.1";
                           cnicurrent.Interfaces :=
                             [ {| cnicurrent.Name := ifName_at i;
                                  cnicurrent.Mac := mac;
                                  cnicurrent.Sandbox := NetNS podNetwork |} ];
                           cnicurrent.IPs :=
                             [ {| cnicurrent.Version := "4";
                                  cnicurrent.Interface_ := Some 0%nat;
                                  cnicurrent.Address := ip |} ] |})
    /\ (forall results e, out = Returned (results, Some e) -> results = []).
Proof.
  intros Hrun p names.
  destruct (GetPodNetworkStatus_cases _ _ _ _ Hrun)
    as [(_ & -> & Hh) | (_ & w1 & w2 & Hlo & Hh1 & _ & Hb & Hh)].
  { exists []. rewrite app_nil_r. split; [exact Hh|].
    split; [intros j c Hj; by rewrite lookup_nil in Hj|].
    split; intros; discriminate. }
  destruct (GetPodNetworkStatus_locked_safety _ _ _ _ Hb)
    as (_ & _ & _ & new & Hnew & Hcalls & Hok & Hfail).
  destruct (lock_only_fields _ _ Hlo) as (_ & _ & Hnets & Hns & _).
  rewrite (resolved_networks_lock_only _ _ podNetwork Hlo) in Hcalls, Hok.
  rewrite Hh1 in *.
  assert (Hshape : forall j c, new !! j = Some c ->
            c = CallDetails (nsenterPath p) (NetNS podNetwork)
                  (ifName_at j) "-4").
  { intros j c Hj. destruct (Hcalls _ _ Hj) as (name & net & _ & _ & ->).
    unfold details_call. by rewrite Hns. }
  exists new. split; [congruence|]. split; [exact Hshape|]. split.
  - intros results ->. destruct (Hok _ eq_refl) as (Hlen & -> & Hall).
    destruct (collected_status_results podNetwork (history w) new Hall)
      as [Hlen' Hres].
    { intros j c Hj. rewrite (Hshape _ _ Hj). eauto. }
    split; [unfold names, p; congruence|].
    intros i r Hr.
    destruct (Hres _ _ Hr) as (ns & netns & ifn & ty & ip & mac & Hc & Hg & ->).
    pose proof (Hshape _ _ Hc) as Heq. injection Heq as -> -> -> ->.
    exists ip, mac. split; [exact Hg | reflexivity].
  - intros results e ->.
    exact (GetPodNetworkStatus_locked_nil _ _ _ _ _ Hb).
Qed.


(** *** Attaching, then detaching *)

(** X16.  [TearDownPod] after [SetUpPod].  When [SetUpPod] has succeeded
    for a pod, a [TearDownPod] for the same pod that follows it detaches
    what was attached, in the order of attachment: its detach at position
    [j] is for the network and with the runtime configuration of the
    attach at position [j + 1] of [SetUpPod], the attach at position 0
    being the loopback one, which is not detached.  When [TearDownPod]
    succeeds, every requested network has been detached. *)
Theorem TearDownPod_mirrors_SetUpPod (podNetwork : PodNetwork)
    (w w1 w2 : world) (results : list cnicurrent.Result)
    (out : outcome (option error)) :
  SetUpPod podNetwork w = (w1, Returned (results, None)) ->
  TearDownPod podNetwork w1 = (w2, out) ->
  exists new1 new2,
    history w1 = (history w ++ new1)%list
    /\ history w2 = (history w1 ++ new2)%list
    /\ length new1 = S (length (resolved_networks (plugin w) podNetwork))
    /\ (forall j c, new2 !! j = Some c ->
          exists net rt,
            new1 !! S j = Some (CallAdd net rt) /\ c = CallDel net rt)
    /\ (out = Returned None -> S (length new2) = length new1).
Proof.
  intros Hup Hdown.
  pose proof (SetUpPod_lock_only _ _ _ _ Hup) as Hlo.
  destruct (lock_only_fields _ _ Hlo) as (_ & _ & Hnets & _).
  pose proof (resolved_networks_lock_only _ _ podNetwork Hlo) as Hnames.
  destruct (SetUpPod_names _ _ _ _ Hup) as (new1 & Hh1 & Hcalls1 & Hlen1).
  destruct (TearDownPod_names _ _ _ _ Hdown) as (new2 & Hh2 & Hcalls2 & Hlen2).
  specialize (Hlen1 _ eq_refl).
  rewrite Hnames in Hcalls2, Hlen2. rewrite Hnets in Hcalls2.
  exists new1, new2. split; [exact Hh1|]. split; [exact Hh2|].
  split; [exact Hlen1|]. split.
  - intros j c Hj.
    destruct (Hcalls2 _ _ Hj) as (name & net & Hname & Hnet & ->).
    assert (Hlt : (S j < length new1)%nat).
    { apply lookup_lt_Some in Hname. lia. }
    destruct (lookup_lt_is_Some_2 _ _ Hlt) as [c1 Hc1].
    destruct (Hcalls1 _ _ Hc1) as (name' & net' & Hname' & Hnet' & ->).
    assert (name' = name) by congruence. subst name'.
    assert (net' = net) by congruence. subst net'.
    eauto.
  - intros Hout. specialize (Hlen2 Hout). lia.
Qed.

(** *** A pod that names no network, on an initialized plugin *)

(** X17.  The common case.  On an initialized plugin, for a pod that
    names no network and whose lock is free: [TearDownPod] makes exactly
    one call, the detach of the default network on [eth0], and returns
    what the engine answers; [SetUpPod] attaches the loopback network on
    [lo], returns its error if it fails, and otherwise attaches the
    default network on [eth0] and returns the single result of that
    attach, or its error. *)
Theorem default_pod_operations (podNetwork : PodNetwork) (w : world) :
  Networks podNetwork = [] ->
  default_resolvable (plugin w) = true ->
  pod_mutex_free (plugin w) podNetwork ->
  registry_ok (plugin w) ->
  let p := plugin w in
  let lo := CallAdd (loNetwork p) (runtimeConf podNetwork "lo") in
  exists net,
    networks p !! defaultNetName p = Some net
    /\ (exists w',
          TearDownPod podNetwork w
          = (w', Returned
                   (DelNetworkList engine (history w) (CNIConfig net)
                      (NetworkConfig net) (runtimeConf podNetwork "eth0")))
          /\ history w'
             = (history w ++ [CallDel net (runtimeConf podNetwork "eth0")])%list)
    /\ (forall e,
          AddNetworkList engine (history w) (CNIConfig (loNetwork p))
            (NetworkConfig (loNetwork p)) (runtimeConf podNetwork "lo")
          = Err e ->
          exists w',
            SetUpPod podNetwork w = (w', Returned ([], Some e))
            /\ history w' = (history w ++ [lo])%list)
    /\ (forall r0,
          AddNetworkList engine (history w) (CNIConfig (loNetwork p))
            (NetworkConfig (loNetwork p)) (runtimeConf podNetwork "lo")
          = Ok r0 ->
          exists w',
            SetUpPod podNetwork w
            = (w', Returned
                     (match AddNetworkList engine (history w ++ [lo])
                              (CNIConfig net) (NetworkConfig net)
                              (runtimeConf podNetwork "eth0") with
                      | Ok r => ([r], None)
                      | Err e => ([], Some e)
                      end))
            /\ history w'
               = (history w
                  ++ [lo; CallAdd net (runtimeConf podNetwork "eth0")])%list).
Proof.
  intros Hn Hres Hfree Hok p lo.
  assert (Hd : exists net, networks p !! defaultNetName p = Some net).
  { unfold default_resolvable in Hres.
    apply andb_true_iff in Hres as [_ Hres].
    apply bool_decide_eq_true in Hres as [net Hnet]. eauto. }
  destruct Hd as [net Hnet]. exists net. split; [exact Hnet|].
  assert (Hpass : Networks podNetwork <> []
                  \/ default_resolvable (plugin w) = true) by (by right).
  assert (Hframe : forall w1,
            lock_only (plugin w) (plugin w1) ->
            resolved_networks (plugin w1) podNetwork = [defaultNetName p]
            /\ networks (plugin w1) !! defaultNetName p = Some net
            /\ has_plugin net
            /\ has_plugin (loNetwork (plugin w1))
            /\ loNetwork (plugin w1) = loNetwork p).
  { intros w1 Hlo.
    destruct (lock_only_fields _ _ Hlo) as (Hl & Hdn & Hnets & _).
    destruct (registry_ok_has_plugin _ _ Hok Hlo) as [Hlop Hplug].
    split; [unfold resolved_networks; by rewrite Hn, Hdn|].
    split; [by rewrite Hnets|].
    split; [apply (Hplug (defaultNetName p)); by rewrite Hnets|].
    split; [exact Hlop | exact Hl]. }
  split; [|split].
  - destruct (TearDownPod_enter _ _ Hpass Hfree) as (w1 & Hlo & Hh1 & _ & Hent).
    destruct (Hframe _ Hlo) as (Hnames & Hnet1 & Hplug & _ & _).
    destruct (DelNetworkList engine (history w) (CNIConfig net)
                (NetworkConfig net) (runtimeConf podNetwork "eth0"))
      as [e|] eqn:Hans.
    + destruct (TearDownPod_locked_run podNetwork w1 [] [] [defaultNetName p])
        as (_ & _ & Hfail).
      * exact Hnames.
      * constructor.
      * constructor.
      * destruct (Hfail (defaultNetName p) net [] e eq_refl Hnet1 Hplug)
          as (lg & Hrun).
        { change (answer_error
                    (AnsDel
                       (DelNetworkList engine (history w1 ++ [])
                          (CNIConfig net) (NetworkConfig net)
                          (runtimeConf podNetwork "eth0"))) = Some e).
          by rewrite app_nil_r, Hh1, Hans. }
        destruct (Hent _ _ Hrun) as (w' & Hrun' & Hh').
        exists w'. split; [exact Hrun'|].
        rewrite Hh'. simpl. by rewrite Hh1.
    + destruct (TearDownPod_locked_run podNetwork w1 [defaultNetName p] [net] [])
        as (Hdone & _).
      * exact Hnames.
      * repeat constructor; assumption.
      * change (Forall (fun x => answer_error x = None)
                  [AnsDel
                     (DelNetworkList engine (history w1) (CNIConfig net)
                        (NetworkConfig net) (runtimeConf podNetwork "eth0"))]).
        rewrite Hh1, Hans. by repeat constructor.
      * destruct (Hdone eq_refl) as (lg & Hrun).
        destruct (Hent _ _ Hrun) as (w' & Hrun' & Hh').
        exists w'. split; [exact Hrun'|].
        rewrite Hh'. simpl. by rewrite Hh1.
  - intros e Hans.
    destruct (SetUpPod_enter _ _ Hpass Hfree) as (w1 & Hlo & Hh1 & _ & Hent).
    destruct (Hframe _ Hlo) as (Hnames & Hnet1 & Hplug & Hlop & Hlnet).
    destruct (SetUpPod_locked_lo_fails podNetwork w1 e Hlop) as (lg & Hrun).
    { change (answer_error
                (AnsAdd
                   (AddNetworkList engine (history w1)
                      (CNIConfig (loNetwork (plugin w1)))
                      (NetworkConfig (loNetwork (plugin w1)))
                      (runtimeConf podNetwork "lo"))) = Some e).
      by rewrite Hlnet, Hh1, Hans. }
    destruct (Hent _ _ Hrun) as (w' & Hrun' & Hh').
    exists w'. split; [exact Hrun'|].
    rewrite Hh'. simpl. rewrite Hh1. unfold attach_call. by rewrite Hlnet.
  - intros r0 Hans0.
    destruct (SetUpPod_enter _ _ Hpass Hfree) as (w1 & Hlo & Hh1 & _ & Hent).
    destruct (Hframe _ Hlo) as (Hnames & Hnet1 & Hplug & Hlop & Hlnet).
    assert (Hlo1 : attach_call podNetwork (loNetwork (plugin w1)) "lo" = lo)
      by (unfold attach_call, lo; by rewrite Hlnet).
    destruct (AddNetworkList engine (history w ++ [lo]) (CNIConfig net)
                (NetworkConfig net) (runtimeConf podNetwork "eth0"))
      as [r|e] eqn:Hans.
    + destruct (SetUpPod_locked_run podNetwork w1 [defaultNetName p] [net] [])
        as (Hdone & _).
      * exact Hlop.
      * exact Hnames.
      * repeat constructor; assumption.
      * change (Forall (fun x => answer_error x = None)
                  [AnsAdd
                     (AddNetworkList engine (history w1)
                        (CNIConfig (loNetwork (plugin w1)))
                        (NetworkConfig (loNetwork (plugin w1)))
                        (runtimeConf podNetwork "lo"));
                   AnsAdd
                     (AddNetworkList engine
                        (history w1
                         ++ [attach_call podNetwork (loNetwork (plugin w1)) "lo"])
                        (CNIConfig net) (NetworkConfig net)
                        (runtimeConf podNetwork "eth0"))]).
        rewrite Hlo1, Hlnet, Hh1, Hans0, Hans. by repeat constructor.
      * destruct (Hdone eq_refl) as (lg & Hrun).
        destruct (Hent _ _ Hrun) as (w' & Hrun' & Hh').
        exists w'. split.
        -- rewrite Hrun'. do 3 f_equal.
           change ((match AddNetworkList engine
                            (history w1
                             ++ [attach_call podNetwork
                                   (loNetwork (plugin w1)) "lo"])
                            (CNIConfig net) (NetworkConfig net)
                            (runtimeConf podNetwork "eth0") with
                    | Ok result => [result]
                    | Err _ => []
                    end) = [r]).
           by rewrite Hlo1, Hh1, Hans.
        -- rewrite Hh'. simpl. rewrite Hh1, Hlo1. reflexivity.
    + destruct (SetUpPod_locked_run podNetwork w1 [] [] [defaultNetName p])
        as (_ & _ & Hfail).
      * exact Hlop.
      * exact Hnames.
      * constructor.
      * change (Forall (fun x => answer_error x = None)
                  [AnsAdd
                     (AddNetworkList engine (history w1)
                        (CNIConfig (loNetwork (plugin w1)))
                        (NetworkConfig (loNetwork (plugin w1)))
                        (runtimeConf podNetwork "lo"))]).
        rewrite Hlnet, Hh1, Hans0. by repeat constructor.
      * destruct (Hfail (defaultNetName p) net [] e eq_refl Hnet1 Hplug)
          as (lg & Hrun).
        { change (answer_error
                    (AnsAdd
                       (AddNetworkList engine
                          (history w1
                           ++ [attach_call podNetwork
                                 (loNetwork (plugin w1)) "lo"])
                          (CNIConfig net) (NetworkConfig net)
                          (runtimeConf podNetwork "eth0"))) = Some e).
          by rewrite Hlo1, Hh1, Hans. }
        destruct (Hent _ _ Hrun) as (w' & Hrun' & Hh').
        exists w'. split; [exact Hrun'|].
        rewrite Hh'. simpl. rewrite Hh1, Hlo1. reflexivity.
Qed.


(** *** The command-line tool *)

Lemma Split_nonempty s sep : Go.Split s sep <> [].
Proof.
  destruct s as [|c s]; simpl; [discriminate|].
  destruct (Ascii.eqb c sep); [discriminate|].
  destruct (Go.Split s sep); discriminate.
Qed.

Lemma Split_app s1 s2 sep :
  Go.Split (s1 ++ String sep s2) sep
  = (Go.Split s1 sep ++ Go.Split s2 sep)%list.
Proof.
  induction s1 as [|c s1 IH].
  - simpl. by rewrite Ascii.eqb_refl.
  - rewrite string_app_cons. simpl. rewrite IH.
    destruct (Ascii.eqb c sep); [reflexivity|].
    pose proof (Split_nonempty s1 sep).
    destruct (Go.Split s1 sep); [contradiction | reflexivity].
Qed.

Lemma Split_no_sep s sep :
  contains_byte sep s = false -> Go.Split s sep = [s].
Proof.
  induction s as [|c s IH]; intros Hno; [reflexivity|].
  rewrite contains_byte_cons in Hno.
  apply orb_false_iff in Hno as [Hc Hno]. simpl.
  rewrite Ascii.eqb_sym, Hc, (IH Hno). reflexivity.
Qed.

Lemma Split_pieces s sep :
  Forall (fun piece => contains_byte sep piece = false) (Go.Split s sep).
Proof.
  induction s as [|c s IH]; simpl; [by repeat constructor|].
  destruct (Ascii.eqb c sep) eqn:Hc; [by constructor|].
  pose proof (Split_nonempty s sep).
  destruct (Go.Split s sep) as [|piece pieces]; [contradiction|].
  apply Forall_cons in IH as [Hp Hps]. constructor; [|exact Hps].
  rewrite contains_byte_cons, Ascii.eqb_sym, Hc. exact Hp.
Qed.

Lemma keep_names_app (l : list string) :
  forall acc,
    foldl (fun networks name =>
             if (0 <? String.length name)%nat then (networks ++ [name])%list
             else networks) acc l
    = (acc
       ++ foldl (fun networks name =>
                   if (0 <? String.length name)%nat
                   then (networks ++ [name])%list else networks) [] l)%list.
Proof.
  induction l as [|x l IH]; intros acc; simpl; [by rewrite app_nil_r|].
  destruct (0 <? String.length x)%nat; [|apply IH].
  rewrite (IH (acc ++ [x])%list), (IH [x]). by rewrite <- app_assoc.
Qed.

Lemma parse_networks_app s1 s2 :
  parse_networks (s1 ++ String ","%char s2)
  = (parse_networks s1 ++ parse_networks s2)%list.
Proof.
  unfold parse_networks. rewrite Split_app, foldl_app.
  by rewrite keep_names_app.
Qed.

Lemma parse_networks_piece s :
  contains_byte ","%char s = false ->
  parse_networks s = if String.eqb s "" then [] else [s].
Proof.
  intros Hno. unfold parse_networks. rewrite (Split_no_sep _ _ Hno).
  by destruct s.
Qed.

Lemma keep_names_elem (l : list string) :
  forall acc x,
    x ∈ foldl (fun networks name =>
                 if (0 <? String.length name)%nat
                 then (networks ++ [name])%list else networks) acc l ->
    x ∈ acc \/ (x ∈ l /\ x <> "").
Proof.
  induction l as [|y l IH]; intros acc x Hx; simpl in Hx; [by left|].
  apply IH in Hx as [Hx | [Hx Hne]].
  - destruct y as [|c y]; simpl in Hx; [by left|].
    apply elem_of_app in Hx as [Hx | Hx]; [by left|].
    apply list_elem_of_singleton in Hx as ->.
    right. split; [apply list_elem_of_here | discriminate].
  - right. split; [by apply list_elem_of_further | exact Hne].
Qed.

(** X18.  The names read from the flag [-networks].  The value of the
    flag is cut at its commas and the empty pieces are dropped: every
    name read is non-empty and holds no comma, the empty value gives no
    name, so that the default network is used, the names of two values
    joined by a comma are the names of the first followed by the names of
    the second, and a list of non-empty names without commas, joined by
    commas, is read back as it is. *)
Theorem parse_networks_names :
  (forall networksStr name,
     name ∈ parse_networks networksStr ->
     name <> "" /\ contains_byte ","%char name = false)
  /\ parse_networks "" = []
  /\ (forall s1 s2,
        parse_networks (s1 ++ "," ++ s2)
        = (parse_networks s1 ++ parse_networks s2)%list)
  /\ (forall names,
        Forall (fun name => name <> "" /\ contains_byte ","%char name = false)
          names ->
        parse_networks (comma_joined names) = names).
Proof.
  split; [|split; [reflexivity|split]].
  - intros networksStr name Hin. unfold parse_networks in Hin.
    apply keep_names_elem in Hin as [Hin | [Hin Hne]].
    + by apply elem_of_nil in Hin.
    + split; [exact Hne|].
      pose proof (Split_pieces networksStr ","%char) as Hall.
      rewrite Forall_forall in Hall. by apply Hall.
  - intros s1 s2. apply parse_networks_app.
  - induction names as [|name names IH]; intros Hall; [reflexivity|].
    apply Forall_cons in Hall as [[Hne Hno] Hall].
    assert (Hone : parse_networks name = [name]).
    { rewrite (parse_networks_piece _ Hno).
      apply String.eqb_neq in Hne. by rewrite Hne. }
    destruct names as [|name2 rest]; [exact Hone|].
    change (comma_joined (name :: name2 :: rest))
      with (name ++ String ","%char (comma_joined (name2 :: rest))).
    rewrite parse_networks_app, Hone, (IH Hall). reflexivity.
Qed.








(** *** The invariant of the registry *)

Lemma loaded_from_file p fs nets d k net :
  loaded p fs = Ok (nets, d) ->
  nets !! k = Some net ->
  exists f, network_of_file p fs f = Some net /\ name net = k.
Proof.
  intros Hl Hk.
  destruct (loaded_Ok _ _ _ _ Hl) as (files & _ & Htake).
  change nets with (fst (nets, d)) in Hk. rewrite Htake in Hk.
  rewrite take_files_lookup in Hk. simpl in Hk.
  destruct (last (files_named p fs k (Go.sort_Strings files))) as [f|] eqn:Hlast.
  - apply last_Some_elem_of in Hlast.
    apply list_elem_of_filter in Hlast as [Hname _].
    exists f. split; [exact Hk|].
    rewrite Hk in Hname. simpl in Hname. congruence.
  - by rewrite lookup_empty in Hk.
Qed.

Lemma registry_named_loaded p fs nets d d' :
  loaded p fs = Ok (nets, d) -> registry_named (set_registry d' nets p).
Proof.
  intros Hl k net Hk. simpl in Hk.
  destruct (loaded_registry _ _ _ _ Hl _ _ Hk) as (Hp & Hn & Hc).
  destruct (loaded_from_file _ _ _ _ _ _ Hl Hk) as (f & Hf & _).
  split; [|auto].
  rewrite <- Hn. exact (proj1 (network_of_file_name _ _ _ _ Hf)).
Qed.

Lemma registry_named_lock_only p p' :
  lock_only p p' -> registry_named p -> registry_named p'.
Proof.
  intros Hlo Hinv k net Hk.
  destruct (lock_only_fields _ _ Hlo) as (_ & _ & Hnets & _).
  rewrite Hnets in Hk. exact (Hinv _ _ Hk).
Qed.

Lemma syncNetworkConfig_registry_named fs w w' out :
  registry_named (plugin w) ->
  syncNetworkConfig fs w = (w', out) ->
  registry_named (plugin w').
Proof.
  intros Hinv Hrun.
  destruct (syncNetworkConfig_cases fs w)
    as [(e & lg & Hl & Hs) | (nets & d & lg & Hl & Hs)];
    rewrite Hs in Hrun; injection Hrun as <- <-; simpl.
  - exact Hinv.
  - by eapply registry_named_loaded.
Qed.

Lemma monitorNetDir_loop_registry_named inputs :
  forall w w' out,
    registry_named (plugin w) ->
    monitorNetDir_loop inputs w = (w', out) ->
    registry_named (plugin w').
Proof.
  induction inputs as [|[op fs|err] inputs IH]; intros w w' out Hinv Hrun.
  - by injection Hrun as <- _.
  - destruct (monitorNetDir_loop_event op fs inputs w)
      as (w1 & _ & _ & _ & _ & Hplug & Hstep).
    assert (Hinv1 : registry_named (plugin w1)).
    { destruct Hplug as [-> | (nets & d & d' & Hl & ->)]; [exact Hinv|].
      by eapply registry_named_loaded. }
    destruct Hstep as [[Heq _] | (_ & _ & lg & Heq)]; rewrite Heq in Hrun.
    + by eapply IH.
    + injection Hrun as <- _. exact Hinv1.
  - simpl in Hrun. unfold bind at 1, logf at 1 in Hrun. simpl in Hrun.
    injection Hrun as <- _. exact Hinv.
Qed.

(** X21.  The invariant of the registry.  In the plugin [InitCNI]
    returns, and after any reloads, any run of the directory watcher and
    any calls of the entry points that follow, every network of the
    registry has a name that is not empty, is kept under that name, has
    that name as the name of its configuration, and has at least one
    plugin. *)
Theorem registry_invariant :
  (forall os fs d dir dirs w0 b,
     InitCNI os fs d dir dirs = Ok (w0, b) -> registry_named (plugin w0))
  /\ (forall fs w w' out,
        registry_named (plugin w) ->
        syncNetworkConfig fs w = (w', out) -> registry_named (plugin w'))
  /\ (forall inputs w w' out,
        registry_named (plugin w) ->
        monitorNetDir_loop inputs w = (w', out) -> registry_named (plugin w'))
  /\ (forall podNetwork w,
        registry_named (plugin w) ->
        (forall w' out,
           SetUpPod podNetwork w = (w', out) -> registry_named (plugin w'))
        /\ (forall w' out,
              TearDownPod podNetwork w = (w', out) ->
              registry_named (plugin w'))
        /\ (forall w' out,
              GetPodNetworkStatus podNetwork w = (w', out) ->
              registry_named (plugin w'))).
Proof.
  split; [|split; [|split]].
  - intros os fs d dir dirs w0 b Hinit.
    unfold InitCNI in Hinit.
    destruct (LookPath os "nsenter") as [path|]; [|discriminate].
    destruct (Stat os _); [discriminate|].
    match type of Hinit with
    | context [syncNetworkConfig fs ?w] =>
        assert (Hinv0 : registry_named (plugin w));
        [|destruct (syncNetworkConfig fs w) as [w1 o] eqn:Hs;
          pose proof (syncNetworkConfig_registry_named _ _ _ _ Hinv0 Hs) as Hinv]
    end.
    { intros k net Hk. simpl in Hk. by rewrite lookup_empty in Hk. }
    destruct o as [[e|]| |]; injection Hinit as <- _; exact Hinv.
  - exact syncNetworkConfig_registry_named.
  - intros inputs w w' out. apply monitorNetDir_loop_registry_named.
  - intros podNetwork w Hinv. split; [|split]; intros w' out Hrun.
    + exact (registry_named_lock_only _ _ (SetUpPod_lock_only _ _ _ _ Hrun) Hinv).
    + exact (registry_named_lock_only _ _
               (TearDownPod_lock_only _ _ _ _ Hrun) Hinv).
    + exact (registry_named_lock_only _ _
               (GetPodNetworkStatus_lock_only _ _ _ _ Hrun) Hinv).
Qed.

End Package.

(** ** The theorems at the examples *)

(** The example plugin satisfies the invariant of the registry. *)
Lemma ex_registry_ok : registry_ok ex_vendor (plugin ex_world).
Proof.
  split; [|reflexivity].
  intros k net. simpl. rewrite !lookup_insert.
  repeat case_decide; subst; try rewrite lookup_empty;
    intros [= <-]; repeat split; discriminate.
Qed.

Lemma pod_lock_table_balanced_witness :
  let ops :=
    [ OpPodLock ex_pod; OpMutexLock 0; OpPodLock ex_pod;
      OpPodUnlock ex_pod; OpMutexLock 0; OpPodUnlock ex_pod ] in
  pods_wf (plugin ex_world)
  /\ pods (plugin ex_world) !! "default_web" = None
  /\ balanced "default_web" ops = true
  /\ snd (run_lock_ops ops ex_world) = Returned tt
  /\ pods (plugin (fst (run_lock_ops ops ex_world))) !! "default_web" = None.
Proof.
  intros ops.
  assert (Hwf : pods_wf (plugin ex_world)).
  { split; intros *; simpl; rewrite lookup_empty; discriminate. }
  assert (Hsnd : snd (run_lock_ops ops ex_world) = Returned tt)
    by (vm_compute; reflexivity).
  assert (Hrun : run_lock_ops ops ex_world
                 = (fst (run_lock_ops ops ex_world), Returned tt)).
  { rewrite <- Hsnd. apply surjective_pairing. }
  split; [exact Hwf|]. split; [reflexivity|]. split; [reflexivity|].
  split; [exact Hsnd|].
  exact (proj1 (pod_lock_table_balanced "default_web" ops ex_world _
                  Hwf eq_refl eq_refl Hrun)).
Defined.

Lemma default_network_name_sticky_witness :
  defaultNetName (plugin ex_world) <> ""
  /\ exists w' r,
       syncNetworkConfig ex_vendor ex_fs_later ex_world = (w', Returned r)
       /\ defaultNetName (plugin w') = "net-a".
Proof.
  assert (Hd : defaultNetName (plugin ex_world) <> "") by discriminate.
  split; [exact Hd|].
  destruct (proj1 (default_network_name_sticky "/etc/cni/net.d" "/opt/cni/bin"
                     ex_vendor ex_world Hd) ex_fs_later)
    as (w' & r & Hrun & Hkeep & _).
  exists w', r. split; [exact Hrun | exact Hkeep].
Defined.

Lemma TearDownPod_not_initialized_witness :
  Networks ex_pod = []
  /\ default_resolvable (plugin ex_world_unloaded) = false
  /\ TearDownPod ex_engine ex_pod ex_world_unloaded
     = (ex_world_unloaded, Returned (Some errUninitialized)).
Proof.
  split; [reflexivity|]. split; [reflexivity|].
  exact (TearDownPod_not_initialized ex_engine ex_pod ex_world_unloaded
           eq_refl eq_refl).
Defined.


Lemma SetUpPod_first_failure_witness :
  let lo := CallAdd ex_lo (runtimeConf ex_pod_two "lo") in
  let calls := calls_for (attach_call ex_pod_two) 0 [ex_netA] in
  let failing := attach_call ex_pod_two ex_netB (ifName_at 1) in
  resolved_networks (plugin ex_world) ex_pod_two = ["net-a"; "b.conf"]
  /\ answer_error <$> answers ex_engine_eth1 [] (lo :: calls ++ [failing])
     = [None; None; Some (errExternal "attach failed")]
  /\ exists w',
       SetUpPod ex_engine_eth1 ex_pod_two ex_world
       = (w', Returned ([], Some (errExternal "attach failed")))
       /\ history w' = lo :: calls ++ [failing].
Proof.
  intros lo calls failing.
  split; [reflexivity|]. split; [reflexivity|].
  destruct (SetUpPod_first_failure ex_engine_eth1 ex_pod_two ex_world
              ["net-a"] [ex_netA] "b.conf" ex_netB []
              (errExternal "attach failed"))
    as (w' & Hrun & Hh & _).
  - left. discriminate.
  - exact I.
  - discriminate.
  - reflexivity.
  - constructor; [split; [reflexivity | discriminate] | constructor].
  - reflexivity.
  - discriminate.
  - repeat constructor.
  - reflexivity.
  - exists w'. split; [exact Hrun | exact Hh].
Defined.




(** C3 as stated does not hold: the resolved name "net-a" is not in the
    registry, and [SetUpPod] and [TearDownPod] fail with "cni config
    uninitialized", not with "CNI network not found". *)
Lemma network_not_found_counterexample :
  resolved_networks (plugin ex_world_unloaded) ex_pod = ["net-a"]
  /\ networks (plugin ex_world_unloaded) !! "net-a" = None
  /\ SetUpPod ex_engine ex_pod ex_world_unloaded
     = (ex_world_unloaded, Returned ([], Some errUninitialized))
  /\ TearDownPod ex_engine ex_pod ex_world_unloaded
     = (ex_world_unloaded, Returned (Some errUninitialized))
  /\ errUninitialized <> errNetworkNotFound "net-a".
Proof. repeat split; try reflexivity. discriminate. Qed.

(** ** The further properties at the examples *)

Lemma buildFullPodName_injective_witness :
  contains_byte "_" (Namespace ex_pod) = false
  /\ contains_byte "_" (Namespace ex_pod_two) = false
  /\ buildFullPodName ex_pod = buildFullPodName ex_pod_two
  /\ Namespace ex_pod = Namespace ex_pod_two
  /\ Name ex_pod = Name ex_pod_two.
Proof.
  split; [reflexivity|]. split; [reflexivity|]. split; [reflexivity|].
  exact (proj1 buildFullPodName_injective ex_pod ex_pod_two
           eq_refl eq_refl eq_refl).
Defined.

Lemma pod_operations_exclusive_witness :
  let w1 := fst (podLock ex_pod ex_world) in
  let w2 := fst (Mutex_Lock 0 w1) in
  podLock ex_pod ex_world = (w1, Returned 0%nat)
  /\ Mutex_Lock 0 w1 = (w2, Returned tt)
  /\ buildFullPodName ex_pod_two = buildFullPodName ex_pod
  /\ snd (GetPodNetworkStatus ex_engine ex_pod_two w2) = Blocked.
Proof.
  intros w1 w2.
  assert (Hl : podLock ex_pod ex_world = (w1, Returned 0%nat)).
  { assert (Hs : snd (podLock ex_pod ex_world) = Returned 0%nat)
      by reflexivity.
    rewrite <- Hs. apply surjective_pairing. }
  assert (Hm : Mutex_Lock 0 w1 = (w2, Returned tt)).
  { assert (Hs : snd (Mutex_Lock 0 w1) = Returned tt) by reflexivity.
    rewrite <- Hs. apply surjective_pairing. }
  split; [exact Hl|]. split; [exact Hm|]. split; [reflexivity|].
  destruct (pod_operations_exclusive ex_engine ex_pod ex_pod_two
              ex_world w1 w2 w2 0%nat Hl Hm eq_refl eq_refl)
    as (_ & _ & Hstatus).
  exact (proj2 (Hstatus _ _ (surjective_pairing _))).
Defined.

Lemma other_pods_not_blocked_witness :
  let w1 := fst (podLock ex_pod ex_world) in
  let w2 := fst (Mutex_Lock 0 w1) in
  pods_wf (plugin ex_world)
  /\ podLock ex_pod ex_world = (w1, Returned 0%nat)
  /\ Mutex_Lock 0 w1 = (w2, Returned tt)
  /\ buildFullPodName ex_pod_other <> buildFullPodName ex_pod
  /\ pod_mutex_free (plugin ex_world) ex_pod_other
  /\ snd (GetPodNetworkStatus ex_engine ex_pod_other w2) <> Blocked.
Proof.
  intros w1 w2.
  assert (Hwf : pods_wf (plugin ex_world)).
  { split; intros *; simpl; rewrite lookup_empty; discriminate. }
  assert (Hl : podLock ex_pod ex_world = (w1, Returned 0%nat)).
  { assert (Hs : snd (podLock ex_pod ex_world) = Returned 0%nat)
      by reflexivity.
    rewrite <- Hs. apply surjective_pairing. }
  assert (Hm : Mutex_Lock 0 w1 = (w2, Returned tt)).
  { assert (Hs : snd (Mutex_Lock 0 w1) = Returned tt) by reflexivity.
    rewrite <- Hs. apply surjective_pairing. }
  assert (Hne : buildFullPodName ex_pod_other <> buildFullPodName ex_pod)
    by discriminate.
  assert (Hfree : pod_mutex_free (plugin ex_world) ex_pod_other) by exact I.
  split; [exact Hwf|]. split; [exact Hl|]. split; [exact Hm|].
  split; [exact Hne|]. split; [exact Hfree|].
  destruct (other_pods_not_blocked ex_engine ex_pod ex_pod_other
              ex_world w1 w2 0%nat Hwf Hl Hm Hne Hfree)
    as (_ & _ & _ & Hstatus).
  exact (Hstatus _ _ (surjective_pairing _)).
Defined.

Lemma entry_points_keep_registry_witness :
  let r := SetUpPod ex_engine_eth1 ex_pod_two ex_world in
  SetUpPod ex_engine_eth1 ex_pod_two ex_world = (fst r, snd r)
  /\ networks (plugin (fst r)) = networks (plugin ex_world)
  /\ defaultNetName (plugin (fst r)) = "net-a".
Proof.
  intros r.
  assert (Hrun : SetUpPod ex_engine_eth1 ex_pod_two ex_world = (fst r, snd r))
    by apply surjective_pairing.
  split; [exact Hrun|].
  destruct (proj1 (entry_points_keep_registry ex_engine_eth1 ex_pod_two
                     ex_world) _ _ Hrun) as (_ & Hnets & Hd & _).
  split; [exact Hnets | exact Hd].
Defined.

Lemma entry_points_release_pod_lock_witness :
  let r := SetUpPod ex_engine_eth1 ex_pod_two ex_world in
  pods (plugin ex_world) !! buildFullPodName ex_pod_two = None
  /\ snd r = Returned ([], Some (errExternal "attach failed"))
  /\ pods (plugin (fst r)) = pods (plugin ex_world).
Proof.
  intros r.
  assert (Habs : pods (plugin ex_world) !! buildFullPodName ex_pod_two = None)
    by reflexivity.
  assert (Hs : snd r = Returned ([], Some (errExternal "attach failed")))
    by (vm_compute; reflexivity).
  split; [exact Habs|]. split; [exact Hs|].
  assert (Hrun : SetUpPod ex_engine_eth1 ex_pod_two ex_world
                 = (fst r, Returned ([], Some (errExternal "attach failed")))).
  { rewrite <- Hs. apply surjective_pairing. }
  exact (proj1 (entry_points_release_pod_lock ex_engine_eth1 ex_pod_two
                  ex_world Habs) _ _ Hrun).
Defined.


Lemma load_independent_of_listing_order_witness :
  libcni.ConfFiles ex_fs_sorted (pluginDir (plugin ex_world))
    [".conf"; ".conflist"; ".json"]
  = Ok (rev [ "/etc/cni/net.d/c.conflist"; "/etc/cni/net.d/b.conf";
              "/etc/cni/net.d/a.conflist" ])
  /\ exists lg lg' r,
       loadNetworks ex_vendor ex_fs ex_world = (add_logs ex_world lg, Returned r)
       /\ loadNetworks ex_vendor ex_fs_sorted ex_world
          = (add_logs ex_world lg', Returned r).
Proof.
  split; [reflexivity|].
  apply (load_independent_of_listing_order ex_vendor ex_fs ex_fs_sorted
           ex_world
           [ "/etc/cni/net.d/c.conflist"; "/etc/cni/net.d/b.conf";
             "/etc/cni/net.d/a.conflist" ]
           (rev [ "/etc/cni/net.d/c.conflist"; "/etc/cni/net.d/b.conf";
                  "/etc/cni/net.d/a.conflist" ])).
  - reflexivity.
  - reflexivity.
  - apply Permutation_rev.
  - reflexivity.
  - reflexivity.
  - reflexivity.
Defined.

Lemma load_default_is_first_usable_file_witness :
  exists w' nets d f,
    loadNetworks ex_vendor ex_fs ex_world = (w', Returned (Ok (nets, d)))
    /\ head (filter (fun f => usable_file ex_fs f = true)
               (Go.sort_Strings
                  [ "/etc/cni/net.d/c.conflist"; "/etc/cni/net.d/b.conf";
                    "/etc/cni/net.d/a.conflist" ])) = Some f
    /\ is_Some (nets !! d).
Proof.
  destruct (loadNetworks ex_vendor ex_fs ex_world) as [w' o] eqn:Hrun.
  assert (Hshape : match snd (loadNetworks ex_vendor ex_fs ex_world) with
                   | Returned (Ok _) => True
                   | _ => False
                   end) by (vm_compute; exact I).
  rewrite Hrun in Hshape. simpl in Hshape.
  destruct o as [[[nets d]|e]| |]; try contradiction.
  destruct (load_default_is_first_usable_file ex_vendor ex_fs ex_world w'
              nets d Hrun)
    as (files & f & net & Hfiles & Hhead & _ & _ & _ & Hreg).
  injection Hfiles as <-.
  exists w', nets, d, f. split; [reflexivity|]. split; [exact Hhead | exact Hreg].
Defined.

Lemma load_last_file_wins_witness :
  exists w' nets d,
    loadNetworks ex_vendor ex_fs ex_world = (w', Returned (Ok (nets, d)))
    /\ NetworkConfig <$> nets !! "b.conf"
       = Some (libcni.set_Name "b.conf" ex_confListB)
    /\ NetworkConfig <$> nets !! "b" = None.
Proof.
  destruct (loadNetworks ex_vendor ex_fs ex_world) as [w' o] eqn:Hrun.
  assert (Hshape : match snd (loadNetworks ex_vendor ex_fs ex_world) with
                   | Returned (Ok _) => True
                   | _ => False
                   end) by (vm_compute; exact I).
  rewrite Hrun in Hshape. simpl in Hshape.
  destruct o as [[[nets d]|e]| |]; try contradiction.
  destruct (load_last_file_wins ex_vendor ex_fs ex_world w' nets d Hrun)
    as (files & Hfiles & Hk & _).
  injection Hfiles as <-.
  exists w', nets, d. split; [reflexivity|].
  split; rewrite Hk; vm_compute; reflexivity.
Defined.


Lemma reload_idempotent_witness :
  let r1 := syncNetworkConfig ex_vendor ex_fs_later ex_world in
  let r2 := syncNetworkConfig ex_vendor ex_fs_later (fst r1) in
  syncNetworkConfig ex_vendor ex_fs_later ex_world = (fst r1, snd r1)
  /\ syncNetworkConfig ex_vendor ex_fs_later (fst r1) = (fst r2, snd r2)
  /\ snd r2 = snd r1 /\ plugin (fst r2) = plugin (fst r1).
Proof.
  intros r1 r2.
  assert (H1 : syncNetworkConfig ex_vendor ex_fs_later ex_world
               = (fst r1, snd r1)) by apply surjective_pairing.
  assert (H2 : syncNetworkConfig ex_vendor ex_fs_later (fst r1)
               = (fst r2, snd r2)) by apply surjective_pairing.
  split; [exact H1|]. split; [exact H2|].
  exact (reload_idempotent ex_vendor ex_fs_later ex_world _ _ _ _ H1 H2).
Defined.

Lemma InitCNI_failures_witness :
  exists w0 b,
    InitCNI "/etc/cni/net.d" "/opt/cni/bin" ex_vendor ex_os ex_fs "" "" []
    = Ok (w0, b)
    /\ pluginDir (plugin w0) = "/etc/cni/net.d"
    /\ cniDirs (plugin w0) = ["/opt/cni/bin"]
    /\ nsenterPath (plugin w0) = "/usr/bin/nsenter".
Proof.
  destruct (InitCNI "/etc/cni/net.d" "/opt/cni/bin" ex_vendor ex_os ex_fs
              "" "" []) as [[w0 b]|e] eqn:Hinit.
  - destruct (proj2 (InitCNI_failures "/etc/cni/net.d" "/opt/cni/bin" ex_vendor
                       ex_os ex_fs "" "" []) w0 b Hinit)
      as (Hpath & _ & Hdir & Hdirs & _).
    exists w0, b. split; [reflexivity|]. split; [exact Hdir|].
    split; [exact Hdirs|]. simpl in Hpath. by injection Hpath.
  - exfalso.
    destruct (proj1 (proj1 (InitCNI_failures "/etc/cni/net.d" "/opt/cni/bin"
                              ex_vendor ex_os ex_fs "" "" []) e) Hinit)
      as [[=] | (path & _ & [=])].
Defined.

Lemma InitCNI_starts_watcher_iff_load_fails_witness :
  exists w0,
    InitCNI "/etc/cni/net.d" "/opt/cni/bin" ex_vendor ex_os ex_fs
      "net-z" "" []
    = Ok (w0, false)
    /\ defaultNetName (plugin w0) = "net-z"
    /\ Status w0 = (w0, Returned (Some errUninitialized)).
Proof.
  destruct (InitCNI "/etc/cni/net.d" "/opt/cni/bin" ex_vendor ex_os ex_fs
              "net-z" "" []) as [[w0 b]|e] eqn:Hinit.
  - assert (Hb : match InitCNI "/etc/cni/net.d" "/opt/cni/bin" ex_vendor ex_os
                         ex_fs "net-z" "" [] with
                 | Ok (w, b) =>
                     b = false
                     /\ bool_decide (is_Some (networks (plugin w) !! "net-z"))
                        = false
                 | Err _ => False
                 end) by (vm_compute; split; reflexivity).
    rewrite Hinit in Hb. destruct Hb as [-> Hno].
    destruct (InitCNI_starts_watcher_iff_load_fails "/etc/cni/net.d"
                "/opt/cni/bin" ex_vendor ex_os ex_fs "net-z" "" [] w0 false
                Hinit) as (_ & _ & _ & Hgiven).
    destruct (Hgiven eq_refl) as [Hd Hst]; [discriminate|].
    exists w0. split; [reflexivity|]. split; [exact Hd|].
    rewrite Hst, Hno. reflexivity.
  - exfalso.
    assert (Hb : match InitCNI "/etc/cni/net.d" "/opt/cni/bin" ex_vendor ex_os
                         ex_fs "net-z" "" [] with
                 | Ok _ => True
                 | Err _ => False
                 end) by (vm_compute; exact I).
    rewrite Hinit in Hb. exact Hb.
Defined.

Lemma monitorNetDir_loop_stops_witness :
  let inputs :=
    [ WatcherEvent fsnotify.Chmod ex_fs; WatcherEvent fsnotify.Create ex_fs;
      WatcherEvent fsnotify.Write ex_fs_later ] in
  let r := monitorNetDir_loop ex_vendor inputs ex_world_unloaded in
  monitorNetDir_loop ex_vendor inputs ex_world_unloaded = (fst r, snd r)
  /\ monitorNetDirChan_closed (plugin ex_world_unloaded) = false
  /\ monitorNetDirChan_closed (plugin (fst r)) = true
  /\ default_resolvable (plugin (fst r)) = true.
Proof.
  intros inputs r.
  assert (Hrun : monitorNetDir_loop ex_vendor inputs ex_world_unloaded
                 = (fst r, snd r)) by apply surjective_pairing.
  assert (Hcl : monitorNetDirChan_closed (plugin (fst r)) = true)
    by (vm_compute; reflexivity).
  split; [exact Hrun|]. split; [reflexivity|]. split; [exact Hcl|].
  destruct (monitorNetDir_loop_stops ex_vendor inputs ex_world_unloaded _ _ Hrun)
    as (_ & _ & _ & Hclosed & _).
  destruct (Hclosed eq_refl Hcl) as [Hres | [err Hin]]; [exact Hres|].
  exfalso. subst inputs.
  repeat (apply elem_of_cons in Hin as [[=] | Hin]).
  by apply elem_of_nil in Hin.
Defined.

Lemma GetPodNetworkStatus_results_witness :
  let r := GetPodNetworkStatus ex_engine ex_pod_two ex_world in
  GetPodNetworkStatus ex_engine ex_pod_two ex_world = (fst r, snd r)
  /\ exists results,
       snd r = Returned (results, None)
       /\ length results = 2%nat
       /\ forall c, c ∈ history (fst r) ->
            exists ifName,
              c = CallDetails "/usr/bin/nsenter" "/proc/42/ns/net" ifName "-4".
Proof.
  intros r.
  assert (Hrun : GetPodNetworkStatus ex_engine ex_pod_two ex_world
                 = (fst r, snd r)) by apply surjective_pairing.
  split; [exact Hrun|].
  assert (Hshape : exists results, snd r = Returned (results, None))
    by (vm_compute; eauto).
  destruct Hshape as [results Hs]. exists results. split; [exact Hs|].
  destruct (GetPodNetworkStatus_results ex_engine ex_pod_two ex_world _ _ Hrun)
    as (new & Hh & Hcalls & Hok & _).
  split; [exact (proj1 (Hok _ Hs))|].
  intros c Hc. rewrite Hh in Hc. simpl in Hc.
  apply list_elem_of_lookup in Hc as [j Hj].
  exists (ifName_at j). exact (Hcalls _ _ Hj).
Defined.

Lemma TearDownPod_mirrors_SetUpPod_witness :
  let r1 := SetUpPod ex_engine ex_pod_two ex_world in
  let r2 := TearDownPod ex_engine ex_pod_two (fst r1) in
  (exists results, snd r1 = Returned (results, None))
  /\ snd r2 = Returned None
  /\ exists new1 new2,
       history (fst r1) = new1
       /\ history (fst r2) = (new1 ++ new2)%list
       /\ length new1 = 3%nat /\ length new2 = 2%nat.
Proof.
  intros r1 r2.
  assert (Hshape : exists results, snd r1 = Returned (results, None))
    by (vm_compute; eauto).
  split; [exact Hshape|]. destruct Hshape as [results Hs].
  assert (Hs2 : snd r2 = Returned None) by (vm_compute; reflexivity).
  split; [exact Hs2|].
  assert (Hup : SetUpPod ex_engine ex_pod_two ex_world
                = (fst r1, Returned (results, None))).
  { rewrite <- Hs. apply surjective_pairing. }
  assert (Hdown : TearDownPod ex_engine ex_pod_two (fst r1)
                  = (fst r2, snd r2)) by apply surjective_pairing.
  destruct (TearDownPod_mirrors_SetUpPod ex_engine ex_pod_two ex_world _ _
              results _ Hup Hdown)
    as (new1 & new2 & Hh1 & Hh2 & Hlen1 & _ & Hlen2).
  exists new1, new2. split; [exact Hh1|].
  split; [rewrite Hh2, Hh1; reflexivity|].
  split; [exact Hlen1|].
  specialize (Hlen2 Hs2). rewrite Hlen1 in Hlen2. simpl in Hlen2. lia.
Defined.

Lemma default_pod_operations_witness :
  Networks ex_pod = []
  /\ default_resolvable (plugin ex_world) = true
  /\ pod_mutex_free (plugin ex_world) ex_pod
  /\ registry_ok ex_vendor (plugin ex_world)
  /\ exists w',
       TearDownPod ex_engine ex_pod ex_world = (w', Returned None)
       /\ history w' = [CallDel ex_netA (runtimeConf ex_pod "eth0")].
Proof.
  assert (Hres : default_resolvable (plugin ex_world) = true)
    by (vm_compute; reflexivity).
  assert (Hfree : pod_mutex_free (plugin ex_world) ex_pod) by exact I.
  split; [reflexivity|]. split; [exact Hres|]. split; [exact Hfree|].
  split; [exact ex_registry_ok|].
  destruct (default_pod_operations ex_vendor ex_engine ex_pod ex_world
              eq_refl Hres Hfree ex_registry_ok)
    as (net & Hnet & (w' & Hrun & Hh) & _).
  assert (Hn : net = ex_netA).
  { assert (Hl : networks (plugin ex_world) !! defaultNetName (plugin ex_world)
                 = Some ex_netA) by (vm_compute; reflexivity).
    rewrite Hl in Hnet. by injection Hnet. }
  subst net. exists w'. split; [exact Hrun | exact Hh].
Defined.

Lemma parse_networks_names_witness :
  Forall (fun name => name <> "" /\ contains_byte ","%char name = false)
    ["net-a"; "b.conf"]
  /\ parse_networks "net-a,b.conf" = ["net-a"; "b.conf"].
Proof.
  assert (Hall : Forall (fun name =>
                           name <> "" /\ contains_byte ","%char name = false)
                   ["net-a"; "b.conf"]).
  { repeat constructor; discriminate. }
  split; [exact Hall|].
  exact (proj2 (proj2 (proj2 parse_networks_names)) ["net-a"; "b.conf"] Hall).
Defined.



Lemma registry_invariant_witness :
  exists w0 b,
    InitCNI "/etc/cni/net.d" "/opt/cni/bin" ex_vendor ex_os ex_fs "" "" []
    = Ok (w0, b)
    /\ registry_named (plugin w0).
Proof.
  destruct (InitCNI "/etc/cni/net.d" "/opt/cni/bin" ex_vendor ex_os ex_fs
              "" "" []) as [[w0 b]|e] eqn:Hinit.
  - exists w0, b. split; [reflexivity|].
    exact (proj1 (registry_invariant "/etc/cni/net.d" "/opt/cni/bin" ex_vendor
                    ex_engine) ex_os ex_fs "" "" [] w0 b Hinit).
  - exfalso.
    assert (Hb : match InitCNI "/etc/cni/net.d" "/opt/cni/bin" ex_vendor ex_os
                         ex_fs "" "" [] with
                 | Ok _ => True
                 | Err _ => False
                 end) by (vm_compute; exact I).
    rewrite Hinit in Hb. exact Hb.
Defined.
